(** * Prisoner's Dilemma tournament: the simulation and scoring engine

    A shallow embedding of [code/prisonersDilemma.py].

    Conventions of the embedding.
    - The engine computes with exact rationals ([Qc], canonical fractions
      with Leibniz equality) where the program computes with Python floats:
      that is the arithmetic the specification reasons in.  The table of turn
      chances and the scoring loops of [runDeterministic] are embedded a
      second time in the program's own arithmetic, IEEE 754 binary64 with
      rounding to nearest (module [Binary64], over Rocq's primitive floats),
      and what is exact only over the rationals is stated for both.  The
      builtin [sum] that renormalises the table is interpreter code that
      changed with Python 3.12; the binary64 statements hold for the
      summation before and after ([Binary64.summation]).  The one
      transcendental computation, the logarithm of the game length draw, is
      modelled over the real numbers.
    - A value a strategy hands back as its move is a string or an integer
      ([pyval]).
    - Code that can raise returns a [result]; code that calls strategies,
      reads the clock or the random source, or touches the cache runs in the
      state-and-exception monad [eff], whose state also keeps a log of the
      calls made ([events], most recent first).
    - The worker pool is modelled by one worker that serves the pairings in
      dispatch order (which is the order [imap] yields results in).
    - The interpreter's recursion limit is modelled where it decides whether
      the program starts: in the recursive calls that fill the table of turn
      chances ([turnChance_call], [build_turnChances]).
    - [np.argsort] is library code whose default sort is not stable.  The
      engine runs the insertion sort numpy uses on short arrays where it has
      no vectorised sort; the ranking of a tournament is stated for any
      function that returns the indices in ascending order of their keys
      ([ascending], [rank_strategies_with],
      [runFullPairingTournament_with]). *)

From Stdlib Require Import ZArith QArith Qcanon Qround Reals Lra Lia.
From Stdlib Require PrimFloat Uint63.
From stdpp Require Import gmap strings list fin_maps numbers sorting.

Local Open Scope Z_scope.

(** ** Python values, exceptions, sequences *)

Inductive pyval :=
  | PyStr (s : string)
  | PyInt (z : Z).

Inductive exn :=
  | Exception (msg : string)
  | ValueError (msg : string)
  | IndexError
  | KeyError
  | OverflowError
  | ZeroDivisionError
  | StatisticsError
  | AttributeError
  | RecursionError.

Inductive result (A : Type) :=
  | Ok (a : A)
  | Raise (e : exn).
Arguments Ok {A} a.
Arguments Raise {A} e.

Global Instance result_ret : MRet result := fun A a => Ok a.
Global Instance result_bind : MBind result := fun A B k r =>
  match r with
  | Ok a => k a
  | Raise e => Raise e
  end.

(** [l[i]] on a Python list: a negative index counts from the end, anything
    outside [-len, len) raises IndexError. *)
Definition py_index {A} (l : list A) (i : Z) : result A :=
  let n := Z.of_nat (length l) in
  let j := if i <? 0 then i + n else i in
  if (0 <=? j) && (j <? n)
  then match l !! Z.to_nat j with
       | Some v => Ok v
       | None => Raise IndexError
       end
  else Raise IndexError.

(** [sum(l)]: left to right, starting from 0. *)
Definition py_sum (l : list Qc) : Qc := fold_left Qcplus l 0%Qc.

(** [range(lo, hi)] for indices that are never negative. *)
Definition range (lo hi : nat) : list nat := seq lo (hi - lo).

(** ** Payoff model *)

Definition pointsArray : list (list Z) :=
  [ [1; 5];
    [0; 3] ].

(** [pointsArray[own][opp]] *)
Definition points (own opp : Z) : result Z :=
  row ← py_index pointsArray own;
  py_index row opp.

Definition defects : list string := ["defect"; "tell truth"]%string.

Definition strategyMove (move : pyval) : Z :=
  match move with
  | PyStr s => if bool_decide (s ∈ defects) then 0 else 1
  | PyInt z => z
  end.

(** ** The turn-chance table *)

Fixpoint turnChance (x : nat) (summing : bool) : Qc :=
  match x with
  | O => Q2Qc (1 # 40)
  | S x' =>
      if summing
      then let S := turnChance x' true in ((1 - S) / Q2Qc 40 + S)%Qc
      else ((1 - turnChance x' true) / Q2Qc 40)%Qc
  end.

(** The table as first filled, before the division by its sum. *)
Definition turnChances0 (DETERMINISTIC_TURNS : nat) : list Qc :=
  map (fun i => turnChance i false) (range 0 (DETERMINISTIC_TURNS - 199)).

Definition chancesSum (DETERMINISTIC_TURNS : nat) : Qc :=
  py_sum (turnChances0 DETERMINISTIC_TURNS).

(** [turnChances = [i/chancesSum for i in turnChances]].  The division is
    never by zero: a table that is not empty has a positive sum
    ([chancesSum_pos]). *)
Definition turnChances (DETERMINISTIC_TURNS : nat) : list Qc :=
  map (fun i => (i / chancesSum DETERMINISTIC_TURNS)%Qc)
    (turnChances0 DETERMINISTIC_TURNS).

(** ** Move histories *)

(** A 2 x T integer array. *)
Record grid := Grid { row0 : list Z; row1 : list Z }.

Definition np_zeros (T : nat) : grid := Grid (replicate T 0) (replicate T 0).

Definition width (g : grid) : nat := length (row0 g).

(** [g[:, :turn].copy()] *)
Definition columns_before (g : grid) (turn : nat) : grid :=
  Grid (take turn (row0 g)) (take turn (row1 g)).

(** The arrays are made with [dtype=int], the 64-bit integer; storing a value
    outside its range raises OverflowError. *)
Definition int64 (v : Z) : bool := (- 2 ^ 63 <=? v) && (v <? 2 ^ 63).

Definition row_store (l : list Z) (i : nat) (v : Z) : result (list Z) :=
  if bool_decide (i < length l)%nat
  then if int64 v then Ok (<[i := v]> l) else Raise OverflowError
  else Raise IndexError.

(** [g[p, turn] = v] *)
Definition store (g : grid) (p turn : nat) (v : Z) : result grid :=
  match p with
  | 0%nat => r ← row_store (row0 g) turn v; Ok (Grid r (row1 g))
  | 1%nat => r ← row_store (row1 g) turn v; Ok (Grid (row0 g) r)
  | _ => Raise IndexError
  end.

(** [g[p, turn]] *)
Definition cell (g : grid) (p turn : nat) : result Z :=
  let row := match p with 0%nat => row0 g | 1%nat => row1 g | _ => [] end in
  match row !! turn with
  | Some v => Ok v
  | None => Raise IndexError
  end.

(** [for i in l: s = body(s, i)] in any monad. *)
Fixpoint for_each {M : Type -> Type} `{!MBind M, !MRet M} {S I : Type}
    (body : S -> I -> M S) (l : list I) (s : S) : M S :=
  match l with
  | [] => mret s
  | i :: l' => s' ← body s i; for_each body l' s'
  end.

(** ** The table as the program builds it *)

(** [turnChance] above is a total function.  The program's [turnChance] is a
    Python function that calls itself once for every index below its
    argument: each call takes a frame, and the interpreter refuses a call
    that would make the stack deeper than its recursion limit
    ([sys.getrecursionlimit()], 1000 unless it is changed).  [depth] counts
    the frames already on the stack when the call is made: 1 at the top
    level of the module, where the table is built.  The arithmetic is a
    parameter: exact rationals for the specification's reading, binary64 for
    the program's. *)
Section Calls.
Context {F : Type}.
Variable of_int : Z -> F.
Variables add sub div : F -> F -> F.
Variable sum : list F -> F.
Variable recursion_limit : nat.



End Calls.

(** ** The table and the scoring loops in binary64 *)

(** Python's floats are IEEE 754 binary64 numbers and its [+], [-], [*] and
    [/] on them round to nearest, ties to even: the operations of Rocq's
    primitive floats.  An [int] that meets a float is converted first, and
    [int / int] is the correctly rounded quotient, which for integers below
    2^53 is the quotient of the two conversions. *)
Module Binary64.

Definition of_int (z : Z) : PrimFloat.float :=
  if z <? 0 then PrimFloat.opp (PrimFloat.of_uint63 (Uint63.of_Z (- z)))
  else PrimFloat.of_uint63 (Uint63.of_Z z).

Fixpoint turnChance (x : nat) (summing : bool) : PrimFloat.float :=
  match x with
  | O => PrimFloat.div (of_int 1) (of_int 40)
  | S x' =>
      if summing
      then let S := turnChance x' true in
           PrimFloat.add (PrimFloat.div (PrimFloat.sub (of_int 1) S) (of_int 40)) S
      else PrimFloat.div (PrimFloat.sub (of_int 1) (turnChance x' true)) (of_int 40)
  end.

(** [sum(l)] is interpreter code, and not the same in every Python the
    program runs on: up to Python 3.11 it adds the items to the integer 0
    from left to right; from Python 3.12 on it carries Neumaier's
    compensation term along the floats and adds it in at the end. *)
Inductive summation := LeftToRight | Compensated.

Definition sum_left (l : list PrimFloat.float) : PrimFloat.float :=
  fold_left PrimFloat.add l (of_int 0).

Fixpoint sum_neumaier (l : list PrimFloat.float) (f_result c : PrimFloat.float)
  : PrimFloat.float :=
  match l with
  | [] =>
      if negb (PrimFloat.eqb c (of_int 0)) && PrimFloat.is_finite c
      then PrimFloat.add f_result c
      else f_result
  | x :: l' =>
      let t := PrimFloat.add f_result x in
      let c :=
        if PrimFloat.leb (PrimFloat.abs x) (PrimFloat.abs f_result)
        then PrimFloat.add c (PrimFloat.add (PrimFloat.sub f_result t) x)
        else PrimFloat.add c (PrimFloat.add (PrimFloat.sub x t) f_result) in
      sum_neumaier l' t c
  end.

Definition sum_compensated (l : list PrimFloat.float) : PrimFloat.float :=
  match l with
  | [] => of_int 0
  | x :: l' => sum_neumaier l' (PrimFloat.add (of_int 0) x) (of_int 0)
  end.

Definition py_sum (kind : summation) (l : list PrimFloat.float) : PrimFloat.float :=
  match kind with
  | LeftToRight => sum_left l
  | Compensated => sum_compensated l
  end.

Definition turnChances0 (DETERMINISTIC_TURNS : nat) : list PrimFloat.float :=
  map (fun i => turnChance i false) (range 0 (DETERMINISTIC_TURNS - 199)).

Definition chancesSum (kind : summation) (DETERMINISTIC_TURNS : nat) : PrimFloat.float :=
  py_sum kind (turnChances0 DETERMINISTIC_TURNS).

Definition turnChances (kind : summation) (DETERMINISTIC_TURNS : nat)
  : list PrimFloat.float :=
  let chancesSum := chancesSum kind DETERMINISTIC_TURNS in
  map (fun i => PrimFloat.div i chancesSum) (turnChances0 DETERMINISTIC_TURNS).

(** One turn of the first scoring loop: integers only. *)
Definition add_points (history : grid) (scores : Z * Z) (turn : nat)
  : result (Z * Z) :=
  a ← cell history 0 turn;
  b ← cell history 1 turn;
  pA ← points a b;
  pB ← points b a;
  Ok (scores.1 + pA, scores.2 + pB).

(** One turn of the last loop.  [turnChances] is the module's table, built
    once when the program starts. *)
Definition add_weighted (turnChances : list PrimFloat.float) (history : grid)
    (acc : (Z * Z) * (PrimFloat.float * PrimFloat.float)) (turn : nat)
  : result ((Z * Z) * (PrimFloat.float * PrimFloat.float)) :=
  let '(scores, totals) := acc in
  scores ← add_points history scores turn;
  chance ← py_index turnChances (Z.of_nat turn - 199);
  Ok (scores,
      (PrimFloat.add totals.1
         (PrimFloat.mul (PrimFloat.div (of_int scores.1) (of_int (Z.of_nat turn + 1)))
            chance),
       PrimFloat.add totals.2
         (PrimFloat.mul (PrimFloat.div (of_int scores.2) (of_int (Z.of_nat turn + 1)))
            chance))).

(** The two scoring loops of [runDeterministic]. *)
Definition runDeterministic_totals (kind : summation) (DETERMINISTIC_TURNS : nat)
    (history : grid) : result (PrimFloat.float * PrimFloat.float) :=
  let turnChances := turnChances kind DETERMINISTIC_TURNS in
  scores ← for_each (add_points history) (range 0 199) (0, 0);
  acc ← for_each (add_weighted turnChances history) (range 199 DETERMINISTIC_TURNS)
          (scores, (of_int 0, of_int 0));
  Ok acc.2.

(** [|x - y| <= eps] *)
Definition within (eps x y : PrimFloat.float) : bool :=
  PrimFloat.leb (PrimFloat.abs (PrimFloat.sub x y)) eps.

(** 2^(-k), for [k] up to 62. *)
Definition pow2_neg (k : Z) : PrimFloat.float :=
  PrimFloat.div (of_int 1) (of_int (2 ^ k)).

(** *** Closed forms of the binary64 loops

    The two statements that renormalise the table, on any list. *)
Definition normalise (kind : summation) (raw : list PrimFloat.float)
  : list PrimFloat.float :=
  let chancesSum := py_sum kind raw in
  map (fun i => PrimFloat.div i chancesSum) raw.

(** What the last loop adds up for a player who earns [c] points on every
    turn: after turn [turn] the integer score is [c * (turn + 1)]. *)
Fixpoint weighted_sum (c : Z) (chances : list PrimFloat.float) (turn : Z)
    (total : PrimFloat.float) : PrimFloat.float :=
  match chances with
  | [] => total
  | chance :: rest =>
      weighted_sum c rest (turn + 1)
        (PrimFloat.add total
           (PrimFloat.mul (PrimFloat.div (of_int (c * (turn + 1))) (of_int (turn + 1)))
              chance))
  end.

(** Every entry is positive and smaller than the one before it. *)
Fixpoint falls (l : list PrimFloat.float) : bool :=
  match l with
  | [] => true
  | a :: rest =>
      PrimFloat.ltb (of_int 0) a &&
      match rest with
      | [] => true
      | b :: _ => PrimFloat.ltb b a
      end && falls rest
  end.

(** Decision procedures over all the turn counts from 200 to [N]: the
    unnormalised table of a turn count is a prefix of that of [N]. *)
Definition for_turn_counts (kind : summation) (N : nat)
    (check : list PrimFloat.float -> bool) : bool :=
  let raw := turnChances0 N in
  forallb (fun n => check (normalise kind (take (n - 199) raw))) (seq 200 (N - 199)).


Definition scores_close (kind : summation) (N : nat) : bool :=
  for_turn_counts kind N (fun table =>
    within (pow2_neg 45) (weighted_sum 3 table 199 (of_int 0)) (of_int 3) &&
    within (pow2_neg 48) (weighted_sum 1 table 199 (of_int 0)) (of_int 1)).

Definition tables_fall (kind : summation) (N : nat) : bool :=
  for_turn_counts kind N falls.

End Binary64.

(** ** Strategies, the process state and the effect monad *)

(** A loaded strategy module.  [M] is the type of the opaque memory values,
    [W] the hidden state of the process (the random generator and whatever
    else a strategy may consult besides its two arguments). *)
Record module (M W : Type) := PyModule {
  mod_name : string;
  strategy : grid -> option M -> W -> (pyval * option M) * W
}.
Arguments PyModule {M W} _ _.
Arguments mod_name {M W} _.
Arguments strategy {M W} _ _ _ _.

Definition pairing : Type := string * string.

Record cache_entry := CacheEntry {
  e_avgScoreA : Qc;
  e_avgScoreB : Qc;
  e_stdevA : Qc;
  e_stdevB : Qc;
  e_firstRoundHistory : grid;
  e_roundResultsStr : string
}.

Inductive event :=
  | EvCacheDelete
  | EvCacheSetup
  | EvCacheGet (pair : pairing)
  | EvCacheInsert (pair : pairing)
  | EvCacheClose
  | EvDispatch (pair : pairing)
  | EvImport (name : string)
  | EvStrategy (name : string)
  | EvRunDeterministic
  | EvRunRound
  | EvDraw.

Record state (W : Type) := State {
  world : W;
  cache : gmap pairing cache_entry;
  events : list event
}.
Arguments State {W} _ _ _.
Arguments world {W} _.
Arguments cache {W} _.
Arguments events {W} _.

Definition eff (W A : Type) : Type := state W -> result A * state W.

Global Instance eff_ret {W} : MRet (eff W) := fun A a s => (Ok a, s).
Global Instance eff_bind {W} : MBind (eff W) := fun A B k m s =>
  match m s with
  | (Ok a, s') => k a s'
  | (Raise e, s') => (Raise e, s')
  end.

Definition lift {W A} (r : result A) : eff W A := fun s => (r, s).
Definition raise {W A} (e : exn) : eff W A := lift (Raise e).
Definition log {W} (ev : event) : eff W unit :=
  fun s => (Ok tt, State (world s) (cache s) (ev :: events s)).

(** One invocation [m.strategy(h, mem)]. *)
Definition call {M W} (m : module M W) (h : grid) (mem : option M)
  : eff W (pyval * option M) :=
  fun s =>
    let '(r, w) := strategy m h mem (world s) in
    (Ok r, State w (cache s) (EvStrategy (mod_name m) :: events s)).

(** ** Command line *)

Record Args := {
  num_runs : Z;
  deterministic_turns : Z;
  use_slow : bool;
  strategies : option (list string);
  use_cache : bool;          (* args.cache *)
  delete_cache : bool
}.

(** ** Game length *)

(** [int(x)] on a float: truncation towards zero. *)
Definition py_int (x : R) : Z :=
  if Rle_dec 0 x then Int_part x else (- Int_part (- x))%Z.

(** [int(200 - 40 * np.log(1 - u))] *)
Definition LENGTH_OF_GAME (u : R) : Z := py_int (200 - 40 * ln (1 - u))%R.

(** ** A small tournament to run the model on *)

Definition alwaysCooperate : module unit nat :=
  PyModule "exampleStrats.alwaysCooperate" (fun _ _ w => (PyStr "cooperate", None, w)).

Definition alwaysDefect : module unit nat :=
  PyModule "exampleStrats.alwaysDefect" (fun _ _ w => (PyStr "defect", None, w)).

(** A strategy that is not a function of its two arguments: it moves by the
    parity of the process-wide counter and advances it. *)
Definition alternator : module unit nat :=
  PyModule "exampleStrats.alternator"
    (fun _ _ w => (PyInt (Z.of_nat w mod 2), None, S w)).

Definition example_import (name : string) : module unit nat :=
  if String.eqb name "exampleStrats.alwaysCooperate" then alwaysCooperate
  else if String.eqb name "exampleStrats.alwaysDefect" then alwaysDefect
  else alternator.

Definition example_random (w : nat) : R * nat := (0%R, w).
Definition example_time (w : nat) : Qc * nat := (Qc_of_Z (Z.of_nat w), S w).
Definition example_stdev (l : list Qc) : Qc := 0%Qc.
Definition example_report (pair : pairing) (h : grid) (a b c d : Qc) : string :=
  String.append pair.1 (String.append " (P1)  VS.  " (String.append pair.2 " (P2)")).

Definition example_listdir (folder : string) : list string :=
  if String.eqb folder "." then ["exampleStrats"; "results.txt"]%string
  else if String.eqb folder "exampleStrats"
       then ["alwaysCooperate.py"; "alwaysDefect.py"; "notes.md"]%string
       else [].

Definition example_isdir (p : string) : bool := String.eqb p "exampleStrats".

Definition example_args : Args :=
  {| num_runs := 3; deterministic_turns := 200; use_slow := true;
     strategies := None; use_cache := true; delete_cache := false |}.

(** The same, asking for two strategies of which one does not exist. *)
Definition example_args_missing : Args :=
  {| num_runs := 3; deterministic_turns := 200; use_slow := true;
     strategies := Some ["exampleStrats.alwaysDefect"; "exampleStrats.missing"]%string;
     use_cache := true; delete_cache := false |}.

(** The same with [--no-cache], with [--num-runs 0], and with
    [--skip-slow], which clears [use_slow]. *)
Definition example_args_no_cache : Args :=
  {| num_runs := 3; deterministic_turns := 200; use_slow := true;
     strategies := None; use_cache := false; delete_cache := false |}.

Definition example_args_no_runs : Args :=
  {| num_runs := 0; deterministic_turns := 200; use_slow := true;
     strategies := None; use_cache := true; delete_cache := false |}.

Definition example_args_fast : Args :=
  {| num_runs := 3; deterministic_turns := 200; use_slow := false;
     strategies := None; use_cache := true; delete_cache := false |}.

(** A folder of two strategies that play alike: both always cooperate. *)
Definition twins_listdir (folder : string) : list string :=
  if String.eqb folder "twins" then ["first.py"; "second.py"]%string else [].

Definition twins_import (name : string) : module unit nat :=
  PyModule name (fun _ _ w => (PyStr "cooperate", None, w)).

(** The arguments the parser fills in when the command line gives none. *)
Definition example_args_default : Args :=
  {| num_runs := 100; deterministic_turns := 500; use_slow := true;
     strategies := None; use_cache := true; delete_cache := false |}.

(** A turn count at which binary64 rounding shows in the scores. *)
Definition example_args_212 : Args :=
  {| num_runs := 100; deterministic_turns := 212; use_slow := true;
     strategies := None; use_cache := true; delete_cache := false |}.

Definition example_state : state nat := State 0%nat ∅ [].

Definition example_entry : cache_entry :=
  CacheEntry (Qc_of_Z 0) (Qc_of_Z 5) 0%Qc 0%Qc (Grid [1] [0]) "".

Definition example_pair : pairing :=
  ("exampleStrats.alwaysCooperate", "exampleStrats.alwaysDefect")%string.

Definition example_cached_state : state nat :=
  State 0%nat {[ example_pair := example_entry ]} [].

(** ** The engine *)

Section Engine.
Context {M W : Type}.

Variable args : Args.

(** What the program takes from its environment:
    - [random_random]: [random.random()], a draw from the process-wide
      generator;
    - [time_time]: [time.time()];
    - [import_module]: [importlib.import_module];
    - [statistics_stdev]: [statistics.stdev];
    - [os_listdir], [os_path_isdir]: the directory tree;
    - [format_report]: the text [outputRoundResults] writes. *)
Variable random_random : W -> R * W.
Variable time_time : W -> Qc * W.
Variable import_module : string -> module M W.
Variable statistics_stdev : list Qc -> Qc.
Variable os_listdir : string -> list string.
Variable os_path_isdir : string -> bool.
Variable format_report : pairing -> grid -> Qc -> Qc -> Qc -> Qc -> string.

(** Read only after the check [DETERMINISTIC_TURNS < 200] has passed, and
    then only as a count. *)
Definition DETERMINISTIC_TURNS : nat := Z.to_nat (deterministic_turns args).
Definition NUM_RUNS : Z := num_runs args.

Definition draw : eff W R := fun s =>
  let '(u, w) := random_random (world s) in
  (Ok u, State w (cache s) (EvDraw :: events s)).

Definition clock : eff W Qc := fun s =>
  let '(t, w) := time_time (world s) in
  (Ok t, State w (cache s) (events s)).

(** *** runRound *)

Record round_state := RoundState {
  history : grid;
  historyFlipped : grid;
  memoryA : option M;
  memoryB : option M
}.

Definition runRound_turn (moduleA moduleB : module M W)
    (st : round_state) (turn : nat) : eff W round_state :=
  '(playerAmove, memA) ← call moduleA (columns_before (history st) turn) (memoryA st);
  '(playerBmove, memB) ← call moduleB (columns_before (historyFlipped st) turn) (memoryB st);
  h ← lift (store (history st) 0 turn (strategyMove playerAmove));
  h ← lift (store h 1 turn (strategyMove playerBmove));
  b ← lift (cell h 1 turn);
  hf ← lift (store (historyFlipped st) 0 turn b);
  a ← lift (cell h 0 turn);
  hf ← lift (store hf 1 turn a);
  mret (RoundState h hf memA memB).

(** The round up to the [return]: both arrays and both memories. *)
Definition runRound_play (moduleA moduleB : module M W) : eff W round_state :=
  _ ← log EvRunRound;
  u ← draw;
  let LENGTH := LENGTH_OF_GAME u in
  if LENGTH <? 0
  then raise (ValueError "negative dimensions are not allowed")
  else
    let T := Z.to_nat LENGTH in
    for_each (runRound_turn moduleA moduleB) (range 0 T)
      (RoundState (np_zeros T) (np_zeros T) None None).

Definition runRound (moduleA moduleB : module M W) : eff W grid :=
  st ← runRound_play moduleA moduleB;
  mret (history st).

(** *** tallyRoundScores *)

Definition add_points (history : grid) (scores : Z * Z) (turn : nat)
  : result (Z * Z) :=
  a ← cell history 0 turn;
  b ← cell history 1 turn;
  pA ← points a b;
  pB ← points b a;
  Ok (scores.1 + pA, scores.2 + pB).

Definition tallyRoundScores (history : grid) : result (Qc * Qc) :=
  let roundLength := width history in
  scores ← for_each (add_points history) (range 0 roundLength) (0, 0);
  if bool_decide (roundLength = 0%nat)
  then Raise ZeroDivisionError
  else Ok ((Qc_of_Z scores.1 / Qc_of_Z (Z.of_nat roundLength))%Qc,
           (Qc_of_Z scores.2 / Qc_of_Z (Z.of_nat roundLength))%Qc).

(** *** runDeterministic *)

Record det_state := DetState {
  d_history : grid;
  d_historyFlipped : grid;
  d_memoryA : option M;
  d_memoryB : option M;
  d_memoryA2 : option M;
  d_memoryB2 : option M
}.

(** One turn of the first loop; [None] is the early [return False]. *)
Definition runDeterministic_turn (moduleA moduleB : module M W)
    (st : det_state) (turn : nat) : eff W (option det_state) :=
  '(playerAmove, memA) ← call moduleA (columns_before (d_history st) turn) (d_memoryA st);
  '(playerBmove, memB) ← call moduleB (columns_before (d_historyFlipped st) turn) (d_memoryB st);
  h ← lift (store (d_history st) 0 turn (strategyMove playerAmove));
  h ← lift (store h 1 turn (strategyMove playerBmove));
  '(playerAmove2, memA2) ← call moduleA (columns_before h turn) (d_memoryA2 st);
  '(playerBmove2, memB2) ← call moduleB (columns_before (d_historyFlipped st) turn) (d_memoryB2 st);
  if bool_decide (strategyMove playerAmove2 ≠ strategyMove playerAmove)
  then mret None
  else if bool_decide (strategyMove playerBmove2 ≠ strategyMove playerBmove)
  then mret None
  else
    b ← lift (cell h 1 turn);
    hf ← lift (store (d_historyFlipped st) 0 turn b);
    a ← lift (cell h 0 turn);
    hf ← lift (store hf 1 turn a);
    mret (Some (DetState h hf memA memB memA2 memB2)).

Fixpoint runDeterministic_turns (moduleA moduleB : module M W)
    (turns : list nat) (st : det_state) : eff W (option det_state) :=
  match turns with
  | [] => mret (Some st)
  | turn :: turns' =>
      r ← runDeterministic_turn moduleA moduleB st turn;
      match r with
      | None => mret None
      | Some st' => runDeterministic_turns moduleA moduleB turns' st'
      end
  end.

(** One turn of the last loop: the running scores, then the weighted
    averages. *)
Definition add_weighted (history : grid) (acc : (Z * Z) * (Qc * Qc))
    (turn : nat) : result ((Z * Z) * (Qc * Qc)) :=
  let '(scores, totals) := acc in
  scores ← add_points history scores turn;
  chance ← py_index (turnChances DETERMINISTIC_TURNS) (Z.of_nat turn - 199);
  Ok (scores,
      ((totals.1 + Qc_of_Z scores.1 / Qc_of_Z (Z.of_nat turn + 1) * chance)%Qc,
       (totals.2 + Qc_of_Z scores.2 / Qc_of_Z (Z.of_nat turn + 1) * chance)%Qc)).

(** The two scoring loops. *)
Definition runDeterministic_totals (history : grid) : result (Qc * Qc) :=
  scores ← for_each (add_points history) (range 0 199) (0, 0);
  acc ← for_each (add_weighted history) (range 199 DETERMINISTIC_TURNS)
          (scores, (0%Qc, 0%Qc));
  Ok acc.2.

(** What [runDeterministic] returns: [False], or the totals and the
    history. *)
Inductive det_result :=
  | DetFalse
  | DetTotals (totals : Qc * Qc) (history : grid).

Definition runDeterministic (moduleA moduleB : module M W) : eff W det_result :=
  _ ← log EvRunDeterministic;
  r ← runDeterministic_turns moduleA moduleB (range 0 DETERMINISTIC_TURNS)
        (DetState (np_zeros DETERMINISTIC_TURNS) (np_zeros DETERMINISTIC_TURNS)
           None None None None);
  match r with
  | None => mret DetFalse
  | Some st =>
      totals ← lift (runDeterministic_totals (d_history st));
      mret (DetTotals totals (d_history st))
  end.

(** *** runRounds *)

(** Modelled from the spec: the cache backend (module [cache], imported as
    [cachelib]) is not among the sources.  Its contract is that of section
    4.5: [get(pairKey)] gives the stored result or nothing, [insert] stores a
    result under the ordered pair of strategy names, [setup] and [close] open
    and release the store. *)
Definition cache_get (pair : pairing) : eff W (option cache_entry) :=
  fun s => (Ok (cache s !! pair),
            State (world s) (cache s) (EvCacheGet pair :: events s)).

Definition cache_insert (pair : pairing) (e : cache_entry) : eff W unit :=
  fun s => (Ok tt,
            State (world s) (<[pair := e]> (cache s)) (EvCacheInsert pair :: events s)).

Definition cache_close : eff W unit := log EvCacheClose.
Definition cache_setup : eff W unit := log EvCacheSetup.

(** [os.remove] of the cache file. *)
Definition cache_remove : eff W unit :=
  fun s => (Ok tt, State (world s) ∅ (EvCacheDelete :: events s)).

Definition load (name : string) : eff W (module M W) :=
  _ ← log (EvImport name);
  mret (import_module name).

Definition statistics_mean (l : list Qc) : result Qc :=
  match l with
  | [] => Raise StatisticsError
  | _ => Ok (py_sum l / Qc_of_Z (Z.of_nat (length l)))%Qc
  end.

(** The lists and the history the sampling loop fills. *)
Record samples := Samples {
  allScoresA : list Qc;
  allScoresB : list Qc;
  firstRoundHistory : option grid
}.

Definition sample_round (moduleA moduleB : module M W)
    (acc : samples) (i : nat) : eff W samples :=
  roundHistory ← runRound moduleA moduleB;
  '(scoresA, scoresB) ← lift (tallyRoundScores roundHistory);
  let first :=
    if bool_decide (i = 0%nat) then Some roundHistory else firstRoundHistory acc in
  mret (Samples (allScoresA acc ++ [scoresA]) (allScoresB acc ++ [scoresB]) first).

(** The tuple [runRounds] returns: the cached flag, the six values a cache
    entry holds, the elapsed time. *)
Definition pair_result : Type := bool * cache_entry * Qc.

Definition runRounds (pair : pairing) : eff W pair_result :=
  r ← (if use_cache args then cache_get pair else mret None);
  match r with
  | Some e =>
      _ ← cache_close;
      mret (true, e, 0%Qc)
  | None =>
      startTime ← clock;
      moduleA ← load pair.1;
      moduleB ← load pair.2;
      deterministic ← runDeterministic moduleA moduleB;
      acc ← match deterministic with
            | DetTotals totals history =>
                mret (Samples [totals.1] [totals.2] (Some history))
            | DetFalse =>
                for_each (sample_round moduleA moduleB)
                  (range 0 (Z.to_nat NUM_RUNS)) (Samples [] [] None)
            end;
      avgScoreA ← lift (statistics_mean (allScoresA acc));
      avgScoreB ← lift (statistics_mean (allScoresB acc));
      endTime ← clock;
      let stdevA :=
        if bool_decide (1 < length (allScoresA acc))%nat
        then statistics_stdev (allScoresA acc) else 0%Qc in
      let stdevB :=
        if bool_decide (1 < length (allScoresB acc))%nat
        then statistics_stdev (allScoresB acc) else 0%Qc in
      match firstRoundHistory acc with
      | None => raise AttributeError
      | Some first =>
          let roundResultsStr :=
            format_report pair first avgScoreA avgScoreB stdevA stdevB in
          let e := CacheEntry avgScoreA avgScoreB stdevA stdevB first roundResultsStr in
          _ ← (if use_cache args
               then _ ← cache_insert pair e; cache_close
               else mret tt);
          mret (false, e, (endTime - startTime)%Qc)
      end
  end.

(** *** runFullPairingTournament *)

(** [s.endswith(suffix)] *)
Definition endswith (s suffix : string) : bool :=
  let n := String.length s in
  let m := String.length suffix in
  (m <=? n)%nat && String.eqb (String.substring (n - m) m s) suffix.

(** [file[:-3]] *)
Definition drop_last3 (file : string) : string :=
  String.substring 0 (String.length file - 3) file.

(** [l.remove(x)] *)
Fixpoint list_remove (x : string) (l : list string) : result (list string) :=
  match l with
  | [] => Raise (ValueError "list.remove(x): x not in list")
  | y :: l' =>
      if String.eqb y x then Ok l'
      else l'' ← list_remove x l'; Ok (y :: l'')
  end.

(** [itertools.combinations(l, r=2)] *)
Fixpoint combinations {A} (l : list A) : list (A * A) :=
  match l with
  | [] => []
  | x :: l' => map (fun y => (x, y)) l' ++ combinations l'
  end.

(** [for k in keys: d[k] = 0] on an empty dict. *)
Definition zeros_dict (keys : list string) : gmap string Qc :=
  foldl (fun (d : gmap string Qc) k => <[k := 0%Qc]> d) ∅ keys.

(** [d[k] += v] *)
Definition dict_add (d : gmap string Qc) (k : string) (v : Qc)
  : result (gmap string Qc) :=
  match d !! k with
  | Some x => Ok (<[k := (x + v)%Qc]> d)
  | None => Raise KeyError
  end.

(** [l[i]] at an index that is not negative. *)
Definition item {A} (l : list A) (i : nat) : result A :=
  match l !! i with
  | Some v => Ok v
  | None => Raise IndexError
  end.

(** [np.argsort(v)] is library code.  It is modelled by the insertion sort
    numpy's default kind runs on an array of up to sixteen entries where it
    has no vectorised sort: indices in ascending order of their keys, an
    index moving left only past strictly larger keys.  Other builds order
    equal keys differently; what every build guarantees is [ascending]
    below. *)
Fixpoint argsort_insert {A} (lt : A -> A -> bool) (v : list A) (d : A)
    (i : nat) (sorted : list nat) : list nat :=
  match sorted with
  | [] => [i]
  | j :: rest =>
      if lt (nth i v d) (nth j v d) then i :: j :: rest
      else j :: argsort_insert lt v d i rest
  end.

Definition argsort {A} (lt : A -> A -> bool) (d : A) (v : list A) : list nat :=
  fold_left (fun sorted i => argsort_insert lt v d i sorted)
    (range 0 (length v)) [].

Definition Qc_ltb (x y : Qc) : bool := bool_decide (x < y)%Qc.

Record tally := Tally {
  hits : nat;
  strategyTimes : gmap string Qc;
  allResults : list (pairing * cache_entry);
  mainFile : list string;
  scoreKeeper : gmap string Qc
}.

(** The body of the loop over the pool's results. *)
Definition collect (t : tally) (pair : pairing) (res : pair_result)
  : result tally :=
  let '(cached, e, pairTime) := res in
  let hits' := if cached : bool then S (hits t) else hits t in
  let '(nameA, nameB) := pair in
  times ← dict_add (strategyTimes t) nameA pairTime;
  times ← dict_add times nameB pairTime;
  scores ← dict_add (scoreKeeper t) nameA (e_avgScoreA e);
  scores ← dict_add scores nameB (e_avgScoreB e);
  Ok (Tally hits' times (allResults t ++ [(pair, e)])
        (mainFile t ++ [e_roundResultsStr e]) scores).

(** One pairing through the pool: handed to the worker, computed, and its
    result consumed by the loop. *)
Definition pool_step (t : tally) (pair : pairing) : eff W tally :=
  _ ← log (EvDispatch pair);
  res ← runRounds pair;
  lift (collect t pair res).

(** [scoresNumpy], filled from [scoreKeeper]. *)
Definition fill_scores (STRATEGY_LIST : list string)
    (scoreKeeper : gmap string Qc) : result (list Qc) :=
  for_each
    (fun scoresNumpy i =>
       name ← item STRATEGY_LIST i;
       score ← match scoreKeeper !! name with
               | Some v => Ok v
               | None => Raise KeyError
               end;
       if bool_decide (i < length scoresNumpy)%nat
       then Ok (<[i := score]> scoresNumpy)
       else Raise IndexError)
    (range 0 (length STRATEGY_LIST))
    (replicate (size scoreKeeper) 0%Qc).

(** One line of the ranked summary: rank, name, score, score per opponent. *)
Definition score_line : Type := nat * string * Qc * Qc.

Definition scoreLine (STRATEGY_LIST : list string) (rankings : list nat)
    (scoresNumpy : list Qc) (rank : nat) : result score_line :=
  i ← py_index rankings (- 1 - Z.of_nat rank);
  score ← item scoresNumpy i;
  name ← item STRATEGY_LIST i;
  let scorePer := (score / Qc_of_Z (Z.of_nat (length STRATEGY_LIST) - 1))%Qc in
  Ok ((rank + 1)%nat, name, score, scorePer).

Record ranking := Ranking {
  scoresNumpy : list Qc;
  rankings : list nat;
  invRankings : list nat;
  summary : list score_line
}.

(** From [scoresNumpy = np.zeros(...)] to the last summary line. *)
Definition rank_strategies (STRATEGY_LIST : list string)
    (scoreKeeper : gmap string Qc) : result ranking :=
  scoresNumpy ← fill_scores STRATEGY_LIST scoreKeeper;
  let rankings := argsort Qc_ltb 0%Qc scoresNumpy in
  let invRankings :=
    map (fun r => (length rankings - r - 1)%nat) (argsort Nat.ltb 0%nat rankings) in
  lines ← mapM (scoreLine STRATEGY_LIST rankings scoresNumpy)
            (range 0 (length STRATEGY_LIST));
  Ok (Ranking scoresNumpy rankings invRankings lines).

(** The strategies found in the folders, then the [--strategies] filter. *)
Definition STRATEGY_LIST (inFolders : list string) : list string :=
  let found :=
    inFolder ← inFolders;
    file ← filter (fun file => endswith file ".py") (os_listdir inFolder);
    [String.append inFolder (String.append "." (drop_last3 file))] in
  match strategies args with
  | Some chosen =>
      if bool_decide (1 < length chosen)%nat
      then filter (fun strategy => strategy ∈ chosen) found
      else found
  | None => found
  end.

Definition runFullPairingTournament (inFolders : list string)
  : eff W (tally * ranking) :=
  _ ← (if delete_cache args then cache_remove else mret tt);
  _ ← (if use_cache args then cache_setup else mret tt);
  let STRATEGY_LIST := STRATEGY_LIST inFolders in
  if bool_decide (length STRATEGY_LIST < 2)%nat
  then raise (ValueError "Not enough strategies!")
  else
    let scoreKeeper0 := zeros_dict STRATEGY_LIST in
    let combinations :=
      match strategies args with
      | Some [only] =>
          filter (fun pair : pairing => pair.1 = only ∨ pair.2 = only)
            (combinations STRATEGY_LIST)
      | _ => combinations STRATEGY_LIST
      end in
    let strategyTimes0 := zeros_dict STRATEGY_LIST in
    t ← for_each pool_step combinations (Tally 0 strategyTimes0 [] [] scoreKeeper0);
    r ← lift (rank_strategies STRATEGY_LIST (scoreKeeper t));
    mret (t, r).

(** *** The ranking with any sort

    [np.argsort] is called without a [kind]: numpy then runs its default
    sort, which it documents as not stable and which is not the same in
    every build.  Here are the same statements with the sort of the scores
    left as a parameter.  (The second [argsort], on [rankings], sorts a list
    of distinct integers, which every sort orders in the same way.) *)
Definition rank_strategies_with (np_argsort : list Qc -> list nat)
    (STRATEGY_LIST : list string) (scoreKeeper : gmap string Qc) : result ranking :=
  scoresNumpy ← fill_scores STRATEGY_LIST scoreKeeper;
  let rankings := np_argsort scoresNumpy in
  let invRankings :=
    map (fun r => (length rankings - r - 1)%nat) (argsort Nat.ltb 0%nat rankings) in
  lines ← mapM (scoreLine STRATEGY_LIST rankings scoresNumpy)
            (range 0 (length STRATEGY_LIST));
  Ok (Ranking scoresNumpy rankings invRankings lines).

Definition runFullPairingTournament_with (np_argsort : list Qc -> list nat)
    (inFolders : list string) : eff W (tally * ranking) :=
  _ ← (if delete_cache args then cache_remove else mret tt);
  _ ← (if use_cache args then cache_setup else mret tt);
  let STRATEGY_LIST := STRATEGY_LIST inFolders in
  if bool_decide (length STRATEGY_LIST < 2)%nat
  then raise (ValueError "Not enough strategies!")
  else
    let scoreKeeper0 := zeros_dict STRATEGY_LIST in
    let combinations :=
      match strategies args with
      | Some [only] =>
          filter (fun pair : pairing => pair.1 = only ∨ pair.2 = only)
            (combinations STRATEGY_LIST)
      | _ => combinations STRATEGY_LIST
      end in
    let strategyTimes0 := zeros_dict STRATEGY_LIST in
    t ← for_each pool_step combinations (Tally 0 strategyTimes0 [] [] scoreKeeper0);
    r ← lift (rank_strategies_with np_argsort STRATEGY_LIST (scoreKeeper t));
    mret (t, r).

(** The module's top level, from the parsed arguments to the call of
    [runFullPairingTournament]. *)
Definition STRATEGY_FOLDERS : result (list string) :=
  let folders := filter (fun p => os_path_isdir p) (os_listdir ".") in
  if use_slow args then Ok folders else list_remove "slow" folders.

Definition main : eff W (tally * ranking) :=
  if deterministic_turns args <? 200
  then raise (Exception "--det-turns must be at least 200")
  else
    folders ← lift STRATEGY_FOLDERS;
    runFullPairingTournament folders.

(** *** outputRoundResults, pad, progressBar *)

Definition moveLabels : list string := ["D"; "C"]%string.

(** The line [outputRoundResults] writes for one row of the history:
    [moveLabels[move] + " "] for every turn. *)
Definition write_moves (row : list Z) : result string :=
  for_each (fun text move =>
              label ← py_index moveLabels move;
              Ok (String.append text (String.append label " ")))
    row ""%string.

Definition pad (stri : string) (leng : Z) : string :=
  foldl (fun result _ => String.append result " ") stri
    (range (String.length stri) (Z.to_nat leng)).

(** [round(x)] on a float: to the nearest integer, a tie to the even one. *)
Definition py_round (x : Qc) : Z :=
  let f := Qfloor x in
  let r := (x - Qc_of_Z f)%Qc in
  if bool_decide (r < Q2Qc (1 # 2))%Qc then f
  else if bool_decide (Q2Qc (1 # 2) < r)%Qc then f + 1
  else if Z.even f then f else f + 1.

Fixpoint str_repeat (s : string) (n : nat) : string :=
  match n with
  | O => ""%string
  | S n' => String.append s (str_repeat s n')
  end.

(** [s * n] on a string: empty when [n] is not positive. *)
Definition str_mul (s : string) (n : Z) : string := str_repeat s (Z.to_nat n).

Definition progressBar (width : Z) (completion : Qc) : string :=
  let numCompleted := py_round (Qc_of_Z width * completion) in
  String.append "["
    (String.append (str_mul "=" numCompleted)
       (String.append (str_mul " " (width - numCompleted)) "]")).

(** ** Closed forms the properties are stated against *)

Definition sumZ (f : nat -> Z) (l : list nat) : Z :=
  foldr (fun k acc => f k + acc) 0 l.

Definition sumQc (f : nat -> Qc) (l : list nat) : Qc :=
  foldr (fun k acc => (f k + acc)%Qc) 0%Qc l.

(** The payoff of one turn, read off the table. *)
Definition payoff (own opp : Z) : Z :=
  match points own opp with
  | Ok v => v
  | Raise _ => 0
  end.

(** What player [p] (0 or 1) earns at turn [k] of a history. *)
Definition turn_payoff (history : grid) (p k : nat) : Z :=
  let a := nth k (row0 history) 0 in
  let b := nth k (row1 history) 0 in
  match p with
  | 0%nat => payoff a b
  | _ => payoff b a
  end.

(** The payoff of player [p] summed over the turns 0 .. t. *)
Definition cumulative_payoff (history : grid) (p t : nat) : Z :=
  sumZ (turn_payoff history p) (range 0 (S t)).

(** The table's probability that play stops at turn [t]. *)
Definition stop_chance (t : nat) : Qc :=
  nth (t - 199) (turnChances DETERMINISTIC_TURNS) 0%Qc.

(** The sum over the stopping turns 199 .. DETERMINISTIC_TURNS - 1 of the
    average score up to that turn, weighted by the chance of stopping
    there. *)
Definition expected_average (history : grid) (p : nat) : Qc :=
  sumQc (fun t =>
           (Qc_of_Z (cumulative_payoff history p t) / Qc_of_Z (Z.of_nat t + 1)
            * stop_chance t)%Qc)
    (range 199 DETERMINISTIC_TURNS).

Definition is_move (v : Z) : Prop := v = 0 \/ v = 1.

(** A strategy keeps to the interface when the move it returns normalises to
    0 or 1, whatever it is given. *)
Definition returns_moves (m : module M W) : Prop :=
  forall h mem w, is_move (strategyMove (strategy m h mem w).1.1).

(** The determinism check as the specification words it: at every turn each
    strategy is invoked for its official move and once more as a probe, on
    the same snapshot of the moves made so far, the probe with a memory of
    its own.  Nothing is compared and nothing stops the play. *)
Record play_state := PlayState {
  p_movesA : list Z;
  p_movesB : list Z;
  p_memoryA : option M;
  p_memoryB : option M;
  p_memoryA2 : option M;
  p_memoryB2 : option M;
  p_world : W
}.

Record turn_moves := TurnMoves {
  official_A : Z;
  official_B : Z;
  probe_A : Z;
  probe_B : Z
}.

Definition play_turn (moduleA moduleB : module M W) (st : play_state)
  : turn_moves * play_state :=
  let snapshotA := Grid (p_movesA st) (p_movesB st) in
  let snapshotB := Grid (p_movesB st) (p_movesA st) in
  let '(a, memA, w) := strategy moduleA snapshotA (p_memoryA st) (p_world st) in
  let '(b, memB, w) := strategy moduleB snapshotB (p_memoryB st) w in
  let '(a2, memA2, w) := strategy moduleA snapshotA (p_memoryA2 st) w in
  let '(b2, memB2, w) := strategy moduleB snapshotB (p_memoryB2 st) w in
  (TurnMoves (strategyMove a) (strategyMove b) (strategyMove a2) (strategyMove b2),
   PlayState (p_movesA st ++ [strategyMove a]) (p_movesB st ++ [strategyMove b])
     memA memB memA2 memB2 w).

(** The play after [n] turns, begun in world [w]. *)
Fixpoint play (moduleA moduleB : module M W) (w : W) (n : nat) : play_state :=
  match n with
  | O => PlayState [] [] None None None None w
  | S n' => (play_turn moduleA moduleB (play moduleA moduleB w n')).2
  end.

(** The four moves of turn [t]. *)
Definition moves_at (moduleA moduleB : module M W) (w : W) (t : nat) : turn_moves :=
  (play_turn moduleA moduleB (play moduleA moduleB w t)).1.

Definition probes_agree (m : turn_moves) : Prop :=
  probe_A m = official_A m /\ probe_B m = official_B m.

(** A history whose two rows have one length and hold move codes only. *)
Definition valid_grid (g : grid) : Prop :=
  Forall is_move (row0 g) /\ Forall is_move (row1 g) /\
  length (row1 g) = length (row0 g).

(** Both arrays of a round of [T] turns. *)
Definition round_inv (T : nat) (st : round_state) : Prop :=
  valid_grid (history st) /\ width (history st) = T /\
  valid_grid (historyFlipped st) /\ width (historyFlipped st) = T.

(** How the arrays and memories of [runDeterministic], [t] turns into a run
    of [n], sit against the play of the same [t] turns. *)
Definition det_inv (n t : nat) (st : det_state) (ps : play_state) : Prop :=
  length (p_movesA ps) = t /\ length (p_movesB ps) = t /\
  d_history st = Grid (p_movesA ps ++ replicate (n - t) 0)
                      (p_movesB ps ++ replicate (n - t) 0) /\
  d_historyFlipped st = Grid (p_movesB ps ++ replicate (n - t) 0)
                             (p_movesA ps ++ replicate (n - t) 0) /\
  d_memoryA st = p_memoryA ps /\ d_memoryB st = p_memoryB ps /\
  d_memoryA2 st = p_memoryA2 ps /\ d_memoryB2 st = p_memoryB2 ps.

Definition is_call (ev : event) : bool :=
  match ev with
  | EvStrategy _ => true
  | _ => false
  end.

(** From [s] to [s'] the cache is as it was and the log has grown by
    strategy invocations only. *)
Definition calls_only (s s' : state W) : Prop :=
  cache s' = cache s /\
  exists new, events s' = new ++ events s /\ Forall (fun ev => is_call ev = true) new.

Definition is_round (ev : event) : bool :=
  match ev with
  | EvRunRound => true
  | _ => false
  end.

(** The number of stochastic rounds a log records. *)
Definition rounds_run (evs : list event) : nat :=
  length (List.filter is_round evs).

(** Index [a] comes before index [b] in an ascending sort of the keys [v]
    that keeps equal keys in index order. *)
Definition sorts_before (v : list Qc) (a b : nat) : Prop :=
  (nth a v 0%Qc < nth b v 0%Qc)%Qc \/
  (nth a v 0%Qc = nth b v 0%Qc /\ (a < b)%nat).

(** What one pairing's result adds to the cumulative score of [name]. *)
Definition share (pair : pairing) (e : cache_entry) (name : string) : Qc :=
  ((if decide (name = pair.1) then e_avgScoreA e else 0%Qc)
   + (if decide (name = pair.2) then e_avgScoreB e else 0%Qc))%Qc.

(** The cumulative score of [name]: what the results of the pairings add
    up to for it, in the order they came in. *)
Definition cumulative (results : list (pairing * cache_entry)) (name : string) : Qc :=
  fold_left (fun total r => (total + share r.1 r.2 name)%Qc) results 0%Qc.

(** What [np.argsort] returns whatever sort it runs: every index of the
    array once, none before an index with a smaller key. *)
Definition ascending (np_argsort : list Qc -> list nat) : Prop :=
  forall v,
    np_argsort v ≡ₚ seq 0 (length v) /\
    StronglySorted (fun i j => (nth i v 0%Qc <= nth j v 0%Qc)%Qc) (np_argsort v).

(** Every entry of [scoreKeeper] is the cumulative score of its key. *)
Definition keeps_scores (t : tally) : Prop :=
  forall name x, scoreKeeper t !! name = Some x -> x = cumulative (allResults t) name.

(** The name and the score on a line of the summary. *)
Definition line_name (line : score_line) : string := line.1.1.2.
Definition line_score (line : score_line) : Qc := line.1.2.

(** The events that are simulation work: a pairing handed to the pool, a
    strategy module loaded, a strategy invoked, a round or the determinism
    check started, a length drawn, a result put into the cache. *)
Definition is_work (ev : event) : bool :=
  match ev with
  | EvDispatch _ | EvImport _ | EvStrategy _
  | EvRunDeterministic | EvRunRound | EvDraw | EvCacheInsert _ => true
  | EvCacheDelete | EvCacheSetup | EvCacheGet _ | EvCacheClose => false
  end.

(** A computation that leaves the number of rounds in the log alone. *)
Definition no_rounds {A} (m : eff W A) : Prop :=
  forall s, rounds_run (events (m s).2) = rounds_run (events s).

(** ** Frames: what a computation leaves alone *)

(** From [s] to [s'] the cache is as it was and the log has grown by events
    that satisfy [P]. *)
Definition grows_by (P : event -> Prop) (s s' : state W) : Prop :=
  cache s' = cache s /\
  exists new, events s' = new ++ events s /\ Forall P new.

(** Whatever its outcome, [m] leaves the cache alone and logs only events
    that satisfy [P]. *)
Definition logs_only {A} (P : event -> Prop) (m : eff W A) : Prop :=
  forall s, grows_by P s (m s).2.

(** The events of playing: a round or the determinism check begun, a length
    drawn, a strategy invoked. *)
Definition is_play (ev : event) : Prop :=
  match ev with
  | EvRunDeterministic | EvRunRound | EvDraw | EvStrategy _ => True
  | _ => False
  end.

(** What a cache miss may log before the result is stored: the lookup (when
    caching is on), the two imports, and play. *)
Definition is_miss_event (pair : pairing) (ev : event) : Prop :=
  is_play ev \/ ev = EvImport pair.1 \/ ev = EvImport pair.2 \/
  (use_cache args = true /\ ev = EvCacheGet pair).

(** The part of [runRounds] from [statistics.mean] on. *)
Definition runRounds_finish (pair : pairing) (startTime : Qc) (acc : samples)
  : eff W pair_result :=
  avgScoreA ← lift (statistics_mean (allScoresA acc));
  avgScoreB ← lift (statistics_mean (allScoresB acc));
  endTime ← clock;
  let stdevA :=
    if bool_decide (1 < length (allScoresA acc))%nat
    then statistics_stdev (allScoresA acc) else 0%Qc in
  let stdevB :=
    if bool_decide (1 < length (allScoresB acc))%nat
    then statistics_stdev (allScoresB acc) else 0%Qc in
  match firstRoundHistory acc with
  | None => raise AttributeError
  | Some first =>
      let roundResultsStr :=
        format_report pair first avgScoreA avgScoreB stdevA stdevB in
      let e := CacheEntry avgScoreA avgScoreB stdevA stdevB first roundResultsStr in
      _ ← (if use_cache args
           then _ ← cache_insert pair e; cache_close
           else mret tt);
      mret (false, e, (endTime - startTime)%Qc)
  end.

(** The part of [runRounds] after a cache miss. *)
Definition runRounds_compute (pair : pairing) : eff W pair_result :=
  startTime ← clock;
  moduleA ← load pair.1;
  moduleB ← load pair.2;
  deterministic ← runDeterministic moduleA moduleB;
  acc ← match deterministic with
        | DetTotals totals history =>
            mret (Samples [totals.1] [totals.2] (Some history))
        | DetFalse =>
            for_each (sample_round moduleA moduleB)
              (range 0 (Z.to_nat NUM_RUNS)) (Samples [] [] None)
        end;
  runRounds_finish pair startTime acc.

(** The state after the result [e] has been stored and the cache closed. *)
Definition stored (pair : pairing) (e : cache_entry) (s : state W) : state W :=
  if use_cache args
  then State (world s) (<[pair := e]> (cache s))
         (EvCacheClose :: EvCacheInsert pair :: events s)
  else s.

(** A strategy that is a function of its two arguments alone: it neither
    reads nor changes the state of the process. *)
Definition pure_strategy (m : module M W) : Prop :=
  forall h mem w w', strategy m h mem w' = ((strategy m h mem w).1, w').

(** A history with its two rows exchanged. *)
Definition flip (g : grid) : grid := Grid (row1 g) (row0 g).

(** The pairings a log records as handed to the pool, oldest first. *)
Fixpoint dispatched (evs : list event) : list pairing :=
  match evs with
  | [] => []
  | EvDispatch p :: evs' => dispatched evs' ++ [p]
  | _ :: evs' => dispatched evs'
  end.

(** The list [runFullPairingTournament] hands to the pool: its local
    [combinations], after the filter of a single [--strategies] name. *)
Definition pairings (inFolders : list string) : list pairing :=
  match strategies args with
  | Some [only] =>
      filter (fun pair : pairing => pair.1 = only ∨ pair.2 = only)
        (combinations (STRATEGY_LIST inFolders))
  | _ => combinations (STRATEGY_LIST inFolders)
  end.

(** A dict whose keys are exactly the names of a list. *)
Definition keyed (names : list string) (d : gmap string Qc) : Prop :=
  forall name, is_Some (d !! name) <-> name ∈ names.

(** The two lists of the sampling loop after [n] rounds: [n] scores each,
    every round worth between 0 and 5 to a player and between 2 and 6 to the
    two together. *)
Definition samples_within (n : nat) (acc : samples) : Prop :=
  let N := Qc_of_Z (Z.of_nat n) in
  let A := py_sum (allScoresA acc) in
  let B := py_sum (allScoresB acc) in
  length (allScoresA acc) = n /\ length (allScoresB acc) = n /\
  (Qc_of_Z 0 * N <= A)%Qc /\ (A <= Qc_of_Z 5 * N)%Qc /\
  (Qc_of_Z 0 * N <= B)%Qc /\ (B <= Qc_of_Z 5 * N)%Qc /\
  (Qc_of_Z 2 * N <= A + B)%Qc /\ (A + B <= Qc_of_Z 6 * N)%Qc.

(** The history kept for the report is that of a round that was played. *)
Definition first_played (acc : samples) : Prop :=
  exists h, firstRoundHistory acc = Some h /\ valid_grid h /\ (200 <= width h)%nat.

(** * Properties *)

(** ** Sums of rationals *)

Lemma fold_left_Qcplus (l : list Qc) (a : Qc) :
  fold_left Qcplus l a = (a + py_sum l)%Qc.
Proof.
  unfold py_sum. revert a.
  induction l as [|x l IH]; intros a; simpl.
  - ring.
  - rewrite IH, (IH (0 + x)%Qc). ring.
Qed.

Lemma py_sum_cons (x : Qc) (l : list Qc) : py_sum (x :: l) = (x + py_sum l)%Qc.
Proof. unfold py_sum at 1. simpl. rewrite fold_left_Qcplus. ring. Qed.

Lemma py_sum_app (l k : list Qc) : py_sum (l ++ k) = (py_sum l + py_sum k)%Qc.
Proof.
  induction l as [|x l IH]; simpl.
  - unfold py_sum at 2. simpl. ring.
  - rewrite !py_sum_cons, IH. ring.
Qed.

Lemma py_sum_scale (c : Qc) (l : list Qc) :
  py_sum (map (fun x => (x / c)%Qc) l) = (py_sum l / c)%Qc.
Proof.
  induction l as [|x l IH]; simpl.
  - unfold py_sum. simpl. unfold Qcdiv. ring.
  - rewrite !py_sum_cons, IH. unfold Qcdiv. ring.
Qed.

Lemma py_sum_pos (l : list Qc) :
  l <> [] -> Forall (fun x => (0 < x)%Qc) l -> (0 < py_sum l)%Qc.
Proof.
  intros Hne Hall. induction Hall as [|x l Hx Hl IH]; [done|].
  rewrite py_sum_cons. destruct l as [|y l].
  - unfold py_sum. simpl. by rewrite Qcplus_0_r.
  - apply Qcplus_pos_pos; [done|]. by apply IH.
Qed.

(** ** The turn-chance table *)

Lemma turnChance_survival (i : nat) : (0 < 1 - turnChance i true)%Qc.
Proof.
  induction i as [|i IH].
  - done.
  - replace (1 - turnChance (S i) true)%Qc
      with ((1 - turnChance i true) * (1 - 1 / Q2Qc 40))%Qc.
    + apply Qcmult_pos_pos; done.
    + simpl. generalize (turnChance i true). intros S. field. done.
Qed.

Lemma turnChance_pos (i : nat) : (0 < turnChance i false)%Qc.
Proof.
  destruct i as [|i]; [done|]. simpl.
  unfold Qcdiv. apply Qcmult_pos_pos; [apply turnChance_survival | done].
Qed.

Lemma turnChances0_length (n : nat) : length (turnChances0 n) = (n - 199)%nat.
Proof. unfold turnChances0, range. rewrite length_map, length_seq. lia. Qed.

Lemma chancesSum_pos (n : nat) : (200 <= n)%nat -> (0 < chancesSum n)%Qc.
Proof.
  intros Hn. apply py_sum_pos.
  - intros E. apply (f_equal length) in E.
    rewrite turnChances0_length in E. simpl in E. lia.
  - unfold turnChances0. apply Forall_map, Forall_forall.
    intros i _. apply turnChance_pos.
Qed.

Lemma turnChances_total (n : nat) : (200 <= n)%nat -> py_sum (turnChances n) = 1%Qc.
Proof.
  intros Hn. unfold turnChances. rewrite py_sum_scale.
  fold (chancesSum n). field.
  apply not_eq_sym, Qclt_not_eq, chancesSum_pos, Hn.
Qed.

(** ** The calls that fill the table *)

Section Calls_return.
Context {F : Type}.
Variable of_int : Z -> F.
Variables add sub div : F -> F -> F.
Variable total : nat -> bool -> F.
Hypothesis total_O : forall summing, total 0 summing = div (of_int 1) (of_int 40).
Hypothesis total_S : forall x,
  total (S x) false = div (sub (of_int 1) (total x true)) (of_int 40) /\
  total (S x) true =
    add (div (sub (of_int 1) (total x true)) (of_int 40)) (total x true).




End Calls_return.



(** ** The table in binary64 *)

Lemma turnChances0_prefix (n N : nat) :
  (n <= N)%nat ->
  Binary64.turnChances0 n = take (n - 199) (Binary64.turnChances0 N).
Proof.
  intros Hn. unfold Binary64.turnChances0, range.
  rewrite firstn_map, take_seq, !Nat.sub_0_r.
  by replace ((n - 199) `min` (N - 199))%nat with (n - 199)%nat by lia.
Qed.

Lemma for_turn_counts_true (kind : Binary64.summation) (N : nat)
    (check : list PrimFloat.float -> bool) (n : nat) :
  Binary64.for_turn_counts kind N check = true ->
  (200 <= n <= N)%nat ->
  check (Binary64.turnChances kind n) = true.
Proof.
  unfold Binary64.for_turn_counts. cbv zeta. intros H Hn.
  rewrite forallb_forall in H.
  specialize (H n). rewrite <- (turnChances0_prefix n N) in H by lia.
  apply H, in_seq. lia.
Qed.





(** ** The scoring loops of runDeterministic *)

Lemma sumZ_snoc (f : nat -> Z) (l : list nat) (k : nat) :
  sumZ f (l ++ [k]) = sumZ f l + f k.
Proof. induction l as [|x l IH]; simpl; [lia|]. rewrite IH. lia. Qed.

Lemma cumulative_payoff_S (h : grid) (p t : nat) :
  cumulative_payoff h p (S t) = cumulative_payoff h p t + turn_payoff h p (S t).
Proof.
  unfold cumulative_payoff, range. rewrite !Nat.sub_0_r.
  by rewrite (seq_S (S t)), sumZ_snoc, Nat.add_0_l.
Qed.

Lemma cell_nth (h : grid) (p k : nat) (v : Z) :
  cell h p k = Ok v ->
  match p with
  | 0%nat => nth k (row0 h) 0 = v
  | 1%nat => nth k (row1 h) 0 = v
  | _ => False
  end.
Proof.
  unfold cell. destruct p as [|[|p]]; simpl.
  - destruct (row0 h !! k) eqn:E; [|done]. intros [= <-]. by apply nth_lookup_Some with (d := 0) in E.
  - destruct (row1 h !! k) eqn:E; [|done]. intros [= <-]. by apply nth_lookup_Some with (d := 0) in E.
  - done.
Qed.

Lemma add_points_step (h : grid) (scores scores' : Z * Z) (k : nat) :
  add_points h scores k = Ok scores' ->
  scores' = (scores.1 + turn_payoff h 0 k, scores.2 + turn_payoff h 1 k).
Proof.
  unfold add_points, turn_payoff, payoff.
  destruct (cell h 0 k) as [a|] eqn:Ea; [|done]. apply cell_nth in Ea.
  destruct (cell h 1 k) as [b|] eqn:Eb; [|done]. apply cell_nth in Eb.
  simpl. rewrite Ea, Eb.
  destruct (points a b) as [pA|]; [|done].
  destruct (points b a) as [pB|]; [|done].
  simpl. by intros [= <-].
Qed.

(** The running scores after the turns [a .. a+n-1], started from the
    cumulative payoff of the turns before [a]. *)
Lemma add_points_loop (h : grid) (n a : nat) (scores scores' : Z * Z) :
  for_each (add_points h) (seq a n) scores = Ok scores' ->
  scores' = (scores.1 + sumZ (turn_payoff h 0) (seq a n),
             scores.2 + sumZ (turn_payoff h 1) (seq a n)).
Proof.
  revert a scores. induction n as [|n IH]; intros a scores; simpl.
  - intros [= <-]. destruct scores; simpl. f_equal; lia.
  - destruct (add_points h scores a) as [sc|] eqn:E; [|done]. simpl.
    intros H. apply IH in H. apply add_points_step in E. subst sc. simpl in H.
    rewrite H. f_equal; lia.
Qed.

Lemma turnChances_index (t : nat) (chance : Qc) :
  (199 <= t)%nat ->
  py_index (turnChances DETERMINISTIC_TURNS) (Z.of_nat t - 199) = Ok chance ->
  stop_chance t = chance.
Proof.
  intros Ht. unfold py_index, stop_chance.
  replace (Z.of_nat t - 199 <? 0) with false by (symmetry; apply Z.ltb_ge; lia).
  destruct (_ && _); [|done].
  replace (Z.to_nat (Z.of_nat t - 199)) with (t - 199)%nat by lia.
  destruct (_ !! _) eqn:E; [|done].
  intros [= <-]. by apply nth_lookup_Some with (d := 0%Qc) in E.
Qed.

Lemma add_weighted_loop (h : grid) (n a : nat) (scores scores' : Z * Z)
    (totals totals' : Qc * Qc) :
  (199 <= a)%nat ->
  scores = (cumulative_payoff h 0 (a - 1), cumulative_payoff h 1 (a - 1)) ->
  for_each (add_weighted h) (seq a n) (scores, totals) = Ok (scores', totals') ->
  totals' =
    ((totals.1 + sumQc (fun t => Qc_of_Z (cumulative_payoff h 0 t)
                                 / Qc_of_Z (Z.of_nat t + 1) * stop_chance t) (seq a n))%Qc,
     (totals.2 + sumQc (fun t => Qc_of_Z (cumulative_payoff h 1 t)
                                 / Qc_of_Z (Z.of_nat t + 1) * stop_chance t) (seq a n))%Qc).
Proof.
  revert a scores totals. induction n as [|n IH]; intros a scores totals Ha Hsc; simpl.
  - intros [= _ <-]. destruct totals; simpl. f_equal; ring.
  - destruct (add_points h scores a) as [sc|] eqn:E; [|done]. simpl.
    apply add_points_step in E.
    destruct (py_index _ _) as [chance|] eqn:Ec; [|done]. simpl.
    apply turnChances_index in Ec; [|done].
    assert (Hsc' : sc = (cumulative_payoff h 0 a, cumulative_payoff h 1 a)).
    { destruct a as [|a']; [lia|].
      replace (S a' - 1)%nat with a' in Hsc by lia.
      subst sc scores. simpl fst. simpl snd. by rewrite !cumulative_payoff_S. }
    intros H. apply IH in H; [|lia|].
    + rewrite H, Hsc', Ec. simpl. f_equal; ring.
    + rewrite Hsc'. by replace (S a - 1)%nat with a by lia.
Qed.

Lemma runDeterministic_totals_closed (h : grid) (totals : Qc * Qc) :
  runDeterministic_totals h = Ok totals ->
  totals = (expected_average h 0, expected_average h 1).
Proof.
  unfold runDeterministic_totals.
  destruct (for_each (add_points h) (range 0 199) (0, 0)) as [scores|] eqn:E1; [|done].
  simpl. destruct (for_each (add_weighted h) _ _) as [[sc tot]|] eqn:E2; [|done].
  simpl. intros [= <-].
  apply add_points_loop in E1. cbn [fst snd] in E1. rewrite !Z.add_0_l in E1.
  apply add_weighted_loop in E2; [|done|by subst scores].
  rewrite E2. unfold expected_average, range. cbn [fst snd].
  by rewrite !Qcplus_0_l.
Qed.

(** ** The effect monad *)

Lemma bind_ok {A B} (m : eff W A) (k : A -> eff W B) s a s' :
  m s = (Ok a, s') -> (m ≫= k) s = k a s'.
Proof. unfold mbind, eff_bind. by intros ->. Qed.

Lemma bind_raise {A B} (m : eff W A) (k : A -> eff W B) s e s' :
  m s = (Raise e, s') -> (m ≫= k) s = (Raise e, s').
Proof. unfold mbind, eff_bind. by intros ->. Qed.

(** ** Arrays *)

Lemma move_int64 (v : Z) : v = 0 \/ v = 1 -> int64 v = true.
Proof. by intros [-> | ->]. Qed.

Lemma row_store_next (l : list Z) (n t : nat) (v : Z) :
  length l = t -> (t < n)%nat -> int64 v = true ->
  row_store (l ++ replicate (n - t) 0) t v
  = Ok ((l ++ [v]) ++ replicate (n - S t) 0).
Proof.
  intros Hl Ht Hv. unfold row_store.
  rewrite bool_decide_eq_true_2, Hv.
  - f_equal. rewrite insert_app_r_alt by lia.
    replace (t - length l)%nat with 0%nat by lia.
    replace (n - t)%nat with (S (n - S t)) by lia.
    simpl. by rewrite <- app_assoc.
  - rewrite length_app, length_replicate. lia.
Qed.

Lemma take_next (l : list Z) (t : nat) (v : Z) (rest : list Z) :
  length l = t -> take t ((l ++ [v]) ++ rest) = l.
Proof. intros Hl. rewrite <- app_assoc. by rewrite take_app_length'. Qed.

Lemma lookup_next (l : list Z) (t : nat) (v : Z) (rest : list Z) :
  length l = t -> ((l ++ [v]) ++ rest) !! t = Some v.
Proof.
  intros Hl. rewrite <- app_assoc, lookup_app_r by lia.
  by replace (t - length l)%nat with 0%nat by lia.
Qed.

Lemma call_eq (m : module M W) (h : grid) (mem : option M) (s : state W) :
  call m h mem s =
  (Ok (strategy m h mem (world s)).1,
   State (strategy m h mem (world s)).2 (cache s)
     (EvStrategy (mod_name m) :: events s)).
Proof. unfold call. by destruct (strategy m h mem (world s)) as [r w]. Qed.

Lemma bind_lift_ok {A B} (a : A) (k : A -> eff W B) (s : state W) :
  (lift (Ok a) ≫= k) s = k a s.
Proof. reflexivity. Qed.

Lemma store_next0 (l r : list Z) (n t : nat) (v : Z) :
  length l = t -> (t < n)%nat -> int64 v = true ->
  store (Grid (l ++ replicate (n - t) 0) r) 0 t v
  = Ok (Grid ((l ++ [v]) ++ replicate (n - S t) 0) r).
Proof. intros. unfold store. cbn [row0 row1]. by rewrite row_store_next. Qed.

Lemma store_next1 (l r : list Z) (n t : nat) (v : Z) :
  length l = t -> (t < n)%nat -> int64 v = true ->
  store (Grid r (l ++ replicate (n - t) 0)) 1 t v
  = Ok (Grid r ((l ++ [v]) ++ replicate (n - S t) 0)).
Proof. intros. unfold store. cbn [row0 row1]. by rewrite row_store_next. Qed.

(** ** The first loop of runDeterministic against the play *)

Lemma calls_only_refl (s : state W) : calls_only s s.
Proof. split; [done|]. by exists []. Qed.

Lemma calls_only_trans (s1 s2 s3 : state W) :
  calls_only s1 s2 -> calls_only s2 s3 -> calls_only s1 s3.
Proof.
  intros (Hc1 & n1 & E1 & F1) (Hc2 & n2 & E2 & F2). split; [congruence|].
  exists (n2 ++ n1). split; [by rewrite E2, E1, app_assoc|]. by apply Forall_app.
Qed.

Lemma det_turn_step (mA mB : module M W) (st : det_state) (s : state W) (t n : nat) (ps : play_state) :
  returns_moves mA -> returns_moves mB ->
  (t < n)%nat ->
  det_inv n t st ps ->
  world s = p_world ps ->
  exists s',
    world s' = p_world (play_turn mA mB ps).2 /\
    calls_only s s' /\
    ((probes_agree (play_turn mA mB ps).1 /\
      exists st', runDeterministic_turn mA mB st t s = (Ok (Some st'), s') /\
                  det_inv n (S t) st' (play_turn mA mB ps).2) \/
     (~ probes_agree (play_turn mA mB ps).1 /\
      runDeterministic_turn mA mB st t s = (Ok None, s'))).
Proof.
  intros HA HB Ht (HlA & HlB & Hh & Hf & HmA & HmB & HmA2 & HmB2) Hw.
  unfold runDeterministic_turn, play_turn.
  rewrite Hh, Hf, HmA, HmB, HmA2, HmB2. unfold columns_before. cbn [row0 row1].
  rewrite !take_app_length' by done.
  rewrite (bind_ok _ _ _ _ _ (call_eq _ _ _ _)). cbn [world cache events]. rewrite Hw.
  pose proof (HA (Grid (p_movesA ps) (p_movesB ps)) (p_memoryA ps) (p_world ps)) as Hva.
  destruct (strategy mA _ (p_memoryA ps) (p_world ps)) as [[a memA] w1]. cbn [fst snd] in Hva |- *.
  rewrite (bind_ok _ _ _ _ _ (call_eq _ _ _ _)). cbn [world cache events].
  pose proof (HB (Grid (p_movesB ps) (p_movesA ps)) (p_memoryB ps) w1) as Hvb.
  destruct (strategy mB _ (p_memoryB ps) w1) as [[b memB] w2]. cbn [fst snd] in Hvb |- *.
  rewrite store_next0, bind_lift_ok by auto using move_int64.
  rewrite store_next1, bind_lift_ok by auto using move_int64.
  cbn [row0 row1]. rewrite !take_next by done.
  rewrite (bind_ok _ _ _ _ _ (call_eq _ _ _ _)). cbn [world cache events].
  destruct (strategy mA _ (p_memoryA2 ps) w2) as [[a2 memA2] w3]. cbn [fst snd].
  rewrite (bind_ok _ _ _ _ _ (call_eq _ _ _ _)). cbn [world cache events].
  destruct (strategy mB _ (p_memoryB2 ps) w3) as [[b2 memB2] w4]. cbn [fst snd].
  exists (State w4 (cache s)
            (EvStrategy (mod_name mB) :: EvStrategy (mod_name mA)
             :: EvStrategy (mod_name mB) :: EvStrategy (mod_name mA) :: events s)).
  split; [done|].
  split.
  { split; [done|].
    exists [EvStrategy (mod_name mB); EvStrategy (mod_name mA);
            EvStrategy (mod_name mB); EvStrategy (mod_name mA)].
    split; [done|]. by repeat constructor. }
  unfold probes_agree. cbn [official_A official_B probe_A probe_B].
  case_bool_decide as HdA.
  { right. split; [by intros [? ?]|]. reflexivity. }
  case_bool_decide as HdB.
  { right. split; [by intros [? ?]|]. reflexivity. }
  left. split; [done|].
  unfold cell. cbn [row0 row1]. rewrite !lookup_next by done.
  rewrite bind_lift_ok, store_next0, bind_lift_ok by auto using move_int64.
  rewrite bind_lift_ok, store_next1, bind_lift_ok by auto using move_int64.
  eexists. split; [reflexivity|].
  unfold det_inv. cbn. rewrite !length_app, HlA, HlB. cbn.
  repeat split; try done; lia.
Qed.

Lemma det_turns_loop (mA mB : module M W) (w0 : W) (n k t : nat)
    (st : det_state) (s : state W) :
  returns_moves mA -> returns_moves mB ->
  (t + k <= n)%nat ->
  det_inv n t st (play mA mB w0 t) ->
  world s = p_world (play mA mB w0 t) ->
  exists s',
    calls_only s s' /\
    (((forall i, (t <= i < t + k)%nat -> probes_agree (moves_at mA mB w0 i)) /\
      world s' = p_world (play mA mB w0 (t + k)) /\
      exists st',
        runDeterministic_turns mA mB (seq t k) st s = (Ok (Some st'), s') /\
        det_inv n (t + k) st' (play mA mB w0 (t + k))) \/
     ((exists i, (t <= i < t + k)%nat /\ ~ probes_agree (moves_at mA mB w0 i)) /\
      runDeterministic_turns mA mB (seq t k) st s = (Ok None, s'))).
Proof.
  intros HA HB. revert t st s.
  induction k as [|k IH]; intros t st s Hk Hinv Hw.
  - exists s. split; [apply calls_only_refl|]. left.
    rewrite Nat.add_0_r. split; [intros; lia|]. split; [done|]. by exists st.
  - destruct (det_turn_step mA mB st s t n _ HA HB ltac:(lia) Hinv Hw)
      as (s1 & Hw1 & Hc1 & [(Hag & st1 & Hrun & Hinv1) | (Hdis & Hrun)]).
    + destruct (IH (S t) st1 s1 ltac:(lia) Hinv1 Hw1)
        as (s' & Hc & [(Hall & Hw' & st' & Hrun' & Hinv') | ((i & Hi & Hdis) & Hrun')]).
      * exists s'. split; [by eapply calls_only_trans|]. left.
        replace (t + S k)%nat with (S t + k)%nat by lia.
        split; [|split; [done|]].
        -- intros i Hi. destruct (decide (i = t)) as [->|]; [done|]. apply Hall. lia.
        -- exists st'. split; [|done]. cbn [seq runDeterministic_turns].
           by rewrite (bind_ok _ _ _ _ _ Hrun).
      * exists s'. split; [by eapply calls_only_trans|]. right.
        split; [exists i; split; [lia|done]|].
        cbn [seq runDeterministic_turns]. by rewrite (bind_ok _ _ _ _ _ Hrun).
    + exists s1. split; [done|]. right.
      split; [exists t; split; [lia|done]|].
      cbn [seq runDeterministic_turns]. by rewrite (bind_ok _ _ _ _ _ Hrun).
Qed.

Lemma play_moves (mA mB : module M W) (w0 : W) (n : nat) :
  returns_moves mA -> returns_moves mB ->
  valid_grid (Grid (p_movesA (play mA mB w0 n)) (p_movesB (play mA mB w0 n))) /\
  length (p_movesA (play mA mB w0 n)) = n.
Proof.
  intros HA HB. induction n as [|n [(IHa & IHb & IHl) IHn]].
  - by repeat split.
  - cbn [play]. unfold play_turn. cbn [row0 row1] in *.
    pose proof (HA (Grid (p_movesA (play mA mB w0 n)) (p_movesB (play mA mB w0 n)))
                  (p_memoryA (play mA mB w0 n)) (p_world (play mA mB w0 n))) as Hva.
    destruct (strategy mA _ _ _) as [[a memA] w1]. cbn [fst snd] in Hva.
    pose proof (HB (Grid (p_movesB (play mA mB w0 n)) (p_movesA (play mA mB w0 n)))
                  (p_memoryB (play mA mB w0 n)) w1) as Hvb.
    destruct (strategy mB _ _ _) as [[b memB] w2]. cbn [fst snd] in Hvb.
    destruct (strategy mA _ _ _) as [[a2 memA2] w3].
    destruct (strategy mB _ _ _) as [[b2 memB2] w4].
    unfold valid_grid. cbn. rewrite !length_app. cbn.
    repeat split; try lia; apply Forall_app; split; try done; by constructor.
Qed.

Lemma points_move (a b : Z) : is_move a -> is_move b -> exists v, points a b = Ok v.
Proof. intros [-> | ->] [-> | ->]; by eexists. Qed.

Lemma cell_valid (h : grid) (p k : nat) :
  valid_grid h -> (p < 2)%nat -> (k < width h)%nat ->
  exists v, cell h p k = Ok v /\ is_move v.
Proof.
  intros (H0 & H1 & Hl) Hp Hk. unfold cell, width in *.
  destruct p as [|[|p]]; [| |lia].
  - destruct (lookup_lt_is_Some_2 (row0 h) k Hk) as [v Hv]. rewrite Hv.
    exists v. split; [done|]. exact (Forall_lookup_1 _ _ _ _ H0 Hv).
  - destruct (lookup_lt_is_Some_2 (row1 h) k ltac:(lia)) as [v Hv]. rewrite Hv.
    exists v. split; [done|]. exact (Forall_lookup_1 _ _ _ _ H1 Hv).
Qed.

Lemma add_points_ok (h : grid) (scores : Z * Z) (k : nat) :
  valid_grid h -> (k < width h)%nat -> exists scores', add_points h scores k = Ok scores'.
Proof.
  intros Hv Hk. unfold add_points.
  destruct (cell_valid h 0 k Hv ltac:(lia) Hk) as (a & -> & Ha).
  destruct (cell_valid h 1 k Hv ltac:(lia) Hk) as (b & -> & Hb).
  destruct (points_move a b Ha Hb) as [pA EA].
  destruct (points_move b a Hb Ha) as [pB EB].
  cbn. rewrite EA. cbn. rewrite EB. cbn. by eexists.
Qed.

Lemma add_points_loop_ok (h : grid) (n a : nat) (scores : Z * Z) :
  valid_grid h -> (a + n <= width h)%nat ->
  exists scores', for_each (add_points h) (seq a n) scores = Ok scores'.
Proof.
  intros Hv. revert a scores. induction n as [|n IH]; intros a scores Hn.
  - by eexists.
  - destruct (add_points_ok h scores a Hv ltac:(lia)) as [sc E].
    cbn [seq for_each]. rewrite E. cbn. apply IH. lia.
Qed.

Lemma turnChances_index_ok (t : nat) :
  (199 <= t < DETERMINISTIC_TURNS)%nat ->
  exists chance, py_index (turnChances DETERMINISTIC_TURNS) (Z.of_nat t - 199) = Ok chance.
Proof.
  intros Ht. unfold py_index.
  assert (Hlen : length (turnChances DETERMINISTIC_TURNS) = (DETERMINISTIC_TURNS - 199)%nat).
  { unfold turnChances. by rewrite length_map, turnChances0_length. }
  replace (Z.of_nat t - 199 <? 0) with false by (symmetry; apply Z.ltb_ge; lia).
  rewrite Hlen.
  replace (_ && _) with true
    by (symmetry; apply andb_true_intro; split; [apply Z.leb_le | apply Z.ltb_lt]; lia).
  destruct (lookup_lt_is_Some_2 (turnChances DETERMINISTIC_TURNS)
              (Z.to_nat (Z.of_nat t - 199)) ltac:(lia)) as [c ->].
  by eexists.
Qed.

Lemma add_weighted_ok (h : grid) (a : nat) (acc : (Z * Z) * (Qc * Qc)) :
  valid_grid h -> (a < width h)%nat -> (199 <= a < DETERMINISTIC_TURNS)%nat ->
  exists acc', add_weighted h acc a = Ok acc'.
Proof.
  intros Hv Ha Hd. destruct acc as [scores totals]. unfold add_weighted.
  destruct (add_points_ok h scores a Hv Ha) as [sc ->].
  destruct (turnChances_index_ok a Hd) as [c ->].
  by eexists.
Qed.

Lemma add_weighted_loop_ok (h : grid) (n a : nat) (acc : (Z * Z) * (Qc * Qc)) :
  valid_grid h -> (a + n <= width h)%nat ->
  (199 <= a)%nat -> (a + n <= DETERMINISTIC_TURNS)%nat ->
  exists acc', for_each (add_weighted h) (seq a n) acc = Ok acc'.
Proof.
  intros Hv. revert a acc. induction n as [|n IH]; intros a [scores totals] Hn Ha Hd.
  - by eexists.
  - destruct (add_weighted_ok h a (scores, totals) Hv ltac:(lia) ltac:(lia)) as [acc E].
    cbn [seq for_each]. rewrite E. cbn. apply IH; lia.
Qed.

Lemma runDeterministic_totals_ok (h : grid) :
  valid_grid h -> width h = DETERMINISTIC_TURNS -> (199 <= DETERMINISTIC_TURNS)%nat ->
  runDeterministic_totals h = Ok (expected_average h 0, expected_average h 1).
Proof.
  intros Hv Hw Hd.
  assert (exists totals, runDeterministic_totals h = Ok totals) as [totals E].
  { unfold runDeterministic_totals, range.
    destruct (add_points_loop_ok h (199 - 0) 0 (0, 0) Hv ltac:(lia)) as [sc ->]. cbn.
    destruct (add_weighted_loop_ok h (DETERMINISTIC_TURNS - 199) 199 (sc, (0%Qc, 0%Qc)) Hv
                ltac:(lia) ltac:(lia) ltac:(lia)) as [acc ->].
    by eexists. }
  rewrite E. f_equal. by apply runDeterministic_totals_closed.
Qed.

(** [runDeterministic], as a whole, against the play. *)
Lemma runDeterministic_play (mA mB : module M W) (s : state W) :
  returns_moves mA -> returns_moves mB ->
  (199 <= DETERMINISTIC_TURNS)%nat ->
  let final := play mA mB (world s) DETERMINISTIC_TURNS in
  let h := Grid (p_movesA final) (p_movesB final) in
  exists s',
    calls_only (State (world s) (cache s) (EvRunDeterministic :: events s)) s' /\
    (((forall t, (t < DETERMINISTIC_TURNS)%nat -> probes_agree (moves_at mA mB (world s) t)) /\
      runDeterministic mA mB s
      = (Ok (DetTotals (expected_average h 0, expected_average h 1) h), s')) \/
     ((exists t, (t < DETERMINISTIC_TURNS)%nat /\ ~ probes_agree (moves_at mA mB (world s) t)) /\
      runDeterministic mA mB s = (Ok DetFalse, s'))).
Proof.
  intros HA HB Hd final h. unfold runDeterministic.
  set (s0 := State (world s) (cache s) (EvRunDeterministic :: events s)).
  assert (E0 : log EvRunDeterministic s = (Ok tt, s0)) by done.
  rewrite (bind_ok _ _ _ _ _ E0).
  destruct (det_turns_loop mA mB (world s) DETERMINISTIC_TURNS DETERMINISTIC_TURNS 0
              (DetState (np_zeros DETERMINISTIC_TURNS) (np_zeros DETERMINISTIC_TURNS)
                 None None None None) s0 HA HB ltac:(lia))
    as (s' & Hc & [(Hall & Hw' & st' & Hrun & Hinv) | ((i & Hi & Hdis) & Hrun)]).
  { unfold det_inv, np_zeros. cbn. by rewrite Nat.sub_0_r. }
  { done. }
  - exists s'. split; [done|]. left.
    split; [intros t Ht; apply Hall; lia|].
    unfold range. rewrite Nat.sub_0_r, (bind_ok _ _ _ _ _ Hrun).
    destruct Hinv as (_ & _ & Hh & _). cbn [Nat.add] in Hh.
    rewrite Nat.sub_diag in Hh. cbn [replicate] in Hh. rewrite !app_nil_r in Hh.
    rewrite Hh. fold final. fold h.
    destruct (play_moves mA mB (world s) DETERMINISTIC_TURNS HA HB) as [Hv Hl].
    fold final in Hv, Hl. fold h in Hv.
    by rewrite (runDeterministic_totals_ok h Hv Hl Hd).
  - exists s'. split; [done|]. right.
    split; [exists i; split; [lia|done]|].
    unfold range. by rewrite Nat.sub_0_r, (bind_ok _ _ _ _ _ Hrun).
Qed.

(** ** Pairs that always make the same move *)

Lemma sumQc_cons (f : nat -> Qc) (x : nat) (l : list nat) :
  sumQc f (x :: l) = (f x + sumQc f l)%Qc.
Proof. reflexivity. Qed.

Lemma sumQc_ext (f g : nat -> Qc) (l : list nat) :
  (forall t, t ∈ l -> f t = g t) -> sumQc f l = sumQc g l.
Proof.
  induction l as [|x l IH]; intros H; [done|].
  rewrite !sumQc_cons, (H x), IH; [done| |by left]. intros t Ht. apply H. by right.
Qed.

Lemma sumQc_scale (c : Qc) (f : nat -> Qc) (l : list nat) :
  sumQc (fun t => (c * f t)%Qc) l = (c * sumQc f l)%Qc.
Proof.
  induction l as [|x l IH]; [cbn; ring|]. rewrite !sumQc_cons, IH. ring.
Qed.

Lemma sumQc_nth (l : list Qc) (a : nat) :
  sumQc (fun t => nth (t - a) l 0%Qc) (seq a (length l)) = py_sum l.
Proof.
  revert a. induction l as [|x l IH]; intros a; cbn [length seq].
  - done.
  - rewrite sumQc_cons, py_sum_cons, Nat.sub_diag. cbn [nth]. f_equal.
    rewrite <- (IH (S a)). apply sumQc_ext. intros t Ht.
    apply elem_of_seq in Ht.
    replace (t - a)%nat with (S (t - S a)) by lia. done.
Qed.

Lemma stop_chance_total :
  (200 <= DETERMINISTIC_TURNS)%nat ->
  sumQc stop_chance (range 199 DETERMINISTIC_TURNS) = 1%Qc.
Proof.
  intros Hd. unfold stop_chance, range.
  replace (DETERMINISTIC_TURNS - 199)%nat with (length (turnChances DETERMINISTIC_TURNS)).
  - rewrite sumQc_nth. by apply turnChances_total.
  - unfold turnChances. by rewrite length_map, turnChances0_length.
Qed.

Lemma cumulative_payoff_constant (h : grid) (p : nat) (c : Z) (t : nat) :
  (forall k, (k <= t)%nat -> turn_payoff h p k = c) ->
  cumulative_payoff h p t = c * (Z.of_nat t + 1).
Proof.
  induction t as [|t IH]; intros H.
  - unfold cumulative_payoff, range. cbn. rewrite (H 0%nat) by lia. lia.
  - rewrite cumulative_payoff_S, IH, (H (S t)) by (try done; intros; apply H; lia). lia.
Qed.

Lemma expected_average_constant (h : grid) (p : nat) (c : Z) :
  (200 <= DETERMINISTIC_TURNS)%nat ->
  (forall k, (k < DETERMINISTIC_TURNS)%nat -> turn_payoff h p k = c) ->
  expected_average h p = Qc_of_Z c.
Proof.
  intros Hd H. unfold expected_average.
  rewrite (sumQc_ext _ (fun t => (Qc_of_Z c * stop_chance t)%Qc)).
  - rewrite sumQc_scale, stop_chance_total by done. ring.
  - intros t Ht. apply elem_of_seq in Ht.
    rewrite (cumulative_payoff_constant h p c) by (intros; apply H; lia).
    rewrite Z2Qc_inj_mul. field.
    rewrite <- Z2Qc_inj_0. intros E. apply Z2Qc_inj in E. lia.
Qed.

(** The play of two strategies whose moves always normalise to [a] and
    [b]. *)
Lemma play_constant (mA mB : module M W) (a b : Z) (w0 : W) (n : nat) :
  (forall h mem w, strategyMove (strategy mA h mem w).1.1 = a) ->
  (forall h mem w, strategyMove (strategy mB h mem w).1.1 = b) ->
  p_movesA (play mA mB w0 n) = replicate n a /\
  p_movesB (play mA mB w0 n) = replicate n b /\
  probes_agree (moves_at mA mB w0 n).
Proof.
  intros HA HB.
  assert (Hturn : forall ps,
             probes_agree (play_turn mA mB ps).1 /\
             p_movesA (play_turn mA mB ps).2 = p_movesA ps ++ [a] /\
             p_movesB (play_turn mA mB ps).2 = p_movesB ps ++ [b]).
  { intros ps. unfold play_turn.
    pose proof (HA (Grid (p_movesA ps) (p_movesB ps)) (p_memoryA ps) (p_world ps)) as Ea.
    destruct (strategy mA _ (p_memoryA ps) _) as [[va memA] w1]. cbn [fst snd] in Ea.
    pose proof (HB (Grid (p_movesB ps) (p_movesA ps)) (p_memoryB ps) w1) as Eb.
    destruct (strategy mB _ (p_memoryB ps) _) as [[vb memB] w2]. cbn [fst snd] in Eb.
    pose proof (HA (Grid (p_movesA ps) (p_movesB ps)) (p_memoryA2 ps) w2) as Ea2.
    destruct (strategy mA _ (p_memoryA2 ps) _) as [[va2 memA2] w3]. cbn [fst snd] in Ea2.
    pose proof (HB (Grid (p_movesB ps) (p_movesA ps)) (p_memoryB2 ps) w3) as Eb2.
    destruct (strategy mB _ (p_memoryB2 ps) _) as [[vb2 memB2] w4]. cbn [fst snd] in Eb2.
    unfold probes_agree. cbn. by rewrite Ea, Eb, Ea2, Eb2. }
  unfold moves_at. split; [|split; [|apply Hturn]].
  - induction n as [|n IH]; [done|]. cbn [play].
    destruct (Hturn (play mA mB w0 n)) as (_ & -> & _). rewrite IH.
    by rewrite <- replicate_S_end.
  - induction n as [|n IH]; [done|]. cbn [play].
    destruct (Hturn (play mA mB w0 n)) as (_ & _ & ->). rewrite IH.
    by rewrite <- replicate_S_end.
Qed.

Lemma nth_replicate_lt (n k : nat) (x d : Z) :
  (k < n)%nat -> nth k (replicate n x) d = x.
Proof. intros Hk. apply nth_lookup_Some. by apply lookup_replicate_2. Qed.

Lemma runDeterministic_constant (mA mB : module M W) (a b : Z) (s : state W) :
  is_move a -> is_move b ->
  (200 <= DETERMINISTIC_TURNS)%nat ->
  (forall h mem w, strategyMove (strategy mA h mem w).1.1 = a) ->
  (forall h mem w, strategyMove (strategy mB h mem w).1.1 = b) ->
  (runDeterministic mA mB s).1
  = Ok (DetTotals (Qc_of_Z (payoff a b), Qc_of_Z (payoff b a))
          (Grid (replicate DETERMINISTIC_TURNS a) (replicate DETERMINISTIC_TURNS b))).
Proof.
  intros Ha Hb Hd HA HB.
  assert (HvA : returns_moves mA) by (intros h mem w; by rewrite HA).
  assert (HvB : returns_moves mB) by (intros h mem w; by rewrite HB).
  destruct (runDeterministic_play mA mB s HvA HvB ltac:(lia))
    as (s' & _ & [(_ & ->) | ((t & _ & Hdis) & _)]).
  - destruct (play_constant mA mB a b (world s) DETERMINISTIC_TURNS HA HB) as (-> & -> & _).
    cbn [fst]. f_equal. f_equal. f_equal.
    + apply expected_average_constant; [done|]. intros k Hk.
      unfold turn_payoff. cbn [row0 row1].
      by rewrite !nth_replicate_lt by done.
    + apply expected_average_constant; [done|]. intros k Hk.
      unfold turn_payoff. cbn [row0 row1].
      by rewrite !nth_replicate_lt by done.
  - destruct Hdis. apply (play_constant mA mB a b (world s) t HA HB).
Qed.

(** C1: when [runDeterministic] classifies a pair deterministic, the score it
    returns for each player is the sum, over the stopping turns t = 199 ..
    DETERMINISTIC_TURNS - 1, of (the player's payoff summed over the turns
    0 .. t) / (t + 1) times the table's chance of stopping at t.  The turns
    before 199 enter every cumulative payoff and are never stopping turns. *)
Theorem runDeterministic_expectation (moduleA moduleB : module M W)
    (s s' : state W) (totals : Qc * Qc) (h : grid) :
  runDeterministic moduleA moduleB s = (Ok (DetTotals totals h), s') ->
  totals.1 =
    sumQc (fun t =>
             (Qc_of_Z (sumZ (turn_payoff h 0) (range 0 (S t)))
              / Qc_of_Z (Z.of_nat t + 1)
              * nth (t - 199) (turnChances DETERMINISTIC_TURNS) 0)%Qc)
      (range 199 DETERMINISTIC_TURNS) /\
  totals.2 =
    sumQc (fun t =>
             (Qc_of_Z (sumZ (turn_payoff h 1) (range 0 (S t)))
              / Qc_of_Z (Z.of_nat t + 1)
              * nth (t - 199) (turnChances DETERMINISTIC_TURNS) 0)%Qc)
      (range 199 DETERMINISTIC_TURNS) /\
  totals = (expected_average h 0, expected_average h 1).
Proof.
  unfold runDeterministic. unfold mbind at 1. unfold eff_bind. cbn [log].
  unfold mbind at 1. unfold eff_bind.
  destruct (runDeterministic_turns _ _ _ _ _) as [[[st|]|e] s1]; [| |done].
  - unfold mbind, eff_bind, lift.
    destruct (runDeterministic_totals (d_history st)) as [tot|] eqn:E; [|done].
    intros [= <- <- <-]. apply runDeterministic_totals_closed in E.
    rewrite E. done.
  - done.
Qed.

(** ** The scoring loops in binary64 *)

Lemma points_payoff (a b : Z) : is_move a -> is_move b -> points a b = Ok (payoff a b).
Proof. by intros [-> | ->] [-> | ->]. Qed.

Lemma add_points_replicate (n : nat) (a b : Z) (scores : Z * Z) (turn : nat) :
  is_move a -> is_move b -> (turn < n)%nat ->
  Binary64.add_points (Grid (replicate n a) (replicate n b)) scores turn
  = Ok (scores.1 + payoff a b, scores.2 + payoff b a).
Proof.
  intros Ha Hb Ht. unfold Binary64.add_points, cell. cbn [row0 row1].
  rewrite !lookup_replicate_2 by done. cbn [mbind result_bind].
  rewrite !points_payoff by done. reflexivity.
Qed.

Lemma add_points_replicate_loop (n : nat) (a b : Z) (k t0 : nat) :
  is_move a -> is_move b -> (t0 + k <= n)%nat ->
  for_each (Binary64.add_points (Grid (replicate n a) (replicate n b))) (seq t0 k)
    (payoff a b * Z.of_nat t0, payoff b a * Z.of_nat t0)
  = Ok (payoff a b * Z.of_nat (t0 + k), payoff b a * Z.of_nat (t0 + k)).
Proof.
  intros Ha Hb. revert t0. induction k as [|k IH]; intros t0 Hk.
  - cbn. by rewrite Nat.add_0_r.
  - cbn [seq for_each]. rewrite add_points_replicate by (done || lia).
    cbn [mbind result_bind fst snd].
    replace (payoff a b * Z.of_nat t0 + payoff a b) with (payoff a b * Z.of_nat (S t0)) by lia.
    replace (payoff b a * Z.of_nat t0 + payoff b a) with (payoff b a * Z.of_nat (S t0)) by lia.
    rewrite IH by lia. by replace (S t0 + k)%nat with (t0 + S k)%nat by lia.
Qed.

Lemma py_index_lookup {A} (l : list A) (i : nat) (x : A) :
  l !! i = Some x -> py_index l (Z.of_nat i) = Ok x.
Proof.
  intros E. pose proof (lookup_lt_Some _ _ _ E) as Hi. unfold py_index.
  replace (Z.of_nat i <? 0) with false by (symmetry; apply Z.ltb_ge; lia).
  replace (0 <=? Z.of_nat i) with true by (symmetry; apply Z.leb_le; lia).
  replace (Z.of_nat i <? Z.of_nat (length l)) with true by (symmetry; apply Z.ltb_lt; lia).
  cbn [andb]. by rewrite Nat2Z.id, E.
Qed.

Lemma add_weighted_replicate (n : nat) (a b : Z) (table : list PrimFloat.float)
    (scores : Z * Z) (totals : PrimFloat.float * PrimFloat.float)
    (turn : nat) (chance : PrimFloat.float) :
  is_move a -> is_move b -> (199 <= turn < n)%nat ->
  table !! (turn - 199)%nat = Some chance ->
  Binary64.add_weighted table (Grid (replicate n a) (replicate n b))
    (scores, totals) turn
  = Ok ((scores.1 + payoff a b, scores.2 + payoff b a),
        (PrimFloat.add totals.1
           (PrimFloat.mul
              (PrimFloat.div (Binary64.of_int (scores.1 + payoff a b))
                 (Binary64.of_int (Z.of_nat turn + 1))) chance),
         PrimFloat.add totals.2
           (PrimFloat.mul
              (PrimFloat.div (Binary64.of_int (scores.2 + payoff b a))
                 (Binary64.of_int (Z.of_nat turn + 1))) chance))).
Proof.
  intros Ha Hb Ht Hc. unfold Binary64.add_weighted.
  rewrite add_points_replicate by (done || lia).
  cbn [mbind result_bind].
  replace (Z.of_nat turn - 199) with (Z.of_nat (turn - 199)) by lia.
  by rewrite (py_index_lookup _ _ _ Hc).
Qed.

Lemma add_weighted_replicate_loop (n : nat) (a b : Z) (table rest : list PrimFloat.float)
    (t0 : nat) (totals : PrimFloat.float * PrimFloat.float) :
  is_move a -> is_move b ->
  (199 <= t0)%nat -> (t0 + length rest <= n)%nat ->
  drop (t0 - 199) table = rest ->
  for_each (Binary64.add_weighted table (Grid (replicate n a) (replicate n b)))
    (seq t0 (length rest))
    ((payoff a b * Z.of_nat t0, payoff b a * Z.of_nat t0), totals)
  = Ok ((payoff a b * Z.of_nat (t0 + length rest),
         payoff b a * Z.of_nat (t0 + length rest)),
        (Binary64.weighted_sum (payoff a b) rest (Z.of_nat t0) totals.1,
         Binary64.weighted_sum (payoff b a) rest (Z.of_nat t0) totals.2)).
Proof.
  intros Ha Hb. revert t0 totals.
  induction rest as [|chance rest IH]; intros t0 totals Ht Hn Hdrop.
  - cbn. rewrite Nat.add_0_r. by destruct totals.
  - cbn [length seq for_each]. cbn [length] in Hn.
    assert (Hc : table !! (t0 - 199)%nat = Some chance).
    { rewrite <- (Nat.add_0_r (t0 - 199)), <- lookup_drop, Hdrop. done. }
    assert (Hr : drop (S t0 - 199) table = rest).
    { replace (S t0 - 199)%nat with (1 + (t0 - 199))%nat by lia.
      rewrite Nat.add_comm, <- drop_drop, Hdrop. done. }
    rewrite (add_weighted_replicate n a b table _ _ t0 chance) by (done || lia).
    cbn [mbind result_bind fst snd].
    replace (payoff a b * Z.of_nat t0 + payoff a b) with (payoff a b * Z.of_nat (S t0)) by lia.
    replace (payoff b a * Z.of_nat t0 + payoff b a) with (payoff b a * Z.of_nat (S t0)) by lia.
    rewrite IH by (done || lia). cbn [fst snd Binary64.weighted_sum].
    replace (t0 + S (length rest))%nat with (S t0 + length rest)%nat by lia.
    replace (Z.of_nat t0 + 1) with (Z.of_nat (S t0)) by lia.
    reflexivity.
Qed.

Lemma turnChances_binary64_length (kind : Binary64.summation) (n : nat) :
  length (Binary64.turnChances kind n) = (n - 199)%nat.
Proof.
  unfold Binary64.turnChances, Binary64.turnChances0, range.
  cbv zeta. rewrite !length_map, length_seq. lia.
Qed.

(** On a history where both players repeat one move the loops add up the
    table against a constant. *)
Lemma runDeterministic_totals_replicate (kind : Binary64.summation) (n : nat)
    (a b : Z) :
  is_move a -> is_move b -> (199 <= n)%nat ->
  Binary64.runDeterministic_totals kind n (Grid (replicate n a) (replicate n b))
  = Ok (Binary64.weighted_sum (payoff a b) (Binary64.turnChances kind n) 199
          (Binary64.of_int 0),
        Binary64.weighted_sum (payoff b a) (Binary64.turnChances kind n) 199
          (Binary64.of_int 0)).
Proof.
  intros Ha Hb Hn. unfold Binary64.runDeterministic_totals. cbv zeta.
  unfold range. rewrite Nat.sub_0_r.
  pose proof (add_points_replicate_loop n a b 199 0 Ha Hb ltac:(lia)) as E.
  change (Z.of_nat 0) with 0 in E. rewrite !Z.mul_0_r in E.
  change (0 + 199)%nat with 199%nat in E. rewrite E. cbn [mbind result_bind].
  pose proof (add_weighted_replicate_loop n a b (Binary64.turnChances kind n)
                (Binary64.turnChances kind n) 199
                (Binary64.of_int 0, Binary64.of_int 0) Ha Hb ltac:(lia)) as L.
  rewrite turnChances_binary64_length in L.
  rewrite L by (lia || done). reflexivity.
Qed.

Lemma scores_close_unfold (kind : Binary64.summation) (N : nat) :
  Binary64.scores_close kind N
  = Binary64.for_turn_counts kind N
      (fun table =>
         Binary64.within (Binary64.pow2_neg 45)
           (Binary64.weighted_sum 3 table 199 (Binary64.of_int 0)) (Binary64.of_int 3) &&
         Binary64.within (Binary64.pow2_neg 48)
           (Binary64.weighted_sum 1 table 199 (Binary64.of_int 0)) (Binary64.of_int 1)).
Proof. reflexivity. Qed.

Lemma scores_close_1198 (kind : Binary64.summation) :
  Binary64.scores_close kind 1198 = true.
Proof. destruct kind; vm_compute; reflexivity. Qed.

Lemma weighted_sum_close (kind : Binary64.summation) (n : nat) :
  (200 <= n <= 1198)%nat ->
  Binary64.within (Binary64.pow2_neg 45)
    (Binary64.weighted_sum 3 (Binary64.turnChances kind n) 199 (Binary64.of_int 0))
    (Binary64.of_int 3) = true /\
  Binary64.within (Binary64.pow2_neg 48)
    (Binary64.weighted_sum 1 (Binary64.turnChances kind n) 199 (Binary64.of_int 0))
    (Binary64.of_int 1) = true.
Proof.
  intros Hn. pose proof (scores_close_1198 kind) as H.
  rewrite scores_close_unfold in H.
  apply for_turn_counts_true with (n := n) in H; [|exact Hn].
  by apply andb_prop in H.
Qed.

(** C2: two strategies that both always cooperate get exactly 3 each from
    the exact-expectation path when its sums are taken over the rationals,
    and two that both always defect get exactly 1 each.  In the binary64
    arithmetic of the program the two players still get the same number, and
    for every turn count the default recursion limit allows (up to 1198),
    with either summation of the builtin [sum], it lies within 2^-45 of 3
    and within 2^-48 of 1. *)
Theorem runDeterministic_unanimous (kind : Binary64.summation)
    (moduleA moduleB : module M W) (s : state W) :
  (200 <= DETERMINISTIC_TURNS)%nat ->
  ((forall h mem w, strategyMove (strategy moduleA h mem w).1.1 = 1) ->
   (forall h mem w, strategyMove (strategy moduleB h mem w).1.1 = 1) ->
   exists h,
     (runDeterministic moduleA moduleB s).1
       = Ok (DetTotals (Qc_of_Z 3, Qc_of_Z 3) h) /\
     ((DETERMINISTIC_TURNS <= 1198)%nat ->
      exists x,
        Binary64.runDeterministic_totals kind DETERMINISTIC_TURNS h = Ok (x, x) /\
        Binary64.within (Binary64.pow2_neg 45) x (Binary64.of_int 3) = true)) /\
  ((forall h mem w, strategyMove (strategy moduleA h mem w).1.1 = 0) ->
   (forall h mem w, strategyMove (strategy moduleB h mem w).1.1 = 0) ->
   exists h,
     (runDeterministic moduleA moduleB s).1
       = Ok (DetTotals (Qc_of_Z 1, Qc_of_Z 1) h) /\
     ((DETERMINISTIC_TURNS <= 1198)%nat ->
      exists x,
        Binary64.runDeterministic_totals kind DETERMINISTIC_TURNS h = Ok (x, x) /\
        Binary64.within (Binary64.pow2_neg 48) x (Binary64.of_int 1) = true)).
Proof.
  intros Hd. split; intros HA HB; eexists.
  - split.
    + by rewrite (runDeterministic_constant moduleA moduleB 1 1 s
                    ltac:(by right) ltac:(by right) Hd HA HB).
    + intros Hmax. eexists. split.
      * apply runDeterministic_totals_replicate; [by right | by right | lia].
      * apply weighted_sum_close. lia.
  - split.
    + by rewrite (runDeterministic_constant moduleA moduleB 0 0 s
                    ltac:(by left) ltac:(by left) Hd HA HB).
    + intros Hmax. eexists. split.
      * apply runDeterministic_totals_replicate; [by left | by left | lia].
      * apply weighted_sum_close. lia.
Qed.

(** ** Game length *)

Lemma LENGTH_OF_GAME_min (u : R) : (0 <= u < 1)%R -> 200 <= LENGTH_OF_GAME u.
Proof.
  intros [H0 H1]. unfold LENGTH_OF_GAME, py_int.
  assert (Hln : (ln (1 - u) <= 0)%R).
  { destruct (Req_dec u 0) as [-> | Hu].
    - rewrite Rminus_0_r, ln_1. lra.
    - rewrite <- ln_1. apply Rlt_le, ln_increasing; lra. }
  set (x := (200 - 40 * ln (1 - u))%R).
  assert (Hx : (200 <= x)%R) by (unfold x; lra).
  destruct (Rle_dec 0 x) as [_|Hn]; [|lra].
  unfold Int_part. destruct (archimed x) as [Hup _].
  assert (200 < up x); [|lia].
  apply lt_IZR. lra.
Qed.

(** ** runRound *)

Lemma store_valid (g : grid) (p t : nat) (v : Z) :
  valid_grid g -> (p < 2)%nat -> (t < width g)%nat -> is_move v ->
  exists g', store g p t v = Ok g' /\ valid_grid g' /\ width g' = width g.
Proof.
  intros (H0 & H1 & Hl) Hp Ht Hv. unfold store, row_store, width in *.
  rewrite (move_int64 v Hv).
  destruct p as [|[|p]]; [| |lia].
  - rewrite bool_decide_eq_true_2 by done. eexists. split; [reflexivity|].
    unfold valid_grid. cbn. rewrite length_insert.
    split; [|done]. split; [|done]. by apply Forall_insert.
  - rewrite bool_decide_eq_true_2 by lia. eexists. split; [reflexivity|].
    unfold valid_grid. cbn. rewrite length_insert.
    split; [|done]. split; [done|]. split; [|done]. by apply Forall_insert.
Qed.

Lemma runRound_turn_ok (mA mB : module M W) (T turn : nat)
    (st : round_state) (s : state W) :
  returns_moves mA -> returns_moves mB ->
  (turn < T)%nat -> round_inv T st ->
  exists st' s',
    runRound_turn mA mB st turn s = (Ok st', s') /\ round_inv T st' /\
    calls_only s s'.
Proof.
  intros HA HB Ht (Hh & Hwh & Hf & Hwf). unfold runRound_turn.
  rewrite (bind_ok _ _ _ _ _ (call_eq _ _ _ _)). cbn [world cache events].
  pose proof (HA (columns_before (history st) turn) (memoryA st) (world s)) as Hva.
  destruct (strategy mA _ _ _) as [[a memA] w1]. cbn [fst snd] in Hva |- *.
  rewrite (bind_ok _ _ _ _ _ (call_eq _ _ _ _)). cbn [world cache events].
  pose proof (HB (columns_before (historyFlipped st) turn) (memoryB st) w1) as Hvb.
  destruct (strategy mB _ _ _) as [[b memB] w2]. cbn [fst snd] in Hvb |- *.
  destruct (store_valid (history st) 0 turn _ Hh ltac:(lia) ltac:(lia) Hva)
    as (h1 & -> & Hh1 & Hw1).
  rewrite bind_lift_ok.
  destruct (store_valid h1 1 turn _ Hh1 ltac:(lia) ltac:(lia) Hvb)
    as (h2 & -> & Hh2 & Hw2).
  rewrite bind_lift_ok.
  destruct (cell_valid h2 1 turn Hh2 ltac:(lia) ltac:(lia)) as (vb & -> & Hmb).
  rewrite bind_lift_ok.
  destruct (store_valid (historyFlipped st) 0 turn _ Hf ltac:(lia) ltac:(lia) Hmb)
    as (f1 & -> & Hf1 & Hwf1).
  rewrite bind_lift_ok.
  destruct (cell_valid h2 0 turn Hh2 ltac:(lia) ltac:(lia)) as (va & -> & Hma).
  rewrite bind_lift_ok.
  destruct (store_valid f1 1 turn _ Hf1 ltac:(lia) ltac:(lia) Hma)
    as (f2 & -> & Hf2 & Hwf2).
  rewrite bind_lift_ok.
  eexists _, _. split; [reflexivity|].
  unfold round_inv. cbn [history historyFlipped].
  split; [|split; [done|]; exists [EvStrategy (mod_name mB); EvStrategy (mod_name mA)];
           split; [done|]; by repeat constructor].
  split; [done|]. split; [congruence|]. split; [done|]. congruence.
Qed.

Lemma runRound_turns_ok (mA mB : module M W) (T n a : nat)
    (st : round_state) (s : state W) :
  returns_moves mA -> returns_moves mB ->
  (a + n <= T)%nat -> round_inv T st ->
  exists st' s',
    for_each (runRound_turn mA mB) (seq a n) st s = (Ok st', s') /\ round_inv T st' /\
    calls_only s s'.
Proof.
  intros HA HB. revert a st s. induction n as [|n IH]; intros a st s Hn Hinv.
  - exists st, s. split; [done|]. split; [done|]. apply calls_only_refl.
  - destruct (runRound_turn_ok mA mB T a st s HA HB ltac:(lia) Hinv)
      as (st1 & s1 & E & Hinv1 & Hc1).
    destruct (IH (S a) st1 s1 ltac:(lia) Hinv1) as (st' & s' & E' & Hinv' & Hc').
    exists st', s'. cbn [seq for_each]. rewrite (bind_ok _ _ _ _ _ E).
    split; [done|]. split; [done|]. by eapply calls_only_trans.
Qed.

Lemma np_zeros_valid (T : nat) : valid_grid (np_zeros T) /\ width (np_zeros T) = T.
Proof.
  unfold valid_grid, np_zeros, width. cbn. rewrite length_replicate.
  repeat split; try done; apply Forall_replicate; by left.
Qed.

Lemma log_eq (ev : event) (s : state W) :
  log ev s = (Ok tt, State (world s) (cache s) (ev :: events s)).
Proof. reflexivity. Qed.

Lemma draw_eq (s : state W) :
  draw s = (Ok (random_random (world s)).1,
            State (random_random (world s)).2 (cache s) (EvDraw :: events s)).
Proof. unfold draw. by destruct (random_random (world s)). Qed.

Lemma clock_eq (s : state W) :
  clock s = (Ok (time_time (world s)).1,
             State (time_time (world s)).2 (cache s) (events s)).
Proof. unfold clock. by destruct (time_time (world s)). Qed.

Section Rounds.
Hypothesis random_unit : forall w, (0 <= (random_random w).1 < 1)%R.

Lemma runRound_play_ok (mA mB : module M W) (s : state W) :
  returns_moves mA -> returns_moves mB ->
  exists st s',
    runRound_play mA mB s = (Ok st, s') /\
    round_inv (Z.to_nat (LENGTH_OF_GAME (random_random (world s)).1)) st /\
    calls_only (State (random_random (world s)).2 (cache s)
                  (EvDraw :: EvRunRound :: events s)) s'.
Proof.
  intros HA HB. unfold runRound_play.
  rewrite (bind_ok _ _ _ _ _ (log_eq _ _)), (bind_ok _ _ _ _ _ (draw_eq _)).
  cbn [world cache events].
  pose proof (LENGTH_OF_GAME_min _ (random_unit (world s))) as HL.
  destruct (random_random (world s)) as [u w1]. cbn [fst snd] in HL |- *.
  replace (LENGTH_OF_GAME u <? 0) with false by (symmetry; apply Z.ltb_ge; lia).
  set (T := Z.to_nat (LENGTH_OF_GAME u)).
  destruct (np_zeros_valid T) as [Hz Hwz].
  destruct (runRound_turns_ok mA mB T (T - 0) 0
              (RoundState (np_zeros T) (np_zeros T) None None)
              (State w1 (cache s) (EvDraw :: EvRunRound :: events s)) HA HB ltac:(lia))
    as (st' & s' & E & Hinv & Hc); [done|].
  exists st', s'. unfold range. by rewrite E.
Qed.
End Rounds.

(** ** runRounds *)

Lemma rounds_run_app (new l : list event) :
  rounds_run (new ++ l) = (rounds_run new + rounds_run l)%nat.
Proof. unfold rounds_run. by rewrite List.filter_app, length_app. Qed.

Lemma rounds_run_calls (new : list event) :
  Forall (fun ev => is_call ev = true) new -> rounds_run new = 0%nat.
Proof.
  induction 1 as [|ev new Hev _ IH]; [done|].
  unfold rounds_run in *. cbn. by destruct ev.
Qed.

Lemma calls_only_rounds (s s' : state W) :
  calls_only s s' -> rounds_run (events s') = rounds_run (events s).
Proof.
  intros (_ & new & -> & Hnew). by rewrite rounds_run_app, rounds_run_calls.
Qed.

Lemma tallyRoundScores_ok (h : grid) :
  valid_grid h -> (0 < width h)%nat -> exists scores, tallyRoundScores h = Ok scores.
Proof.
  intros Hv Hw. unfold tallyRoundScores, range.
  destruct (add_points_loop_ok h (width h - 0) 0 (0, 0) Hv ltac:(lia)) as [sc ->].
  cbn. rewrite bool_decide_eq_false_2 by lia. by eexists.
Qed.

Lemma no_rounds_bind {A B} (m : eff W A) (k : A -> eff W B) :
  no_rounds m -> (forall a, no_rounds (k a)) -> no_rounds (m ≫= k).
Proof.
  intros Hm Hk s. unfold mbind, eff_bind. specialize (Hm s).
  destruct (m s) as [[a|e] s1]; cbn [snd] in Hm |- *; [|done].
  by rewrite Hk.
Qed.

Lemma no_rounds_lift {A} (r : result A) : no_rounds (lift r : eff W A).
Proof. by intros s. Qed.

Lemma no_rounds_ret {A} (a : A) : no_rounds (mret a : eff W A).
Proof. by intros s. Qed.

Lemma no_rounds_clock : no_rounds clock.
Proof. intros s. by rewrite clock_eq. Qed.

Lemma no_rounds_log (ev : event) : is_round ev = false -> no_rounds (log ev).
Proof. intros H s. unfold rounds_run. cbn. by rewrite H. Qed.

Lemma no_rounds_cache_insert (pair : pairing) (e : cache_entry) :
  no_rounds (cache_insert pair e).
Proof. by intros s. Qed.

Section Sampling.
Hypothesis random_unit : forall w, (0 <= (random_random w).1 < 1)%R.

Lemma runRound_ok (mA mB : module M W) (s : state W) :
  returns_moves mA -> returns_moves mB ->
  exists h s',
    runRound mA mB s = (Ok h, s') /\ valid_grid h /\ (200 <= width h)%nat /\
    cache s' = cache s /\
    rounds_run (events s') = S (rounds_run (events s)).
Proof.
  intros HA HB.
  destruct (runRound_play_ok random_unit mA mB s HA HB)
    as (st & s' & E & (Hv & Hw & _) & Hc).
  exists (history st), s'. unfold runRound. rewrite (bind_ok _ _ _ _ _ E).
  split; [done|]. split; [done|].
  pose proof (LENGTH_OF_GAME_min _ (random_unit (world s))).
  split; [lia|]. split; [apply Hc|].
  by rewrite (calls_only_rounds _ _ Hc).
Qed.

Lemma sample_round_ok (mA mB : module M W) (acc : samples) (i : nat) (s : state W) :
  returns_moves mA -> returns_moves mB ->
  exists acc' s',
    sample_round mA mB acc i s = (Ok acc', s') /\
    cache s' = cache s /\
    rounds_run (events s') = S (rounds_run (events s)).
Proof.
  intros HA HB. unfold sample_round.
  destruct (runRound_ok mA mB s HA HB) as (h & s' & E & Hv & Hw & Hc & Hr).
  rewrite (bind_ok _ _ _ _ _ E).
  destruct (tallyRoundScores_ok h Hv ltac:(lia)) as [[scoresA scoresB] ->].
  rewrite bind_lift_ok. by eexists _, _.
Qed.

Lemma sample_rounds_ok (mA mB : module M W) (n a : nat) (acc : samples) (s : state W) :
  returns_moves mA -> returns_moves mB ->
  exists acc' s',
    for_each (sample_round mA mB) (seq a n) acc s = (Ok acc', s') /\
    cache s' = cache s /\
    rounds_run (events s') = (n + rounds_run (events s))%nat.
Proof.
  intros HA HB. revert a acc s. induction n as [|n IH]; intros a acc s.
  - by exists acc, s.
  - destruct (sample_round_ok mA mB acc a s HA HB) as (acc1 & s1 & E & Hc & Hr).
    destruct (IH (S a) acc1 s1) as (acc' & s' & E' & Hc' & Hr').
    exists acc', s'. cbn [seq for_each]. rewrite (bind_ok _ _ _ _ _ E).
    split; [done|]. split; [congruence|]. lia.
Qed.
End Sampling.

Lemma cache_get_eq (pair : pairing) (s : state W) :
  cache_get pair s
  = (Ok (cache s !! pair), State (world s) (cache s) (EvCacheGet pair :: events s)).
Proof. reflexivity. Qed.

Lemma runRounds_hit (pair : pairing) (e : cache_entry) (s : state W) :
  use_cache args = true -> cache s !! pair = Some e ->
  runRounds pair s
  = (Ok (true, e, 0%Qc),
     State (world s) (cache s) (EvCacheClose :: EvCacheGet pair :: events s)).
Proof.
  intros Huse Hhit. unfold runRounds. rewrite Huse.
  rewrite (bind_ok _ _ _ _ _ (cache_get_eq _ _)), Hhit.
  reflexivity.
Qed.

(** The part of [runRounds] after the sampling loop adds no round. *)
Lemma runRounds_epilogue (pair : pairing) (startTime : Qc) (acc : samples) :
  no_rounds
    (avgScoreA ← lift (statistics_mean (allScoresA acc));
     avgScoreB ← lift (statistics_mean (allScoresB acc));
     endTime ← clock;
     let stdevA :=
       if bool_decide (1 < length (allScoresA acc))%nat
       then statistics_stdev (allScoresA acc) else 0%Qc in
     let stdevB :=
       if bool_decide (1 < length (allScoresB acc))%nat
       then statistics_stdev (allScoresB acc) else 0%Qc in
     match firstRoundHistory acc with
     | None => raise AttributeError
     | Some first =>
         let roundResultsStr :=
           format_report pair first avgScoreA avgScoreB stdevA stdevB in
         let e := CacheEntry avgScoreA avgScoreB stdevA stdevB first roundResultsStr in
         _ ← (if use_cache args
              then _ ← cache_insert pair e; cache_close
              else mret tt);
         mret (false, e, (endTime - startTime)%Qc)
     end).
Proof.
  apply no_rounds_bind; [apply no_rounds_lift|]. intros avgA.
  apply no_rounds_bind; [apply no_rounds_lift|]. intros avgB.
  apply no_rounds_bind; [apply no_rounds_clock|]. intros endTime.
  cbv zeta. destruct (firstRoundHistory acc); [|apply no_rounds_lift].
  apply no_rounds_bind; [|intros; apply no_rounds_ret].
  destruct (use_cache args); [|apply no_rounds_ret].
  apply no_rounds_bind; [apply no_rounds_cache_insert|].
  intros _. by apply no_rounds_log.
Qed.

Section Fallback.
Hypothesis random_unit : forall w, (0 <= (random_random w).1 < 1)%R.

Lemma runRounds_fallback (pair : pairing) (s : state W) :
  returns_moves (import_module pair.1) -> returns_moves (import_module pair.2) ->
  (199 <= DETERMINISTIC_TURNS)%nat ->
  use_cache args = false \/ cache s !! pair = None ->
  (exists t, (t < DETERMINISTIC_TURNS)%nat /\
     ~ probes_agree (moves_at (import_module pair.1) (import_module pair.2)
                       (time_time (world s)).2 t)) ->
  rounds_run (events (runRounds pair s).2)
  = (Z.to_nat NUM_RUNS + rounds_run (events s))%nat.
Proof.
  intros HA HB Hd Hmiss Hdis. unfold runRounds.
  set (s0 := if use_cache args
             then State (world s) (cache s) (EvCacheGet pair :: events s) else s).
  assert (E0 : (if use_cache args then cache_get pair else mret None) s = (Ok None, s0)).
  { unfold s0. destruct (use_cache args).
    - rewrite cache_get_eq. destruct Hmiss as [Hoff | Hnone]; [done|]. by rewrite Hnone.
    - done. }
  assert (Hw0 : world s0 = world s) by (unfold s0; by destruct (use_cache args)).
  assert (Hr0 : rounds_run (events s0) = rounds_run (events s))
    by (unfold s0; by destruct (use_cache args)).
  rewrite (bind_ok _ _ _ _ _ E0), (bind_ok _ _ _ _ _ (clock_eq _)).
  unfold load.
  rewrite (bind_ok _ _ _ _ _ (bind_ok _ _ _ _ _ (log_eq _ _))).
  rewrite (bind_ok _ _ _ _ _ (bind_ok _ _ _ _ _ (log_eq _ _))).
  cbn [world cache events]. rewrite Hw0.
  match goal with
  | |- context [mbind _ (runDeterministic _ _) ?s1] =>
      destruct (runDeterministic_play (import_module pair.1) (import_module pair.2)
                  s1 HA HB Hd)
      as (s2 & Hc2 & [(Hall & _) | (_ & E2)])
  end.
  { destruct Hdis as (t & Ht & Hn). destruct Hn. by apply Hall. }
  rewrite (bind_ok _ _ _ _ _ E2).
  destruct (sample_rounds_ok random_unit (import_module pair.1) (import_module pair.2)
              (Z.to_nat NUM_RUNS - 0) 0 (Samples [] [] None) s2 HA HB)
    as (acc & s3 & E3 & _ & Hr3).
  unfold range.
  rewrite (bind_ok _ _ _ _ _ E3).
  rewrite (runRounds_epilogue pair _ acc s3), Hr3.
  rewrite (calls_only_rounds _ _ Hc2). cbn [events].
  unfold rounds_run at 1. cbn. fold (rounds_run (events s0)). lia.
Qed.
End Fallback.

Lemma probes_disagree (m : turn_moves) :
  ~ probes_agree m <-> probe_A m <> official_A m \/ probe_B m <> official_B m.
Proof.
  unfold probes_agree. split.
  - intros H. destruct (decide (probe_A m = official_A m)); [|by left].
    destruct (decide (probe_B m = official_B m)); [|by right]. by destruct H.
  - intros [H | H] [? ?]; by apply H.
Qed.

(** C3: [runDeterministic] returns [False] exactly when at some turn the
    probe of one of the two strategies, made on the same snapshot of the
    history with a memory of its own, normalises to another code than that
    turn's official move; when every turn up to DETERMINISTIC_TURNS agrees
    it returns the exact totals with the history of all DETERMINISTIC_TURNS
    turns; and when it returns [False], [runRounds] plays NUM_RUNS
    stochastic rounds for the pairing. *)
Theorem runDeterministic_verdict (pair : pairing) :
  let moduleA := import_module pair.1 in
  let moduleB := import_module pair.2 in
  returns_moves moduleA -> returns_moves moduleB ->
  (forall w, (0 <= (random_random w).1 < 1)%R) ->
  (200 <= DETERMINISTIC_TURNS)%nat ->
  0 <= NUM_RUNS ->
  (forall s,
      (runDeterministic moduleA moduleB s).1 = Ok DetFalse <->
      exists t, (t < DETERMINISTIC_TURNS)%nat /\
        (probe_A (moves_at moduleA moduleB (world s) t)
           <> official_A (moves_at moduleA moduleB (world s) t) \/
         probe_B (moves_at moduleA moduleB (world s) t)
           <> official_B (moves_at moduleA moduleB (world s) t))) /\
  (forall s,
      (forall t, (t < DETERMINISTIC_TURNS)%nat ->
         probes_agree (moves_at moduleA moduleB (world s) t)) ->
      exists h,
        (runDeterministic moduleA moduleB s).1
        = Ok (DetTotals (expected_average h 0, expected_average h 1) h) /\
        row0 h = p_movesA (play moduleA moduleB (world s) DETERMINISTIC_TURNS) /\
        row1 h = p_movesB (play moduleA moduleB (world s) DETERMINISTIC_TURNS) /\
        length (row0 h) = DETERMINISTIC_TURNS /\
        length (row1 h) = DETERMINISTIC_TURNS) /\
  (forall s s1,
      use_cache args = false \/ cache s !! pair = None ->
      world s1 = (time_time (world s)).2 ->
      (runDeterministic moduleA moduleB s1).1 = Ok DetFalse ->
      Z.of_nat (rounds_run (events (runRounds pair s).2))
      = NUM_RUNS + Z.of_nat (rounds_run (events s))).
Proof.
  intros moduleA moduleB HA HB Hrandom Hd Hn.
  assert (Hverdict : forall s,
             (runDeterministic moduleA moduleB s).1 = Ok DetFalse <->
             exists t, (t < DETERMINISTIC_TURNS)%nat /\
                       ~ probes_agree (moves_at moduleA moduleB (world s) t)).
  { intros s.
    destruct (runDeterministic_play moduleA moduleB s HA HB ltac:(lia))
      as (s' & _ & [(Hall & E) | (Hdis & E)]); rewrite E; cbn [fst].
    - split; [done|]. intros (t & Ht & Hneg). destruct Hneg. by apply Hall.
    - done. }
  split; [|split].
  - intros s. rewrite Hverdict. split.
    + intros (t & Ht & Hneg). exists t. split; [done|]. by apply probes_disagree.
    + intros (t & Ht & Hneg). exists t. split; [done|]. by apply probes_disagree.
  - intros s Hall.
    destruct (runDeterministic_play moduleA moduleB s HA HB ltac:(lia))
      as (s' & _ & [(_ & E) | ((t & Ht & Hneg) & _)]).
    + eexists. rewrite E. split; [reflexivity|]. cbn [row0 row1].
      destruct (play_moves moduleA moduleB (world s) DETERMINISTIC_TURNS HA HB)
        as [(_ & _ & Hl) Hl0]. cbn [row0 row1] in Hl.
      repeat split; [done | congruence].
    + destruct Hneg. by apply Hall.
  - intros s s1 Hmiss Hw1 E1. apply Hverdict in E1. rewrite Hw1 in E1.
    rewrite (runRounds_fallback Hrandom pair s HA HB ltac:(lia) Hmiss E1).
    unfold NUM_RUNS in *. lia.
Qed.

(** C6: a stochastic round draws its length once, as the floor of
    200 - 40 ln(1 - U), and for U in [0, 1) that length is at least 200, so
    both history arrays of the round have at least 200 columns. *)
Theorem runRound_length (moduleA moduleB : module M W) (s : state W) :
  (forall w, (0 <= (random_random w).1 < 1)%R) ->
  returns_moves moduleA -> returns_moves moduleB ->
  (forall u, (0 <= u < 1)%R ->
     LENGTH_OF_GAME u = Int_part (200 - 40 * ln (1 - u))%R /\
     200 <= LENGTH_OF_GAME u) /\
  exists st s' calls,
    runRound_play moduleA moduleB s = (Ok st, s') /\
    runRound moduleA moduleB s = (Ok (history st), s') /\
    events s' = calls ++ EvDraw :: EvRunRound :: events s /\
    Forall (fun ev => is_call ev = true) calls /\
    let T := LENGTH_OF_GAME (random_random (world s)).1 in
    200 <= T /\
    length (row0 (history st)) = Z.to_nat T /\
    length (row1 (history st)) = Z.to_nat T /\
    length (row0 (historyFlipped st)) = Z.to_nat T /\
    length (row1 (historyFlipped st)) = Z.to_nat T.
Proof.
  intros Hrandom HA HB. split.
  - intros u Hu. pose proof (LENGTH_OF_GAME_min u Hu) as Hmin. split; [|done].
    unfold LENGTH_OF_GAME, py_int in *.
    destruct (Rle_dec 0 _) as [_|Hneg]; [done|].
    destruct Hneg.
    assert ((ln (1 - u) <= 0)%R); [|lra].
    destruct (Req_dec u 0) as [-> | Hu0].
    + rewrite Rminus_0_r, ln_1. lra.
    + rewrite <- ln_1. apply Rlt_le, ln_increasing; lra.
  - destruct (runRound_play_ok Hrandom moduleA moduleB s HA HB)
      as (st & s' & E & ((_ & _ & Hl1) & Hw & (_ & _ & Hl2) & Hwf) & (_ & calls & Hev & Hcalls)).
    exists st, s', calls. split; [done|].
    split; [unfold runRound; by rewrite (bind_ok _ _ _ _ _ E)|].
    split; [done|]. split; [done|].
    pose proof (LENGTH_OF_GAME_min _ (Hrandom (world s))).
    unfold width in *. cbv zeta. repeat split; congruence.
Qed.

(** C10: with the cache enabled and an entry stored for the pairing,
    [runRounds] returns that entry with the cached flag set and an elapsed
    time of exactly 0; it imports no module, invokes no strategy and plays
    nothing (all it does is read the cache and close it), and the loop over
    the results then leaves every strategy's cumulative time as it was. *)
Theorem runRounds_cached (pair : pairing) (e : cache_entry) (s : state W) :
  use_cache args = true ->
  cache s !! pair = Some e ->
  (runRounds pair s).1 = Ok (true, e, 0%Qc) /\
  events (runRounds pair s).2 = EvCacheClose :: EvCacheGet pair :: events s /\
  world (runRounds pair s).2 = world s /\
  cache (runRounds pair s).2 = cache s /\
  (forall t,
      events (pool_step t pair s).2
      = EvCacheClose :: EvCacheGet pair :: EvDispatch pair :: events s) /\
  (forall t t' s',
      pool_step t pair s = (Ok t', s') ->
      strategyTimes t' = strategyTimes t /\ hits t' = S (hits t)).
Proof.
  intros Huse Hhit.
  assert (Estep : forall t,
             pool_step t pair s
             = (collect t pair (true, e, 0%Qc),
                State (world s) (cache s)
                  (EvCacheClose :: EvCacheGet pair :: EvDispatch pair :: events s))).
  { intros t. unfold pool_step.
    rewrite (bind_ok _ _ _ _ _ (log_eq _ _)).
    by rewrite (bind_ok _ _ _ _ _
                  (runRounds_hit pair e
                     (State (world s) (cache s) (EvDispatch pair :: events s)) Huse Hhit)). }
  rewrite (runRounds_hit pair e s Huse Hhit). cbn [fst snd world cache events].
  split; [done|]. split; [done|]. split; [done|]. split; [done|].
  split; [intros t; by rewrite Estep|].
  intros t t' s'. rewrite Estep. intros [= Hcollect _]. revert Hcollect.
  unfold collect. destruct pair as [nameA nameB]. unfold dict_add.
  destruct (strategyTimes t !! nameA) as [x|] eqn:Ex; [|done]. cbn.
  rewrite Qcplus_0_r, (insert_id _ _ _ Ex).
  destruct (strategyTimes t !! nameB) as [y|] eqn:Ey; [|done]. cbn.
  rewrite Qcplus_0_r, (insert_id _ _ _ Ey).
  destruct (scoreKeeper t !! nameA) as [q|]; [|done]. cbn.
  destruct (<[nameA:=_]> (scoreKeeper t) !! nameB); [|done]. cbn.
  by intros [= <-].
Qed.

(** ** Configuration errors *)

(** C9: when the configured turn count is below 200, or fewer than two
    strategies are left after the filter, the program raises before a
    pairing is dispatched, a strategy module loaded, a strategy invoked, a
    round played or a result put into the cache. *)
Theorem main_fails_fast (s : state W) :
  deterministic_turns args < 200 \/
  (exists folders, STRATEGY_FOLDERS = Ok folders /\
                   (length (STRATEGY_LIST folders) < 2)%nat) ->
  exists e new,
    (main s).1 = Raise e /\
    (e = Exception "--det-turns must be at least 200" \/
     e = ValueError "Not enough strategies!") /\
    world (main s).2 = world s /\
    events (main s).2 = new ++ events s /\
    Forall (fun ev => is_work ev = false) new /\
    (cache (main s).2 = cache s \/ cache (main s).2 = ∅).
Proof.
  intros H. unfold main.
  destruct (Z.ltb_spec (deterministic_turns args) 200) as [Hlt | Hge].
  { exists (Exception "--det-turns must be at least 200"), [].
    cbn. repeat split; auto. }
  destruct H as [Hlt | (folders & Ef & Hfew)]; [lia|].
  rewrite Ef, bind_lift_ok. unfold runFullPairingTournament.
  exists (ValueError "Not enough strategies!").
  exists ((if use_cache args then [EvCacheSetup] else [])
          ++ (if delete_cache args then [EvCacheDelete] else [])).
  unfold mbind, eff_bind.
  destruct (delete_cache args), (use_cache args); cbn;
    rewrite bool_decide_eq_true_2 by done; cbn;
    repeat split; auto; by repeat constructor.
Qed.

(** ** Ranking *)

Lemma sorts_before_le (v : list Qc) (a b : nat) :
  sorts_before v a b -> (nth a v 0%Qc <= nth b v 0%Qc)%Qc.
Proof. intros [H | [-> _]]; [by apply Qclt_le_weak | apply Qcle_refl]. Qed.

Lemma argsort_insert_perm (v : list Qc) (i : nat) (l : list nat) :
  argsort_insert Qc_ltb v 0%Qc i l ≡ₚ i :: l.
Proof.
  induction l as [|j l IH]; cbn; [done|].
  destruct (Qc_ltb _ _); [done|]. rewrite IH. apply Permutation_swap.
Qed.

Lemma argsort_insert_sorted (v : list Qc) (i : nat) (l : list nat) :
  StronglySorted (sorts_before v) l ->
  Forall (fun j => (j < i)%nat) l ->
  StronglySorted (sorts_before v) (argsort_insert Qc_ltb v 0%Qc i l).
Proof.
  induction l as [|j l IH]; intros Hs Hlt; cbn.
  - repeat constructor.
  - apply StronglySorted_inv in Hs as [Hs Hj].
    apply Forall_cons in Hlt as [Hji Hlt].
    unfold Qc_ltb. case_bool_decide as Hk.
    + constructor; [by constructor|].
      constructor; [by left|].
      eapply Forall_impl; [exact Hj|]. intros x Hx. left.
      eapply Qclt_le_trans; [exact Hk|]. by apply sorts_before_le.
    + constructor; [by apply IH|].
      rewrite argsort_insert_perm. constructor; [|done].
      apply Qcnot_lt_le in Hk. apply Qcle_lt_or_eq in Hk as [Hk | Hk].
      * by left.
      * right. by split.
Qed.

Lemma argsort_fold (v : list Qc) (n : nat) :
  let l := fold_left (fun sorted i => argsort_insert Qc_ltb v 0%Qc i sorted) (seq 0 n) [] in
  StronglySorted (sorts_before v) l /\ l ≡ₚ seq 0 n.
Proof.
  induction n as [|n [IHs IHp]]; cbn zeta.
  - split; [constructor | done].
  - rewrite seq_S, fold_left_app. cbn [fold_left Nat.add].
    split.
    + apply argsort_insert_sorted; [done|].
      rewrite IHp. apply Forall_forall. intros j Hj. apply elem_of_seq in Hj. lia.
    + rewrite argsort_insert_perm, IHp. rewrite Permutation_app_comm. done.
Qed.

Lemma argsort_sorted (v : list Qc) :
  StronglySorted (sorts_before v) (argsort Qc_ltb 0%Qc v) /\
  argsort Qc_ltb 0%Qc v ≡ₚ seq 0 (length v).
Proof. unfold argsort, range. rewrite Nat.sub_0_r. apply argsort_fold. Qed.

Lemma StronglySorted_lookup {A} (R : A -> A -> Prop) (l : list A) (i j : nat) (a b : A) :
  StronglySorted R l -> (i < j)%nat ->
  l !! i = Some a -> l !! j = Some b -> R a b.
Proof.
  intros Hs. revert i j. induction Hs as [|x l Hs IH Hx]; intros i j Hij Ha Hb; [done|].
  destruct j as [|j]; [lia|]. cbn in Hb. destruct i as [|i]; cbn in Ha.
  - injection Ha as ->. eapply Forall_lookup_1; [exact Hx | exact Hb].
  - eapply (IH i j); [lia | done | done].
Qed.

Lemma mapM_Ok {A B} (f : A -> result B) (l : list A) (ys : list B) :
  mapM f l = Ok ys -> Forall2 (fun x y => f x = Ok y) l ys.
Proof.
  revert ys. induction l as [|x l IH]; intros ys; cbn.
  - intros [= <-]. constructor.
  - destruct (f x) as [y|] eqn:E; [|done]. cbn.
    destruct (mapM f l) as [k|]; [|done]. cbn.
    intros [= <-]. constructor; [done|]. by apply IH.
Qed.

Lemma py_index_from_end (l : list nat) (k i : nat) :
  py_index l (- 1 - Z.of_nat k) = Ok i -> reverse l !! k = Some i.
Proof.
  unfold py_index.
  replace (- 1 - Z.of_nat k <? 0) with true by (symmetry; apply Z.ltb_lt; lia).
  destruct (_ && _) eqn:Hb; [|done].
  apply andb_prop in Hb as [H0 H1]. apply Z.leb_le in H0. apply Z.ltb_lt in H1.
  destruct (_ !! _) eqn:E; [|done]. intros [= <-].
  apply reverse_lookup_Some. split; [|lia].
  rewrite <- E. f_equal. lia.
Qed.

Lemma fill_scores_loop (names : list string) (keeper : gmap string Qc)
    (n a : nat) (v0 v : list Qc) :
  for_each
    (fun scoresNumpy i =>
       name ← item names i;
       score ← match keeper !! name with
               | Some v => Ok v
               | None => Raise KeyError
               end;
       if bool_decide (i < length scoresNumpy)%nat
       then Ok (<[i := score]> scoresNumpy)
       else Raise IndexError)
    (seq a n) v0 = Ok v ->
  length v = length v0 /\
  (n = 0%nat \/ (a + n <= length v0)%nat) /\
  (forall i, (i < a)%nat -> v !! i = v0 !! i) /\
  (forall i, (a <= i < a + n)%nat ->
     exists name score,
       names !! i = Some name /\ keeper !! name = Some score /\ v !! i = Some score).
Proof.
  revert a v0. induction n as [|n IH]; intros a v0; cbn [seq for_each].
  - intros [= <-]. split; [done|]. split; [by left|]. split; [done|]. intros; lia.
  - destruct (item names a) as [name|] eqn:En; cbn; [|done].
    unfold item in En. destruct (names !! a) as [name'|] eqn:En'; [|done].
    injection En as ->.
    destruct (keeper !! name) as [score|] eqn:Es; cbn; [|done].
    case_bool_decide as Ha; cbn; [|done].
    intros H. apply IH in H as (Hl & Hn & Hbefore & Hin).
    rewrite length_insert in Hl, Hn.
    split; [done|]. split; [right; lia|]. split.
    + intros i Hi. rewrite Hbefore by lia. by rewrite list_lookup_insert_ne by lia.
    + intros i Hi. destruct (decide (i = a)) as [->|].
      * exists name, score. split; [done|]. split; [done|].
        rewrite Hbefore by lia. by rewrite list_lookup_insert_eq by done.
      * apply Hin. lia.
Qed.

Lemma fill_scores_ok (names : list string) (keeper : gmap string Qc) (v : list Qc) :
  fill_scores names keeper = Ok v ->
  length v = size keeper /\
  (length names <= length v)%nat /\
  (forall i name, names !! i = Some name ->
     exists score, keeper !! name = Some score /\ v !! i = Some score).
Proof.
  unfold fill_scores, range. intros H.
  apply fill_scores_loop in H as (Hl & Hn & _ & Hin).
  rewrite length_replicate in Hl, Hn. rewrite Nat.sub_0_r in *.
  split; [done|]. split; [destruct Hn; lia|].
  intros i name Hi. destruct (Hin i) as (name' & score & En & Es & Ev).
  { apply lookup_lt_Some in Hi. lia. }
  exists score. by replace name with name' by congruence.
Qed.

Lemma collect_scoreKeeper (t t' : tally) (pair : pairing) (cached : bool)
    (e : cache_entry) (pairTime : Qc) (name : string) :
  collect t pair (cached, e, pairTime) = Ok t' ->
  scoreKeeper t' !! name = (fun x => (x + share pair e name)%Qc) <$> scoreKeeper t !! name.
Proof.
  unfold collect, share. destruct pair as [nameA nameB]. cbn [fst snd].
  destruct (dict_add (strategyTimes t) nameA pairTime) as [times|]; cbn; [|done].
  destruct (dict_add times nameB pairTime) as [times'|]; cbn; [|done].
  destruct (dict_add (scoreKeeper t) nameA _) as [scores|] eqn:E1; cbn; [|done].
  destruct (dict_add scores nameB _) as [scores'|] eqn:E2; cbn; [|done].
  intros [= <-]. cbn [scoreKeeper].
  unfold dict_add in E1, E2.
  destruct (scoreKeeper t !! nameA) as [x|] eqn:Ex; [|done]. injection E1 as <-.
  destruct (<[nameA:=_]> (scoreKeeper t) !! nameB) as [y|] eqn:Ey; [|done].
  injection E2 as <-.
  destruct (decide (name = nameB)) as [->|HB].
  - rewrite lookup_insert_eq.
    destruct (decide (nameB = nameA)) as [->|HA].
    + rewrite lookup_insert_eq in Ey. injection Ey as <-. rewrite Ex. cbn.
      f_equal. ring.
    + rewrite lookup_insert_ne in Ey by done. rewrite Ey. cbn. f_equal. ring.
  - rewrite lookup_insert_ne by done.
    destruct (decide (name = nameA)) as [->|HA].
    + rewrite lookup_insert_eq, Ex. cbn. f_equal. ring.
    + rewrite lookup_insert_ne by done.
      destruct (scoreKeeper t !! name); cbn; [|done]. f_equal. ring.
Qed.

(** ** Payoff table and move normalisation *)

(** C7: the payoff table is payoff(0,0)=1, payoff(0,1)=5, payoff(1,0)=0,
    payoff(1,1)=3, the first index being the player's own move, and it has
    the dilemma ordering payoff(0,1) > payoff(1,1) > payoff(0,0) >
    payoff(1,0). *)
Theorem pointsArray_table :
  points 0 0 = Ok 1 /\ points 0 1 = Ok 5 /\
  points 1 0 = Ok 0 /\ points 1 1 = Ok 3 /\
  (exists t r p s,
      points 0 1 = Ok t /\ points 1 1 = Ok r /\
      points 0 0 = Ok p /\ points 1 0 = Ok s /\
      t > r /\ r > p /\ p > s /\ (t, r, p, s) = (5, 3, 1, 0)).
Proof.
  repeat split; try reflexivity.
  exists 5, 3, 1, 0. repeat split; reflexivity.
Qed.

(** C8, as the code has it: a string is normalised to 0 when it is "defect"
    or "tell truth" and to 1 otherwise; a value that is not a string is
    returned as it is, so the integer codes 0 and 1 pass through
    unchanged. *)
Theorem strategyMove_normalises :
  strategyMove (PyStr "defect") = 0 /\
  strategyMove (PyStr "tell truth") = 0 /\
  (forall s : string,
      s <> "defect"%string -> s <> "tell truth"%string -> strategyMove (PyStr s) = 1) /\
  (forall z : Z, strategyMove (PyInt z) = z).
Proof.
  split; [done|]. split; [done|]. split; [|done].
  intros s H1 H2. unfold strategyMove, defects.
  rewrite bool_decide_eq_false_2; [done|].
  intros Hin. apply elem_of_cons in Hin as [-> | Hin]; [done|].
  apply elem_of_cons in Hin as [-> | Hin]; [done|].
  by apply elem_of_nil in Hin.
Qed.

(** C8 as stated fails on the integer 0, which is neither of the two strings
    and is normalised to 0, not to 1. *)
Lemma strategyMove_anything_else_counterexample :
  ~ (forall move : pyval,
        (move = PyStr "defect" \/ move = PyStr "tell truth" -> strategyMove move = 0) /\
        (move <> PyStr "defect" -> move <> PyStr "tell truth" -> strategyMove move = 1)).
Proof.
  intros H. destruct (H (PyInt 0)) as [_ H1].
  assert (E : strategyMove (PyInt 0) = 1) by (apply H1; discriminate).
  discriminate E.
Qed.

(** ** Frames *)

Lemma grows_by_refl (P : event -> Prop) (s : state W) : grows_by P s s.
Proof. split; [done|]. by exists []. Qed.

Lemma grows_by_trans (P : event -> Prop) (s1 s2 s3 : state W) :
  grows_by P s1 s2 -> grows_by P s2 s3 -> grows_by P s1 s3.
Proof.
  intros (Hc1 & n1 & E1 & F1) (Hc2 & n2 & E2 & F2). split; [congruence|].
  exists (n2 ++ n1). split; [by rewrite E2, E1, app_assoc|]. by apply Forall_app.
Qed.

Lemma grows_by_weaken (P Q : event -> Prop) (s s' : state W) :
  (forall ev, P ev -> Q ev) -> grows_by P s s' -> grows_by Q s s'.
Proof.
  intros HPQ (Hc & new & E & F). split; [done|]. exists new. split; [done|].
  eapply Forall_impl; [exact F | exact HPQ].
Qed.

Lemma logs_only_bind {A B} (P : event -> Prop) (m : eff W A) (k : A -> eff W B) :
  logs_only P m -> (forall a, logs_only P (k a)) -> logs_only P (m ≫= k).
Proof.
  intros Hm Hk s. unfold mbind, eff_bind. specialize (Hm s).
  destruct (m s) as [[a|e] s1]; cbn [snd] in Hm |- *; [|done].
  eapply grows_by_trans; [exact Hm | apply Hk].
Qed.

Lemma logs_only_ret {A} (P : event -> Prop) (a : A) : logs_only P (mret a : eff W A).
Proof. intros s. apply grows_by_refl. Qed.

Lemma logs_only_lift {A} (P : event -> Prop) (r : result A) :
  logs_only P (lift r : eff W A).
Proof. intros s. apply grows_by_refl. Qed.

Lemma logs_only_log (P : event -> Prop) (ev : event) : P ev -> logs_only P (log ev).
Proof.
  intros HP s. split; [done|]. exists [ev]. split; [done|]. by constructor.
Qed.

Lemma logs_only_call (P : event -> Prop) (m : module M W) (h : grid) (mem : option M) :
  P (EvStrategy (mod_name m)) -> logs_only P (call m h mem).
Proof.
  intros HP s. rewrite call_eq. split; [done|].
  exists [EvStrategy (mod_name m)]. split; [done|]. by constructor.
Qed.

Lemma logs_only_draw (P : event -> Prop) : P EvDraw -> logs_only P draw.
Proof.
  intros HP s. rewrite draw_eq. split; [done|].
  exists [EvDraw]. split; [done|]. by constructor.
Qed.

Lemma logs_only_clock (P : event -> Prop) : logs_only P clock.
Proof. intros s. rewrite clock_eq. split; [done|]. by exists []. Qed.

Lemma logs_only_for_each {S I} (P : event -> Prop) (body : S -> I -> eff W S)
    (l : list I) (st : S) :
  (forall st i, logs_only P (body st i)) -> logs_only P (for_each body l st).
Proof.
  intros Hbody. revert st. induction l as [|i l IH]; intros st; cbn [for_each].
  - apply logs_only_ret.
  - apply logs_only_bind; [apply Hbody | exact IH].
Qed.

Ltac frame_step :=
  first
    [ apply logs_only_ret
    | apply logs_only_lift
    | apply logs_only_clock
    | apply logs_only_call; exact I
    | apply logs_only_draw; exact I
    | apply logs_only_log; exact I
    | apply logs_only_bind; [|intros ?] ].

Lemma runRound_turn_frame (mA mB : module M W) (st : round_state) (turn : nat) :
  logs_only is_play (runRound_turn mA mB st turn).
Proof.
  unfold runRound_turn.
  apply logs_only_bind; [frame_step|]. intros [playerAmove memA].
  apply logs_only_bind; [frame_step|]. intros [playerBmove memB].
  repeat frame_step.
Qed.

Lemma runRound_frame (mA mB : module M W) : logs_only is_play (runRound mA mB).
Proof.
  unfold runRound, runRound_play.
  apply logs_only_bind; [|intros; apply logs_only_ret].
  apply logs_only_bind; [frame_step|]. intros _.
  apply logs_only_bind; [frame_step|]. intros u. cbv zeta.
  destruct (_ <? _); [apply logs_only_lift|].
  apply logs_only_for_each. intros. apply runRound_turn_frame.
Qed.

Lemma runDeterministic_turn_frame (mA mB : module M W) (st : det_state) (turn : nat) :
  logs_only is_play (runDeterministic_turn mA mB st turn).
Proof.
  unfold runDeterministic_turn.
  apply logs_only_bind; [frame_step|]. intros [playerAmove memA].
  apply logs_only_bind; [frame_step|]. intros [playerBmove memB].
  apply logs_only_bind; [frame_step|]. intros h1.
  apply logs_only_bind; [frame_step|]. intros h2.
  apply logs_only_bind; [frame_step|]. intros [playerAmove2 memA2].
  apply logs_only_bind; [frame_step|]. intros [playerBmove2 memB2].
  destruct (bool_decide _); [apply logs_only_ret|].
  destruct (bool_decide _); [apply logs_only_ret|].
  repeat frame_step.
Qed.

Lemma runDeterministic_frame (mA mB : module M W) :
  logs_only is_play (runDeterministic mA mB).
Proof.
  unfold runDeterministic.
  apply logs_only_bind; [frame_step|]. intros _.
  apply logs_only_bind.
  - generalize (DetState (np_zeros DETERMINISTIC_TURNS) (np_zeros DETERMINISTIC_TURNS)
                  None None None None).
    induction (range 0 DETERMINISTIC_TURNS) as [|turn turns IH]; intros st;
      cbn [runDeterministic_turns].
    + apply logs_only_ret.
    + apply logs_only_bind; [apply runDeterministic_turn_frame|].
      intros [st'|]; [apply IH | apply logs_only_ret].
  - intros [st|]; [|apply logs_only_ret]. repeat frame_step.
Qed.

Lemma sample_round_frame (mA mB : module M W) (acc : samples) (i : nat) :
  logs_only is_play (sample_round mA mB acc i).
Proof.
  unfold sample_round.
  apply logs_only_bind; [apply runRound_frame|]. intros h.
  apply logs_only_bind; [frame_step|]. intros [scoresA scoresB]. apply logs_only_ret.
Qed.

(** ** runRounds, whatever the strategies do *)

Lemma runRounds_unfold (pair : pairing) :
  runRounds pair
  = (r ← (if use_cache args then cache_get pair else mret None);
     match r with
     | Some e => _ ← cache_close; mret (true, e, 0%Qc)
     | None => runRounds_compute pair
     end).
Proof. reflexivity. Qed.

(** The end of [runRounds]: it raises with nothing stored, or returns the
    entry made of the two means, the two deviations and the first history,
    with the time between the two clock readings. *)
Lemma runRounds_finish_shape (pair : pairing) (startTime : Qc) (acc : samples)
    (s : state W) :
  let s1 := State (time_time (world s)).2 (cache s) (events s) in
  (exists e, (runRounds_finish pair startTime acc s).1 = Raise e /\
             cache (runRounds_finish pair startTime acc s).2 = cache s /\
             events (runRounds_finish pair startTime acc s).2 = events s) \/
  (exists avgA avgB first,
      statistics_mean (allScoresA acc) = Ok avgA /\
      statistics_mean (allScoresB acc) = Ok avgB /\
      firstRoundHistory acc = Some first /\
      let stdevA := if bool_decide (1 < length (allScoresA acc))%nat
                    then statistics_stdev (allScoresA acc) else 0%Qc in
      let stdevB := if bool_decide (1 < length (allScoresB acc))%nat
                    then statistics_stdev (allScoresB acc) else 0%Qc in
      let e := CacheEntry avgA avgB stdevA stdevB first
                 (format_report pair first avgA avgB stdevA stdevB) in
      runRounds_finish pair startTime acc s
      = (Ok (false, e, ((time_time (world s)).1 - startTime)%Qc), stored pair e s1)).
Proof.
  cbv zeta. unfold runRounds_finish.
  destruct (statistics_mean (allScoresA acc)) as [avgA|e] eqn:EA;
    [|left; exists e; by repeat split].
  rewrite bind_lift_ok.
  destruct (statistics_mean (allScoresB acc)) as [avgB|e] eqn:EB;
    [|left; exists e; by repeat split].
  rewrite bind_lift_ok, (bind_ok _ _ _ _ _ (clock_eq _)).
  destruct (firstRoundHistory acc) as [first|];
    [|left; exists AttributeError; by repeat split].
  right. exists avgA, avgB, first. split; [done|]. split; [done|]. split; [done|].
  unfold stored. destruct (use_cache args); reflexivity.
Qed.

Lemma load_eq (name : string) (s : state W) :
  load name s
  = (Ok (import_module name), State (world s) (cache s) (EvImport name :: events s)).
Proof. reflexivity. Qed.

Lemma runRounds_compute_shape (pair : pairing) (s : state W) :
  exists s1,
    grows_by (fun ev => is_play ev \/ ev = EvImport pair.1 \/ ev = EvImport pair.2) s s1 /\
    ((exists e, runRounds_compute pair s = (Raise e, s1)) \/
     (exists e t, runRounds_compute pair s = (Ok (false, e, t), stored pair e s1))).
Proof.
  unfold runRounds_compute.
  rewrite (bind_ok _ _ _ _ _ (clock_eq _)).
  rewrite (bind_ok _ _ _ _ _ (load_eq _ _)), (bind_ok _ _ _ _ _ (load_eq _ _)).
  cbn [world cache events].
  set (s0 := State (time_time (world s)).2 (cache s)
               (EvImport pair.2 :: EvImport pair.1 :: events s)).
  assert (F0 : grows_by (fun ev => is_play ev \/ ev = EvImport pair.1 \/ ev = EvImport pair.2)
                 s s0).
  { split; [done|]. exists [EvImport pair.2; EvImport pair.1]. split; [done|].
    apply Forall_cons. split; [auto|]. apply Forall_cons. split; [auto|]. constructor. }
  assert (Hplay : forall s1 s2, grows_by is_play s1 s2 ->
             grows_by (fun ev => is_play ev \/ ev = EvImport pair.1 \/ ev = EvImport pair.2)
               s1 s2).
  { intros s1 s2. apply grows_by_weaken. auto. }
  pose proof (runDeterministic_frame (import_module pair.1) (import_module pair.2) s0) as F1.
  destruct (runDeterministic _ _ s0) as [[d|e] s1] eqn:Ed; cbn [snd] in F1.
  2: { exists s1. split; [eapply grows_by_trans; [exact F0 | apply Hplay; exact F1]|].
       left. exists e. by rewrite (bind_raise _ _ _ _ _ Ed). }
  rewrite (bind_ok _ _ _ _ _ Ed).
  assert (Hfinish : forall startTime acc s2,
             grows_by is_play s1 s2 ->
             exists s3,
               grows_by (fun ev => is_play ev \/ ev = EvImport pair.1 \/ ev = EvImport pair.2)
                 s s3 /\
               ((exists e, runRounds_finish pair startTime acc s2 = (Raise e, s3)) \/
                (exists e t, runRounds_finish pair startTime acc s2
                             = (Ok (false, e, t), stored pair e s3)))).
  { intros startTime acc s2 F2.
    assert (F : grows_by (fun ev => is_play ev \/ ev = EvImport pair.1 \/ ev = EvImport pair.2)
                  s s2).
    { eapply grows_by_trans; [exact F0|].
      eapply grows_by_trans; [apply Hplay; exact F1 | apply Hplay; exact F2]. }
    destruct (runRounds_finish_shape pair startTime acc s2)
      as [(e & E & Hc & Hev) | (avgA & avgB & first & _ & _ & _ & E)].
    - destruct (runRounds_finish pair startTime acc s2) as [r s3]. cbn [fst snd] in *.
      exists s3. split; [|left; exists e; by rewrite E].
      destruct F as (Hc2 & new & Hev2 & Hnew). split; [congruence|].
      exists new. split; [congruence | done].
    - cbv zeta in E. eexists. split; [|right; eexists _, _; exact E].
      destruct F as (Hc2 & new & Hev2 & Hnew). split; [done|]. by exists new. }
  destruct d as [|totals history].
  - set (loop := for_each (sample_round (import_module pair.1) (import_module pair.2))
                    (range 0 (Z.to_nat NUM_RUNS)) (Samples [] [] None)).
    pose proof (logs_only_for_each is_play
                  (sample_round (import_module pair.1) (import_module pair.2))
                  (range 0 (Z.to_nat NUM_RUNS)) (Samples [] [] None)
                  (sample_round_frame _ _) s1) as F2.
    fold loop in F2.
    destruct (loop s1) as [[acc|e] s2] eqn:El; cbn [snd] in F2.
    + rewrite (bind_ok _ _ _ _ _ El). apply Hfinish. exact F2.
    + exists s2. split.
      * eapply grows_by_trans; [exact F0|].
        eapply grows_by_trans; [apply Hplay; exact F1 | apply Hplay; exact F2].
      * left. exists e. by rewrite (bind_raise _ _ _ _ _ El).
  - apply Hfinish. apply grows_by_refl.
Qed.

(** [runRounds] in full.  Either the cache is on and holds the pairing: the
    entry comes back with the flag and time 0.  Or it computes: until the end
    the cache is as it was and the log holds only the lookup, the imports and
    play; then it raises, or it returns a fresh result, stored when the cache
    is on. *)
Lemma runRounds_shape (pair : pairing) (s : state W) :
  (use_cache args = true /\
   exists e, cache s !! pair = Some e /\
     runRounds pair s
     = (Ok (true, e, 0%Qc),
        State (world s) (cache s) (EvCacheClose :: EvCacheGet pair :: events s))) \/
  ((use_cache args = false \/ cache s !! pair = None) /\
   exists s1, grows_by (is_miss_event pair) s s1 /\
     ((exists e, runRounds pair s = (Raise e, s1)) \/
      (exists e t, runRounds pair s = (Ok (false, e, t), stored pair e s1)))).
Proof.
  rewrite runRounds_unfold.
  destruct (use_cache args) eqn:Huse.
  - rewrite (bind_ok _ _ _ _ _ (cache_get_eq _ _)).
    destruct (cache s !! pair) as [e|] eqn:Hhit.
    + left. split; [done|]. exists e. split; [done|]. reflexivity.
    + right. split; [by right|].
      destruct (runRounds_compute_shape pair
                  (State (world s) (cache s) (EvCacheGet pair :: events s)))
        as (s1 & (Hc & new & Hev & Hnew) & Hout).
      exists s1. split; [|exact Hout].
      split; [done|]. exists (new ++ [EvCacheGet pair]).
      split; [by rewrite Hev, <- app_assoc|].
      apply Forall_app. split.
      * eapply Forall_impl; [exact Hnew|]. unfold is_miss_event.
        intros ev [H | [H | H]]; auto.
      * apply Forall_cons. split; [|constructor]. unfold is_miss_event. auto.
  - right. split; [by left|].
    destruct (runRounds_compute_shape pair s) as (s1 & F & Hout).
    exists s1. split; [|exact Hout].
    eapply grows_by_weaken; [|exact F]. unfold is_miss_event.
    intros ev [H | [H | H]]; auto.
Qed.

(** X1.  What [runRounds] does to the cache: a result computed with the cache on
    is stored under its pairing and nothing else changes; in every other
    case (a hit, the cache off, an exception) the cache is left as it was. *)
Theorem runRounds_cache_effect (pair : pairing) (s : state W) :
  cache (runRounds pair s).2
  = match (runRounds pair s).1 with
    | Ok (false, e, _) => if use_cache args then <[pair := e]> (cache s) else cache s
    | _ => cache s
    end.
Proof.
  destruct (runRounds_shape pair s)
    as [(_ & e & _ & ->) | (_ & s1 & (Hc & _) & [(e & ->) | (e & t & ->)])].
  - done.
  - done.
  - cbn [fst snd]. unfold stored. destruct (use_cache args); cbn [cache]; by rewrite Hc.
Qed.

(** X2.  The cached flag tells the truth: [runRounds] returns it set exactly when
    the cache is on and holds the pairing, and then the entry is the stored
    one and the time is 0. *)
Theorem runRounds_cached_flag (pair : pairing) (s : state W)
    (cached : bool) (e : cache_entry) (t : Qc) :
  (runRounds pair s).1 = Ok (cached, e, t) ->
  (cached = true <-> use_cache args = true /\ is_Some (cache s !! pair)) /\
  (cached = true -> cache s !! pair = Some e /\ t = 0%Qc).
Proof.
  destruct (runRounds_shape pair s)
    as [(Huse & e' & Hhit & ->) | (Hmiss & s1 & _ & [(e' & ->) | (e' & t' & ->)])];
    cbn [fst]; intros [= <- <- <-].
  - split; [|by intros _]. split; [intros _; by rewrite Hhit | done].
  - split; [|done]. split; [done|]. intros [Huse [x Hx]].
    destruct Hmiss as [H | H]; congruence.
Qed.

(** X3.  Insert, then look up: after [runRounds] has computed a result with the
    cache on, a second [runRounds] for the pairing returns the same entry
    from the cache, with time 0, and does nothing but the lookup. *)
Theorem runRounds_twice (pair : pairing) (s s' : state W) (e : cache_entry) (t : Qc) :
  use_cache args = true ->
  runRounds pair s = (Ok (false, e, t), s') ->
  runRounds pair s'
  = (Ok (true, e, 0%Qc),
     State (world s') (cache s') (EvCacheClose :: EvCacheGet pair :: events s')).
Proof.
  intros Huse E. apply runRounds_hit; [done|].
  destruct (runRounds_shape pair s)
    as [(_ & e' & _ & E') | (_ & s1 & _ & [(e' & E') | (e' & t' & E')])];
    rewrite E in E'; try discriminate E'.
  injection E' as <- <- ->. unfold stored. rewrite Huse. cbn [cache].
  apply lookup_insert_eq.
Qed.

(** X4.  With the cache off, [runRounds] never reports a hit and logs no cache
    operation at all. *)
Theorem runRounds_no_cache (pair : pairing) (s : state W) :
  use_cache args = false ->
  (forall cached e t, (runRounds pair s).1 = Ok (cached, e, t) -> cached = false) /\
  cache (runRounds pair s).2 = cache s /\
  exists new,
    events (runRounds pair s).2 = new ++ events s /\
    Forall (fun ev => is_play ev \/ ev = EvImport pair.1 \/ ev = EvImport pair.2) new.
Proof.
  intros Huse.
  destruct (runRounds_shape pair s)
    as [(Huse' & _) | (_ & s1 & (Hc & new & Hev & Hnew) & Hout)]; [congruence|].
  assert (Hnew' : Forall (fun ev => is_play ev \/ ev = EvImport pair.1 \/ ev = EvImport pair.2)
                    new).
  { eapply Forall_impl; [exact Hnew|]. unfold is_miss_event.
    intros ev [H | [H | [H | [H _]]]]; auto. congruence. }
  destruct Hout as [(e & ->) | (e & t & ->)]; cbn [fst snd].
  - split; [done|]. split; [done|]. by exists new.
  - unfold stored. rewrite Huse. split; [by intros ? ? ? [= <- _ _]|].
    split; [done|]. by exists new.
Qed.

(** ** Scores of a round, whatever the history holds *)

Lemma py_index_raise {A} (l : list A) (i : Z) (e : exn) :
  py_index l i = Raise e -> e = IndexError.
Proof.
  unfold py_index. destruct (_ && _); [|by intros [= <-]].
  destruct (_ !! _); [done|by intros [= <-]].
Qed.

Lemma points_raise (a b : Z) (e : exn) : points a b = Raise e -> e = IndexError.
Proof.
  unfold points. destruct (py_index pointsArray a) as [row|e'] eqn:E; cbn.
  - apply py_index_raise.
  - intros [= <-]. by apply py_index_raise in E.
Qed.

Lemma py_index_pair {A} (x y : A) (i : Z) (v : A) :
  py_index [x; y] i = Ok v ->
  (i = -2 \/ i = 0) /\ v = x \/ (i = -1 \/ i = 1) /\ v = y.
Proof.
  unfold py_index. cbn [length].
  destruct (Z.ltb_spec i 0) as [Hi | Hi];
    (destruct (_ && _) eqn:Hr; [|done]);
    apply andb_prop in Hr as [H1%Z.leb_le H2%Z.ltb_lt].
  - assert (i = -2 \/ i = -1) as [-> | ->] by lia; cbn; intros [= <-]; auto.
  - assert (i = 0 \/ i = 1) as [-> | ->] by lia; cbn; intros [= <-]; auto.
Qed.

(** What the table pays the two sides of one turn. *)
Lemma points_both (a b pA pB : Z) :
  points a b = Ok pA -> points b a = Ok pB ->
  0 <= pA <= 5 /\ 0 <= pB <= 5 /\ 2 <= pA + pB <= 6.
Proof.
  unfold points, pointsArray.
  destruct (py_index [[1; 5]; [0; 3]] a) as [ra|] eqn:Ea; [|done].
  destruct (py_index [[1; 5]; [0; 3]] b) as [rb|] eqn:Eb; [|done].
  cbn. intros Ha Hb.
  apply py_index_pair in Ea as [[Ha' ->] | [Ha' ->]];
    apply py_index_pair in Eb as [[Hb' ->] | [Hb' ->]];
    apply py_index_pair in Ha as [[Ha2 ->] | [Ha2 ->]];
    apply py_index_pair in Hb as [[Hb2 ->] | [Hb2 ->]]; lia.
Qed.

Lemma add_points_bounds (h : grid) (scores scores' : Z * Z) (k : nat) :
  add_points h scores k = Ok scores' ->
  scores.1 <= scores'.1 <= scores.1 + 5 /\
  scores.2 <= scores'.2 <= scores.2 + 5 /\
  scores.1 + scores.2 + 2 <= scores'.1 + scores'.2 <= scores.1 + scores.2 + 6.
Proof.
  unfold add_points.
  destruct (cell h 0 k) as [a|]; [|done].
  destruct (cell h 1 k) as [b|]; [|done]. cbn.
  destruct (points a b) as [pA|] eqn:EA; [|done].
  destruct (points b a) as [pB|] eqn:EB; [|done]. cbn.
  intros [= <-]. cbn [fst snd].
  pose proof (points_both a b pA pB EA EB). lia.
Qed.

Lemma add_points_loop_bounds (h : grid) (l : list nat) (scores scores' : Z * Z) :
  for_each (add_points h) l scores = Ok scores' ->
  let n := Z.of_nat (length l) in
  scores.1 <= scores'.1 <= scores.1 + 5 * n /\
  scores.2 <= scores'.2 <= scores.2 + 5 * n /\
  scores.1 + scores.2 + 2 * n <= scores'.1 + scores'.2 <= scores.1 + scores.2 + 6 * n.
Proof.
  revert scores. induction l as [|k l IH]; intros scores; cbn [for_each length].
  - intros [= <-]. cbn. lia.
  - destruct (add_points h scores k) as [sc|] eqn:E; [|done]. cbn.
    intros H. apply IH in H. apply add_points_bounds in E. cbn zeta in H. lia.
Qed.

Lemma Qc_of_Z_pos (n : Z) : 0 < n -> (0 < Qc_of_Z n)%Qc.
Proof. intros H. rewrite <- Z2Qc_inj_0. by apply (proj1 (Z2Qc_inj_lt 0 n)). Qed.

Lemma Qc_of_Z_nonzero (n : Z) : 0 < n -> Qc_of_Z n <> 0%Qc.
Proof. intros H E. rewrite <- Z2Qc_inj_0 in E. apply Z2Qc_inj in E. lia. Qed.

Lemma Qc_div_bounds (lo hi s n : Z) :
  0 < n -> lo * n <= s <= hi * n ->
  (Qc_of_Z lo <= Qc_of_Z s / Qc_of_Z n)%Qc /\ (Qc_of_Z s / Qc_of_Z n <= Qc_of_Z hi)%Qc.
Proof.
  intros Hn [H1 H2]. pose proof (Qc_of_Z_pos n Hn) as Hp.
  pose proof (Qc_of_Z_nonzero n Hn) as Hz.
  split; apply (Qcmult_le_mono_pos_r _ _ _ Hp); rewrite test_field by done;
    rewrite <- Z2Qc_inj_mul; by apply (proj1 (Z2Qc_inj_le _ _)).
Qed.

(** X5.  Whatever a history holds, if [tallyRoundScores] returns at all, each
    average lies between 0 and 5 points a turn, and the two together between
    2 and 6. *)
Theorem tallyRoundScores_bounds (history : grid) (scoreA scoreB : Qc) :
  tallyRoundScores history = Ok (scoreA, scoreB) ->
  (0 <= scoreA)%Qc /\ (scoreA <= Qc_of_Z 5)%Qc /\
  (0 <= scoreB)%Qc /\ (scoreB <= Qc_of_Z 5)%Qc /\
  (Qc_of_Z 2 <= scoreA + scoreB)%Qc /\ (scoreA + scoreB <= Qc_of_Z 6)%Qc.
Proof.
  unfold tallyRoundScores.
  destruct (for_each _ _ _) as [sc|] eqn:E; [|done]. cbn.
  case_bool_decide as Hw; [done|]. intros [= <- <-].
  apply add_points_loop_bounds in E. cbn zeta in E. cbn [fst snd] in E.
  unfold range in E. rewrite length_seq, Nat.sub_0_r in E.
  set (n := Z.of_nat (width history)) in *.
  assert (Hn : 0 < n) by (unfold n; lia).
  destruct (Qc_div_bounds 0 5 sc.1 n Hn ltac:(lia)) as [A1 A2].
  destruct (Qc_div_bounds 0 5 sc.2 n Hn ltac:(lia)) as [B1 B2].
  destruct (Qc_div_bounds 2 6 (sc.1 + sc.2) n Hn ltac:(lia)) as [C1 C2].
  assert (Hsum : (Qc_of_Z sc.1 / Qc_of_Z n + Qc_of_Z sc.2 / Qc_of_Z n
                  = Qc_of_Z (sc.1 + sc.2) / Qc_of_Z n)%Qc).
  { rewrite Z2Qc_inj_add. field. by apply Qc_of_Z_nonzero. }
  rewrite Hsum. rewrite Z2Qc_inj_0 in A1, B1. done.
Qed.

Lemma add_points_raise (h : grid) (scores : Z * Z) (k : nat) (e : exn) :
  add_points h scores k = Raise e -> e = IndexError.
Proof.
  unfold add_points, cell.
  destruct (row0 h !! k) as [a|]; cbn; [|by intros [= <-]].
  destruct (row1 h !! k) as [b|]; cbn; [|by intros [= <-]].
  destruct (points a b) as [pA|e'] eqn:EA; cbn;
    [|intros [= <-]; by apply points_raise in EA].
  destruct (points b a) as [pB|e'] eqn:EB; cbn; [done|].
  intros [= <-]. by apply points_raise in EB.
Qed.

Lemma add_points_loop_raise (h : grid) (l : list nat) (scores : Z * Z) (e : exn) :
  for_each (add_points h) l scores = Raise e -> e = IndexError.
Proof.
  revert scores. induction l as [|k l IH]; intros scores; cbn [for_each]; [done|].
  destruct (add_points h scores k) as [sc|e'] eqn:E; cbn.
  - apply IH.
  - intros [= <-]. by apply add_points_raise in E.
Qed.

(** X6.  [tallyRoundScores] divides by the number of turns: it raises
    ZeroDivisionError exactly on a history without a turn.  The only other
    way it can fail is the IndexError of a cell that is no index into
    [pointsArray]. *)
Theorem tallyRoundScores_no_turns (history : grid) :
  (tallyRoundScores history = Raise ZeroDivisionError <-> width history = 0%nat) /\
  (forall e, tallyRoundScores history = Raise e ->
             e = ZeroDivisionError \/ e = IndexError).
Proof.
  unfold tallyRoundScores. split; [split|].
  - destruct (for_each _ _ _) as [sc|e] eqn:E; cbn.
    + by case_bool_decide.
    + intros [= ->]. by apply add_points_loop_raise in E.
  - intros ->. by cbn.
  - intros e. destruct (for_each _ _ _) as [sc|e'] eqn:E; cbn.
    + case_bool_decide; [|done]. intros [= <-]. by left.
    + intros [= <-]. right. by apply add_points_loop_raise in E.
Qed.

Lemma add_points_flip (h : grid) (x y : Z) (k : nat) :
  add_points (flip h) (y, x) k
  = match add_points h (x, y) k with
    | Ok (a, b) => Ok (b, a)
    | Raise e => Raise e
    end.
Proof.
  unfold add_points, cell, flip. cbn [row0 row1 fst snd].
  destruct (row0 h !! k) as [a|], (row1 h !! k) as [b|]; cbn; try done.
  destruct (points a b) as [pA|eA] eqn:EA, (points b a) as [pB|eB] eqn:EB; cbn; try done.
  apply points_raise in EA. apply points_raise in EB. by subst.
Qed.

Lemma add_points_loop_flip (h : grid) (l : list nat) (x y : Z) :
  for_each (add_points (flip h)) l (y, x)
  = match for_each (add_points h) l (x, y) with
    | Ok (a, b) => Ok (b, a)
    | Raise e => Raise e
    end.
Proof.
  revert x y. induction l as [|k l IH]; intros x y; cbn [for_each]; [done|].
  rewrite add_points_flip.
  destruct (add_points h (x, y) k) as [[a b]|e]; cbn; [apply IH|done].
Qed.

(** X7.  Exchanging the two rows of a history exchanges the two scores. *)
Theorem tallyRoundScores_flip (history : grid) :
  length (row1 history) = length (row0 history) ->
  tallyRoundScores (flip history)
  = match tallyRoundScores history with
    | Ok (scoreA, scoreB) => Ok (scoreB, scoreA)
    | Raise e => Raise e
    end.
Proof.
  intros Hl. unfold tallyRoundScores.
  replace (width (flip history)) with (width history) by (unfold width, flip; by cbn).
  rewrite (add_points_loop_flip history _ 0 0).
  destruct (for_each (add_points history) _ _) as [[a b]|e]; cbn; [|done].
  by case_bool_decide.
Qed.

(** ** The second array is the first with its rows exchanged *)

Lemma bind_lift_raise {A B} (e : exn) (k : A -> eff W B) (s : state W) :
  (lift (Raise e) ≫= k) s = (Raise e, s).
Proof. reflexivity. Qed.

Lemma row_store_Ok (l l' : list Z) (i : nat) (v : Z) :
  row_store l i v = Ok l' -> l' = <[i := v]> l /\ (i < length l)%nat.
Proof.
  unfold row_store. case_bool_decide; [|done]. destruct (int64 v); [|done].
  by intros [= <-].
Qed.

(** The four stores of one turn keep the second array the exchange of the
    first. *)
Lemma flipped_step (h h1 h2 hf hf1 hf2 : grid) (turn : nat) (a b va vb : Z) :
  hf = flip h ->
  store h 0 turn a = Ok h1 -> store h1 1 turn b = Ok h2 ->
  cell h2 1 turn = Ok vb -> store hf 0 turn vb = Ok hf1 ->
  cell h2 0 turn = Ok va -> store hf1 1 turn va = Ok hf2 ->
  hf2 = flip h2.
Proof.
  intros -> E1 E2 Eb E3 Ea E4. unfold store in *.
  destruct (row_store (row0 h) turn a) as [r0|] eqn:R0; [|done].
  cbn in E1. injection E1 as <-. cbn [row0 row1] in *.
  destruct (row_store (row1 h) turn b) as [r1|] eqn:R1; [|done].
  cbn in E2. injection E2 as <-.
  apply row_store_Ok in R0 as [-> L0]. apply row_store_Ok in R1 as [-> L1].
  unfold cell in Ea, Eb. cbn [row0 row1] in Ea, Eb.
  rewrite list_lookup_insert_eq in Ea by done. injection Ea as <-.
  rewrite list_lookup_insert_eq in Eb by done. injection Eb as <-.
  unfold flip in E3. cbn [row0 row1] in E3.
  destruct (row_store (row1 h) turn b) as [f0|] eqn:F0; [|done].
  cbn in E3. injection E3 as <-. cbn [row0 row1] in E4.
  destruct (row_store (row0 h) turn a) as [f1|] eqn:F1; [|done].
  cbn in E4. injection E4 as <-.
  apply row_store_Ok in F0 as [-> _]. apply row_store_Ok in F1 as [-> _].
  reflexivity.
Qed.

Lemma runRound_turn_flipped (mA mB : module M W) (st st' : round_state)
    (turn : nat) (s s' : state W) :
  historyFlipped st = flip (history st) ->
  runRound_turn mA mB st turn s = (Ok st', s') ->
  historyFlipped st' = flip (history st').
Proof.
  intros Hf. unfold runRound_turn.
  rewrite (bind_ok _ _ _ _ _ (call_eq _ _ _ _)). cbn [world cache events].
  destruct (strategy mA _ _ _) as [[a memA] w1]. cbn [fst snd].
  rewrite (bind_ok _ _ _ _ _ (call_eq _ _ _ _)). cbn [world cache events].
  destruct (strategy mB _ _ _) as [[b memB] w2]. cbn [fst snd].
  destruct (store (history st) 0 turn _) as [h1|] eqn:E1; [|done].
  rewrite bind_lift_ok.
  destruct (store h1 1 turn _) as [h2|] eqn:E2; [|done].
  rewrite bind_lift_ok.
  destruct (cell h2 1 turn) as [vb|] eqn:Eb; [|done].
  rewrite bind_lift_ok.
  destruct (store (historyFlipped st) 0 turn vb) as [hf1|] eqn:E3; [|done].
  rewrite bind_lift_ok.
  destruct (cell h2 0 turn) as [va|] eqn:Ea; [|done].
  rewrite bind_lift_ok.
  destruct (store hf1 1 turn va) as [hf2|] eqn:E4; [|done].
  rewrite bind_lift_ok.
  intros [= <- _]. cbn [history historyFlipped].
  exact (flipped_step _ _ _ _ _ _ _ _ _ _ _ Hf E1 E2 Eb E3 Ea E4).
Qed.

(** What holds before a loop and is kept by every turn that returns holds
    after the loop, if the loop returns. *)
Lemma for_each_kept {S I} (P : S -> Prop) (body : S -> I -> eff W S) (l : list I) :
  (forall st i s st' s', P st -> body st i s = (Ok st', s') -> P st') ->
  forall st s st' s', P st -> for_each body l st s = (Ok st', s') -> P st'.
Proof.
  intros Hbody. induction l as [|i l IH]; intros st s st' s' HP; cbn [for_each].
  - by intros [= <- _].
  - destruct (body st i s) as [[st1|e] s1] eqn:E.
    + rewrite (bind_ok _ _ _ _ _ E). apply IH. by eapply Hbody.
    + by rewrite (bind_raise _ _ _ _ _ E).
Qed.

(** X8.  Whatever the strategies return, a round that ends has kept its
    second array the first with the rows exchanged: the second player has
    seen, turn after turn, the same game as the first, its own moves in
    row 0. *)
Theorem runRound_flipped (moduleA moduleB : module M W) (s s' : state W)
    (st : round_state) :
  runRound_play moduleA moduleB s = (Ok st, s') ->
  historyFlipped st = flip (history st).
Proof.
  unfold runRound_play.
  rewrite (bind_ok _ _ _ _ _ (log_eq _ _)), (bind_ok _ _ _ _ _ (draw_eq _)).
  cbv zeta. destruct (_ <? 0); [done|].
  apply (for_each_kept (fun st => historyFlipped st = flip (history st))).
  - intros st0 i s0 st1 s1. apply runRound_turn_flipped.
  - reflexivity.
Qed.

(** ** Strategies that are functions of their arguments *)

Lemma play_turn_pure (mA mB : module M W) (st : play_state) :
  pure_strategy mA -> pure_strategy mB ->
  p_memoryA2 st = p_memoryA st -> p_memoryB2 st = p_memoryB st ->
  probes_agree (play_turn mA mB st).1 /\
  p_memoryA2 (play_turn mA mB st).2 = p_memoryA (play_turn mA mB st).2 /\
  p_memoryB2 (play_turn mA mB st).2 = p_memoryB (play_turn mA mB st).2.
Proof.
  intros HA HB EA EB. unfold play_turn. rewrite EA, EB.
  destruct (strategy mA _ (p_memoryA st) (p_world st)) as [[a memA] w1] eqn:S1.
  destruct (strategy mB _ (p_memoryB st) w1) as [[b memB] w2] eqn:S2.
  rewrite (HA _ _ (p_world st) w2), S1. cbn [fst].
  rewrite (HB _ _ w1 w2), S2. cbn [fst].
  by repeat split.
Qed.

Lemma play_pure (mA mB : module M W) (w : W) (n : nat) :
  pure_strategy mA -> pure_strategy mB ->
  p_memoryA2 (play mA mB w n) = p_memoryA (play mA mB w n) /\
  p_memoryB2 (play mA mB w n) = p_memoryB (play mA mB w n).
Proof.
  intros HA HB. induction n as [|n [IHa IHb]]; [done|].
  cbn [play]. by destruct (play_turn_pure mA mB _ HA HB IHa IHb) as (_ & ? & ?).
Qed.

(** X9.  Two strategies that are functions of their arguments alone, and
    return moves, are never sent to the stochastic rounds:
    [runDeterministic] does not return [False] for them. *)
Theorem pure_strategies_deterministic (moduleA moduleB : module M W) (s : state W) :
  pure_strategy moduleA -> pure_strategy moduleB ->
  returns_moves moduleA -> returns_moves moduleB ->
  (199 <= DETERMINISTIC_TURNS)%nat ->
  exists totals history,
    (runDeterministic moduleA moduleB s).1 = Ok (DetTotals totals history).
Proof.
  intros PA PB HA HB Hd.
  destruct (runDeterministic_play moduleA moduleB s HA HB Hd)
    as (s' & _ & [(_ & E) | ((t & _ & Hneg) & _)]).
  - rewrite E. by eexists _, _.
  - destruct Hneg. unfold moves_at.
    destruct (play_pure moduleA moduleB (world s) t PA PB) as [Ea Eb].
    by destruct (play_turn_pure moduleA moduleB _ PA PB Ea Eb) as (? & _).
Qed.

(** ** The deterministic path of runRounds *)

Lemma statistics_mean_one (x : Qc) : statistics_mean [x] = Ok x.
Proof.
  unfold statistics_mean, py_sum. cbn [length fold_left]. f_equal.
  change (Z.of_nat 1) with 1. rewrite Z2Qc_inj_1. field. intros E. discriminate E.
Qed.

Lemma bind_ret_ok {A B} (a : A) (k : A -> eff W B) (s : state W) :
  (mret a ≫= k) s = k a s.
Proof. reflexivity. Qed.

(** X10.  A pairing that passes the determinism check is computed without a
    single stochastic round: its two scores are the exact expected averages
    of the one history, both deviations are 0, and that history is the one
    reported. *)
Theorem runRounds_deterministic (pair : pairing) (s : state W) :
  let moduleA := import_module pair.1 in
  let moduleB := import_module pair.2 in
  let w := (time_time (world s)).2 in
  let final := play moduleA moduleB w DETERMINISTIC_TURNS in
  let h := Grid (p_movesA final) (p_movesB final) in
  returns_moves moduleA -> returns_moves moduleB ->
  (199 <= DETERMINISTIC_TURNS)%nat ->
  use_cache args = false \/ cache s !! pair = None ->
  (forall t, (t < DETERMINISTIC_TURNS)%nat -> probes_agree (moves_at moduleA moduleB w t)) ->
  exists e t,
    (runRounds pair s).1 = Ok (false, e, t) /\
    e_avgScoreA e = expected_average h 0 /\
    e_avgScoreB e = expected_average h 1 /\
    e_stdevA e = 0%Qc /\ e_stdevB e = 0%Qc /\
    e_firstRoundHistory e = h /\
    rounds_run (events (runRounds pair s).2) = rounds_run (events s).
Proof.
  intros moduleA moduleB w final h HA HB Hd Hmiss Hall.
  rewrite runRounds_unfold.
  set (s0 := if use_cache args
             then State (world s) (cache s) (EvCacheGet pair :: events s) else s).
  assert (E0 : (if use_cache args then cache_get pair else mret None) s = (Ok None, s0)).
  { unfold s0. destruct (use_cache args).
    - rewrite cache_get_eq. destruct Hmiss as [Hoff | Hnone]; [done|]. by rewrite Hnone.
    - done. }
  assert (Hw0 : world s0 = world s) by (unfold s0; by destruct (use_cache args)).
  assert (Hr0 : rounds_run (events s0) = rounds_run (events s))
    by (unfold s0; by destruct (use_cache args)).
  rewrite (bind_ok _ _ _ _ _ E0). unfold runRounds_compute.
  rewrite (bind_ok _ _ _ _ _ (clock_eq _)).
  rewrite (bind_ok _ _ _ _ _ (load_eq _ _)), (bind_ok _ _ _ _ _ (load_eq _ _)).
  cbn [world cache events]. rewrite Hw0.
  fold moduleA moduleB w.
  match goal with
  | |- context [mbind _ (runDeterministic _ _) ?s1] =>
      destruct (runDeterministic_play moduleA moduleB s1 HA HB Hd)
      as (s2 & Hc2 & [(_ & E2) | ((t & Ht & Hneg) & _)])
  end.
  2: { destruct Hneg. by apply Hall. }
  cbn [world] in E2. fold w final h in E2.
  rewrite (bind_ok _ _ _ _ _ E2).
  rewrite bind_ret_ok. cbn [fst snd].
  destruct (runRounds_finish_shape pair (time_time (world s)).1
              (Samples [expected_average h 0] [expected_average h 1] (Some h)) s2)
    as [(e & He & _) | (avgA & avgB & first & EA & EB & Ef & E)].
  - exfalso. revert He. unfold runRounds_finish. cbn [allScoresA allScoresB].
    rewrite !statistics_mean_one, !bind_lift_ok, (bind_ok _ _ _ _ _ (clock_eq _)).
    cbn [firstRoundHistory]. by destruct (use_cache args).
  - cbn [allScoresA allScoresB firstRoundHistory length] in *.
    rewrite statistics_mean_one in EA, EB. injection EA as <-. injection EB as <-.
    injection Ef as <-. cbn [fst snd]. rewrite E. cbn [fst snd].
    eexists _, _. split; [reflexivity|]. cbn [e_avgScoreA e_avgScoreB e_stdevA e_stdevB
                                             e_firstRoundHistory].
    do 5 (split; [done|]).
    apply calls_only_rounds in Hc2. cbn [events] in Hc2.
    unfold stored. destruct (use_cache args); cbn [events];
      unfold rounds_run in *; cbn in *; lia.
Qed.

(** X11.  A pairing that fails the determinism check when no run is asked
    for ([--num-runs] 0 or less) has no score to average: [runRounds] raises
    StatisticsError, and nothing is stored. *)
Theorem runRounds_no_samples (pair : pairing) (s : state W) :
  let moduleA := import_module pair.1 in
  let moduleB := import_module pair.2 in
  returns_moves moduleA -> returns_moves moduleB ->
  (199 <= DETERMINISTIC_TURNS)%nat ->
  use_cache args = false \/ cache s !! pair = None ->
  (exists t, (t < DETERMINISTIC_TURNS)%nat /\
     ~ probes_agree (moves_at moduleA moduleB (time_time (world s)).2 t)) ->
  NUM_RUNS <= 0 ->
  (runRounds pair s).1 = Raise StatisticsError /\
  cache (runRounds pair s).2 = cache s.
Proof.
  intros moduleA moduleB HA HB Hd Hmiss Hdis Hn.
  assert (E : (runRounds pair s).1 = Raise StatisticsError).
  { rewrite runRounds_unfold.
    set (s0 := if use_cache args
               then State (world s) (cache s) (EvCacheGet pair :: events s) else s).
    assert (E0 : (if use_cache args then cache_get pair else mret None) s = (Ok None, s0)).
    { unfold s0. destruct (use_cache args).
      - rewrite cache_get_eq. destruct Hmiss as [Hoff | Hnone]; [done|]. by rewrite Hnone.
      - done. }
    assert (Hw0 : world s0 = world s) by (unfold s0; by destruct (use_cache args)).
    rewrite (bind_ok _ _ _ _ _ E0). unfold runRounds_compute.
    rewrite (bind_ok _ _ _ _ _ (clock_eq _)).
    rewrite (bind_ok _ _ _ _ _ (load_eq _ _)), (bind_ok _ _ _ _ _ (load_eq _ _)).
    cbn [world cache events]. rewrite Hw0. fold moduleA moduleB.
    match goal with
    | |- context [mbind _ (runDeterministic _ _) ?s1] =>
        destruct (runDeterministic_play moduleA moduleB s1 HA HB Hd)
        as (s2 & _ & [(Hall & _) | (_ & E2)])
    end.
    { destruct Hdis as (t & Ht & Hneg). destruct Hneg. by apply Hall. }
    rewrite (bind_ok _ _ _ _ _ E2).
    replace (Z.to_nat NUM_RUNS) with 0%nat by lia.
    reflexivity. }
  split; [done|].
  destruct (runRounds_shape pair s)
    as [(_ & e & _ & E') | (_ & s1 & (Hc & _) & [(e & E') | (e & t & E')])];
    rewrite E' in E |- *; try discriminate E. done.
Qed.

(** ** The pairings of a tournament *)

Lemma dispatched_app (new l : list event) :
  dispatched (new ++ l) = dispatched l ++ dispatched new.
Proof.
  induction new as [|ev new IH]; cbn [app dispatched]; [by rewrite app_nil_r|].
  destruct ev; try done. by rewrite IH, app_assoc.
Qed.

Lemma dispatched_none (P : event -> Prop) (new : list event) :
  (forall pair, ~ P (EvDispatch pair)) -> Forall P new -> dispatched new = [].
Proof.
  intros HP. induction 1 as [|ev new Hev _ IH]; [done|].
  destruct ev as [| |p|p| |p|n|n| | |]; try done. by destruct (HP p).
Qed.

(** [runRounds] hands nothing to the pool. *)
Lemma runRounds_dispatched (pair : pairing) (s : state W) :
  dispatched (events (runRounds pair s).2) = dispatched (events s).
Proof.
  assert (Hmiss : forall p, ~ is_miss_event pair (EvDispatch p)).
  { intros p [H | [H | [H | [_ H]]]]; done. }
  destruct (runRounds_shape pair s)
    as [(_ & e & _ & ->) | (_ & s1 & (_ & new & Hev & Hnew) & [(e & ->) | (e & t & ->)])];
    cbn [fst snd events dispatched]; [done| |].
  - by rewrite Hev, dispatched_app, (dispatched_none _ _ Hmiss Hnew), app_nil_r.
  - unfold stored. destruct (use_cache args); cbn [events dispatched];
      by rewrite Hev, dispatched_app, (dispatched_none _ _ Hmiss Hnew), app_nil_r.
Qed.

Lemma collect_allResults (t t' : tally) (pair : pairing) (res : pair_result) :
  collect t pair res = Ok t' ->
  (allResults t').*1 = (allResults t).*1 ++ [pair].
Proof.
  unfold collect. destruct res as [[cached e] pairTime]. destruct pair as [nameA nameB].
  destruct (dict_add (strategyTimes t) nameA pairTime) as [t1|]; [|done]. cbn.
  destruct (dict_add t1 nameB pairTime) as [t2|]; [|done]. cbn.
  destruct (dict_add (scoreKeeper t) nameA _) as [k1|]; [|done]. cbn.
  destruct (dict_add k1 nameB _) as [k2|]; [|done]. cbn.
  intros [= <-]. cbn [allResults]. by rewrite fmap_app.
Qed.

Lemma pool_step_dispatched (t : tally) (pair : pairing) (s : state W) :
  dispatched (events (pool_step t pair s).2) = dispatched (events s) ++ [pair] /\
  forall t', (pool_step t pair s).1 = Ok t' ->
             (allResults t').*1 = (allResults t).*1 ++ [pair].
Proof.
  unfold pool_step. rewrite (bind_ok _ _ _ _ _ (log_eq _ _)).
  set (s0 := State (world s) (cache s) (EvDispatch pair :: events s)).
  pose proof (runRounds_dispatched pair s0) as Hd.
  destruct (runRounds pair s0) as [[res|e] s1] eqn:E; cbn [fst snd] in Hd.
  - rewrite (bind_ok _ _ _ _ _ E). unfold lift. cbn [fst snd]. split; [done|].
    intros t' Ht'. exact (collect_allResults _ _ _ _ Ht').
  - rewrite (bind_raise _ _ _ _ _ E). cbn [fst snd]. by split.
Qed.

(** The pool's loop: the pairings of the list are handed out in order, up
    to the one that raises, and a loop that ends has a result for each. *)
Lemma pool_loop_dispatched (l : list pairing) (t : tally) (s : state W) :
  exists handed,
    handed `prefix_of` l /\
    dispatched (events (for_each pool_step l t s).2) = dispatched (events s) ++ handed /\
    forall t', (for_each pool_step l t s).1 = Ok t' ->
               handed = l /\ (allResults t').*1 = (allResults t).*1 ++ l.
Proof.
  revert t s. induction l as [|pair l IH]; intros t s; cbn [for_each].
  - exists []. split; [done|]. split; [by rewrite app_nil_r|].
    intros t' [= <-]. by rewrite app_nil_r.
  - destruct (pool_step_dispatched t pair s) as [Hd Hres].
    destruct (pool_step t pair s) as [[t1|e] s1] eqn:E; cbn [fst snd] in Hd, Hres.
    + rewrite (bind_ok _ _ _ _ _ E).
      destruct (IH t1 s1) as (handed & Hp & Hd' & Hok).
      exists (pair :: handed). split; [by apply prefix_cons|].
      split; [by rewrite Hd', Hd, <- app_assoc|].
      intros t' Ht'. destruct (Hok t' Ht') as [-> Hr]. split; [done|].
      by rewrite Hr, (Hres t1 eq_refl), <- app_assoc.
    + rewrite (bind_raise _ _ _ _ _ E). cbn [fst snd].
      exists [pair]. split; [apply prefix_cons, prefix_nil|]. by split.
Qed.

Lemma tournament_dispatched (inFolders : list string) (s : state W) :
  exists handed,
    handed `prefix_of` pairings inFolders /\
    dispatched (events (runFullPairingTournament inFolders s).2)
    = dispatched (events s) ++ handed /\
    forall t r, (runFullPairingTournament inFolders s).1 = Ok (t, r) ->
                handed = pairings inFolders /\ (allResults t).*1 = pairings inFolders.
Proof.
  unfold runFullPairingTournament.
  set (s1 := if delete_cache args
             then State (world s) ∅ (EvCacheDelete :: events s) else s).
  assert (E1 : (if delete_cache args then cache_remove else mret tt) s = (Ok tt, s1))
    by (unfold s1; by destruct (delete_cache args)).
  set (s2 := if use_cache args
             then State (world s1) (cache s1) (EvCacheSetup :: events s1) else s1).
  assert (E2 : (if use_cache args then cache_setup else mret tt) s1 = (Ok tt, s2))
    by (unfold s2; by destruct (use_cache args)).
  assert (Hd : dispatched (events s2) = dispatched (events s)).
  { unfold s2, s1. by destruct (use_cache args), (delete_cache args). }
  rewrite (bind_ok _ _ _ _ _ E1), (bind_ok _ _ _ _ _ E2). cbv zeta.
  case_bool_decide as Hlen.
  - exists []. split; [apply prefix_nil|]. cbn [fst snd].
    split; [by rewrite app_nil_r|]. done.
  - fold (pairings inFolders).
    destruct (pool_loop_dispatched (pairings inFolders)
                (Tally 0 (zeros_dict (STRATEGY_LIST inFolders)) [] []
                   (zeros_dict (STRATEGY_LIST inFolders))) s2)
      as (handed & Hp & Hd' & Hok).
    exists handed. split; [done|].
    destruct (for_each pool_step _ _ s2) as [[t1|e] s3] eqn:E; cbn [fst snd] in Hd', Hok.
    + rewrite (bind_ok _ _ _ _ _ E).
      destruct (rank_strategies _ _) as [r|e].
      * rewrite bind_lift_ok. unfold mret, eff_ret. cbn [fst snd].
        split; [by rewrite Hd', Hd|]. intros t r' [= <- _]. by apply Hok.
      * rewrite bind_lift_raise. cbn [fst snd]. split; [by rewrite Hd', Hd|]. done.
    + rewrite (bind_raise _ _ _ _ _ E). cbn [fst snd].
      split; [by rewrite Hd', Hd|]. done.
Qed.

Lemma combinations_spec {A} (l : list A) (x y : A) :
  (x, y) ∈ combinations l <->
  exists i j, (i < j)%nat /\ l !! i = Some x /\ l !! j = Some y.
Proof.
  induction l as [|a l IH]; cbn [combinations].
  - split; [by intros ?%elem_of_nil|]. by intros (i & j & _ & ? & _).
  - rewrite elem_of_app, list_elem_of_fmap, IH. split.
    + intros [(z & [= -> ->] & Hz) | (i & j & Hij & Hi & Hj)].
      * apply list_elem_of_lookup in Hz as [j Hj]. exists 0%nat, (S j).
        split; [lia|]. by split.
      * exists (S i), (S j). split; [lia|]. by split.
    + intros (i & j & Hij & Hi & Hj). destruct j as [|j]; [lia|]. cbn in Hj.
      destruct i as [|i]; cbn in Hi.
      * injection Hi as ->. left. exists y. split; [done|].
        by apply list_elem_of_lookup_2 in Hj.
      * right. exists i, j. split; [lia|]. by split.
Qed.

Lemma combinations_length {A} (l : list A) :
  (length (combinations l) * 2 = length l * (length l - 1))%nat.
Proof.
  induction l as [|a l IH]; [done|].
  cbn [combinations length]. rewrite length_app, length_map. nia.
Qed.

Lemma combinations_NoDup {A} (l : list A) : NoDup l -> NoDup (combinations l).
Proof.
  induction 1 as [|a l Ha Hl IH]; cbn [combinations]; [constructor|].
  apply NoDup_app. split; [|split; [|done]].
  - apply NoDup_fmap_2; [|done]. by intros y z [= ->].
  - intros [x y] (z & [= -> ->] & Hz)%list_elem_of_fmap Hc.
    apply combinations_spec in Hc as (i & j & _ & Hi & _).
    by apply list_elem_of_lookup_2 in Hi.
Qed.

(** X12.  A tournament that ends has handed every pairing of its list to
    the pool, in the order of the list, and holds one result for each in
    that order; unless a single [--strategies] name filters the list, that is
    n (n - 1) / 2 results for n strategies. *)
Theorem tournament_plays_every_pairing (inFolders : list string) (s s' : state W)
    (t : tally) (r : ranking) :
  runFullPairingTournament inFolders s = (Ok (t, r), s') ->
  dispatched (events s') = dispatched (events s) ++ pairings inFolders /\
  (allResults t).*1 = pairings inFolders /\
  ((forall only, strategies args <> Some [only]) ->
   (length (allResults t) * 2
    = length (STRATEGY_LIST inFolders) * (length (STRATEGY_LIST inFolders) - 1))%nat).
Proof.
  intros E. destruct (tournament_dispatched inFolders s) as (handed & _ & Hd & Hok).
  rewrite E in Hd, Hok. cbn [fst snd] in Hd, Hok.
  destruct (Hok t r eq_refl) as [-> Hres].
  split; [done|]. split; [done|]. intros Hall.
  rewrite <- (length_fmap fst), Hres. unfold pairings.
  destruct (strategies args) as [[|only [|]]|] eqn:Hs;
    try apply combinations_length.
  by destruct (Hall only).
Qed.

(** X13.  Whatever the outcome, a pairing handed to the pool puts a
    strategy of the list before one that comes later in the list; with
    distinct names no pairing is handed out twice; and with a single
    [--strategies] name every pairing handed out has that strategy on one
    side. *)
Theorem tournament_pairings_sound (inFolders : list string) (s : state W) :
  exists handed,
    dispatched (events (runFullPairingTournament inFolders s).2)
    = dispatched (events s) ++ handed /\
    (forall pair, pair ∈ handed ->
       (exists i j, (i < j)%nat /\ STRATEGY_LIST inFolders !! i = Some pair.1 /\
                    STRATEGY_LIST inFolders !! j = Some pair.2) /\
       (forall only, strategies args = Some [only] -> pair.1 = only \/ pair.2 = only)) /\
    (NoDup (STRATEGY_LIST inFolders) -> NoDup handed).
Proof.
  destruct (tournament_dispatched inFolders s) as (handed & [rest Hp] & Hd & _).
  exists handed. split; [done|].
  assert (Hsub : forall pair, pair ∈ pairings inFolders ->
            pair ∈ combinations (STRATEGY_LIST inFolders) /\
            (forall only, strategies args = Some [only] -> pair.1 = only \/ pair.2 = only)).
  { intros pair. unfold pairings.
    destruct (strategies args) as [[|only [|]]|]; try (intros H; split; [done|]; done).
    intros [H1 H2]%list_elem_of_filter. split; [done|]. by intros ? [= <-]. }
  split.
  - intros [x y] Hin.
    destruct (Hsub (x, y)) as [Hc Honly]; [rewrite Hp; apply elem_of_app; by left|].
    split; [|done]. by apply combinations_spec.
  - intros Hnd.
    assert (Hall : NoDup (pairings inFolders)).
    { unfold pairings.
      destruct (strategies args) as [[|only [|]]|]; try by apply combinations_NoDup.
      by apply NoDup_filter, combinations_NoDup. }
    rewrite Hp in Hall. by apply NoDup_app in Hall as [? _].
Qed.

(** ** Cache hits of a tournament *)

Lemma collect_hits (t t' : tally) (pair : pairing) (cached : bool)
    (e : cache_entry) (pairTime : Qc) :
  collect t pair (cached, e, pairTime) = Ok t' ->
  hits t' = if cached then S (hits t) else hits t.
Proof.
  unfold collect. destruct pair as [nameA nameB].
  destruct (dict_add (strategyTimes t) nameA pairTime) as [t1|]; [|done]. cbn.
  destruct (dict_add t1 nameB pairTime) as [t2|]; [|done]. cbn.
  destruct (dict_add (scoreKeeper t) nameA _) as [k1|]; [|done]. cbn.
  destruct (dict_add k1 nameB _) as [k2|]; [|done]. cbn.
  by intros [= <-].
Qed.

Lemma filter_ext_in {A} (P Q : A -> Prop) `{!forall x, Decision (P x)}
    `{!forall x, Decision (Q x)} (l : list A) :
  (forall x, x ∈ l -> P x <-> Q x) -> filter P l = filter Q l.
Proof.
  induction l as [|a l IH]; intros Hl; [done|].
  rewrite !filter_cons.
  rewrite IH by (intros x Hx; apply Hl; by right).
  destruct (decide (P a)) as [Hp | Hp], (decide (Q a)) as [Hq | Hq]; try done.
  - destruct Hq. apply Hl; [by left|done].
  - destruct Hp. apply Hl; [by left|done].
Qed.

Lemma pool_step_hits (t t' : tally) (pair : pairing) (s s' : state W) :
  pool_step t pair s = (Ok t', s') ->
  hits t' = (hits t + if use_cache args
                      then length (filter (fun p => is_Some (cache s !! p)) [pair])
                      else 0)%nat /\
  forall p, p <> pair -> cache s' !! p = cache s !! p.
Proof.
  unfold pool_step. rewrite (bind_ok _ _ _ _ _ (log_eq _ _)).
  set (s0 := State (world s) (cache s) (EvDispatch pair :: events s)).
  destruct (runRounds_shape pair s0)
    as [(Huse & e & Hhit & E) | (Hmiss & s1 & (Hc & _) & [(e & E) | (e & tm & E)])].
  - rewrite (bind_ok _ _ _ _ _ E). unfold lift. intros H.
    pose proof (f_equal fst H) as Hcol. pose proof (f_equal snd H) as Hs.
    cbn [fst snd] in Hcol, Hs. subst s'.
    apply collect_hits in Hcol. rewrite Hcol, Huse. unfold s0 in Hhit. cbn [cache] in Hhit |- *.
    rewrite filter_cons_True by (by rewrite Hhit). cbn. split; [lia|done].
  - by rewrite (bind_raise _ _ _ _ _ E).
  - rewrite (bind_ok _ _ _ _ _ E). unfold lift. intros H.
    pose proof (f_equal fst H) as Hcol. pose proof (f_equal snd H) as Hs.
    cbn [fst snd] in Hcol, Hs. subst s'.
    apply collect_hits in Hcol. rewrite Hcol. unfold s0 in Hmiss, Hc. cbn [cache] in Hmiss, Hc. split.
    + destruct (use_cache args); [|lia].
      destruct Hmiss as [? | Hnone]; [done|].
      rewrite filter_cons_False by (rewrite Hnone; by intros [? ?]). cbn. lia.
    + intros p Hp. unfold stored. destruct (use_cache args); cbn [cache]; rewrite Hc.
      * by rewrite lookup_insert_ne.
      * done.
Qed.

Lemma pool_loop_hits (l : list pairing) (t t' : tally) (s s' : state W) :
  NoDup l ->
  for_each pool_step l t s = (Ok t', s') ->
  hits t' = (hits t + if use_cache args
                      then length (filter (fun p => is_Some (cache s !! p)) l)
                      else 0)%nat.
Proof.
  intros Hnd. revert t s. induction Hnd as [|pair l Hnotin Hnd IH]; intros t s.
  - cbn [for_each]. intros [= <- _]. destruct (use_cache args); cbn; lia.
  - cbn [for_each]. destruct (pool_step t pair s) as [[t1|e] s1] eqn:E.
    + rewrite (bind_ok _ _ _ _ _ E). intros Hrest. apply IH in Hrest.
      apply pool_step_hits in E as [Hh Hc]. rewrite Hrest, Hh.
      destruct (use_cache args); [|lia].
      replace (filter (fun p => is_Some (cache s1 !! p)) l)
        with (filter (fun p => is_Some (cache s !! p)) l).
      * change (pair :: l) with ([pair] ++ l). rewrite (filter_app _ [pair] l), length_app.
        lia.
      * apply filter_ext_in. intros p Hp. rewrite Hc; [done|].
        intros ->. done.
    + by rewrite (bind_raise _ _ _ _ _ E).
Qed.

Lemma filter_empty_cache (l : list pairing) :
  filter (fun p => is_Some ((∅ : gmap pairing cache_entry) !! p)) l = [].
Proof.
  induction l as [|p l IH]; [done|].
  rewrite filter_cons_False; [done|]. rewrite lookup_empty. by intros [? ?].
Qed.

(** X14.  With distinct strategy names, the hits a tournament reports are
    exactly the pairings of its list that the cache held when the pool
    started: none with [--no-cache], none after [--delete-cache]. *)
Theorem tournament_hits (inFolders : list string) (s s' : state W)
    (t : tally) (r : ranking) :
  NoDup (STRATEGY_LIST inFolders) ->
  runFullPairingTournament inFolders s = (Ok (t, r), s') ->
  hits t = (if use_cache args
            then if delete_cache args then 0
                 else length (filter (fun p => is_Some (cache s !! p)) (pairings inFolders))
            else 0)%nat.
Proof.
  intros Hnd. unfold runFullPairingTournament.
  set (s1 := if delete_cache args
             then State (world s) ∅ (EvCacheDelete :: events s) else s).
  assert (E1 : (if delete_cache args then cache_remove else mret tt) s = (Ok tt, s1))
    by (unfold s1; by destruct (delete_cache args)).
  set (s2 := if use_cache args
             then State (world s1) (cache s1) (EvCacheSetup :: events s1) else s1).
  assert (E2 : (if use_cache args then cache_setup else mret tt) s1 = (Ok tt, s2))
    by (unfold s2; by destruct (use_cache args)).
  assert (Hc : cache s2 = if delete_cache args then ∅ else cache s).
  { unfold s2, s1. by destruct (use_cache args), (delete_cache args). }
  rewrite (bind_ok _ _ _ _ _ E1), (bind_ok _ _ _ _ _ E2). cbv zeta.
  case_bool_decide as Hlen; [done|]. fold (pairings inFolders).
  assert (Hall : NoDup (pairings inFolders)).
  { unfold pairings.
    destruct (strategies args) as [[|only [|]]|]; try by apply combinations_NoDup.
    by apply NoDup_filter, combinations_NoDup. }
  destruct (for_each pool_step (pairings inFolders)
              (Tally 0 (zeros_dict (STRATEGY_LIST inFolders)) [] []
                 (zeros_dict (STRATEGY_LIST inFolders))) s2) as [[t1|e] s3] eqn:E.
  - rewrite (bind_ok _ _ _ _ _ E).
    destruct (rank_strategies _ _) as [r1|e]; [|done].
    rewrite bind_lift_ok. intros [= <- _ _].
    rewrite (pool_loop_hits _ _ _ _ _ Hall E), Hc. cbn [hits].
    destruct (use_cache args); [|done].
    destruct (delete_cache args); [|done].
    by rewrite filter_empty_cache.
  - by rewrite (bind_raise _ _ _ _ _ E).
Qed.

(** ** Text: pad, progressBar, the rows of outputRoundResults *)

Lemma append_nil (s : string) : String.append "" s = s.
Proof. reflexivity. Qed.

Lemma append_cons (x : Ascii.ascii) (a b : string) :
  String.append (String x a) b = String x (String.append a b).
Proof. reflexivity. Qed.

Lemma append_nil_r (s : string) : String.append s "" = s.
Proof. induction s as [|x s IH]; [done|]. by rewrite append_cons, IH. Qed.

Lemma string_append_assoc (a b c : string) :
  String.append (String.append a b) c = String.append a (String.append b c).
Proof.
  induction a as [|x a IH]; [by rewrite !append_nil|]. by rewrite !append_cons, IH.
Qed.

Lemma string_length_append (a b : string) :
  String.length (String.append a b) = (String.length a + String.length b)%nat.
Proof.
  induction a as [|x a IH]; [by rewrite append_nil|].
  rewrite append_cons. cbn [String.length]. by rewrite IH.
Qed.

Lemma str_repeat_length (c : string) (n : nat) :
  String.length (str_repeat c n) = (n * String.length c)%nat.
Proof.
  induction n as [|n IH]; cbn [str_repeat]; [done|].
  rewrite string_length_append, IH. lia.
Qed.

Lemma pad_loop (stri : string) (a n : nat) :
  foldl (fun result (_ : nat) => String.append result " ") stri (seq a n)
  = String.append stri (str_repeat " " n).
Proof.
  revert stri a. induction n as [|n IH]; intros stri a; cbn [seq foldl str_repeat].
  - by rewrite append_nil_r.
  - by rewrite IH, string_append_assoc.
Qed.

(** X15.  [pad] adds spaces on the right up to the asked length and never
    cuts: a string already that long, or longer, comes back as it is. *)
Theorem pad_spaces (stri : string) (leng : Z) :
  pad stri leng
  = String.append stri (str_repeat " " (Z.to_nat leng - String.length stri)) /\
  String.length (pad stri leng) = Nat.max (String.length stri) (Z.to_nat leng).
Proof.
  unfold pad, range. rewrite pad_loop. split; [done|].
  rewrite string_length_append, str_repeat_length. cbn. lia.
Qed.

Lemma py_round_floor (x : Qc) :
  Qfloor x <= py_round x <= Qfloor x + 1 /\
  (py_round x = Qfloor x + 1 -> (Q2Qc (1 # 2) <= x - Qc_of_Z (Qfloor x))%Qc).
Proof.
  unfold py_round. cbv zeta.
  case_bool_decide as H1; [split; [lia|]; intros; lia|].
  case_bool_decide as H2.
  - split; [lia|]. intros _. by apply Qclt_le_weak.
  - apply Qcnot_lt_le in H1. destruct (Z.even _); (split; [lia|]); by intros.
Qed.

Lemma py_round_range (x : Qc) (w : Z) :
  (0 <= x)%Qc -> (x <= Qc_of_Z w)%Qc -> 0 <= py_round x <= w.
Proof.
  intros H0 Hw. destruct (py_round_floor x) as [[Hlo Hhi] Hup].
  assert (F0 : 0 <= Qfloor x).
  { change 0 with (Qfloor 0%Q). by apply Qfloor_resp_le. }
  assert (Fw : Qfloor x <= w).
  { transitivity (Qfloor (Qc_of_Z w)); [apply Qfloor_resp_le; exact Hw|].
    unfold Qc_of_Z, Q2Qc. cbn [this]. rewrite Qfloor_Z. lia. }
  split; [lia|].
  destruct (decide (py_round x = Qfloor x + 1)) as [E | E]; [|lia].
  destruct (decide (Qfloor x = w)) as [Ew | Ew]; [|lia].
  exfalso. apply Hup in E. rewrite Ew in E.
  apply (Qcplus_le_mono_r _ _ (- Qc_of_Z w)%Qc) in Hw.
  replace (Qc_of_Z w + - Qc_of_Z w)%Qc with 0%Qc in Hw by ring.
  assert (Hhalf : (Q2Qc (1 # 2) <= 0)%Qc) by (eapply Qcle_trans; [exact E|exact Hw]).
  by apply Qcle_not_lt in Hhalf.
Qed.

(** X16.  For a completion between 0 and 1 the bar is as long as asked:
    [width] cells between the two brackets. *)
Theorem progressBar_length (width : Z) (completion : Qc) :
  0 <= width -> (0 <= completion)%Qc -> (completion <= 1)%Qc ->
  String.length (progressBar width completion) = (Z.to_nat width + 2)%nat.
Proof.
  intros Hw H0 H1. unfold progressBar, str_mul. cbv zeta.
  assert (Hnn : (0 <= Qc_of_Z width)%Qc).
  { rewrite <- Z2Qc_inj_0. by apply (proj1 (Z2Qc_inj_le _ _)). }
  destruct (py_round_range (Qc_of_Z width * completion) width) as [Hlo Hhi].
  - by apply Qcmult_nonneg_nonneg.
  - rewrite <- (Qcmult_1_r (Qc_of_Z width)) at 2.
    by apply Qcmult_le_mono_nonneg_l.
  - rewrite !string_length_append, !str_repeat_length. cbn [String.length]. lia.
Qed.

Lemma write_moves_loop (row : list Z) (text out : string) :
  for_each (fun text move =>
              label ← py_index moveLabels move;
              Ok (String.append text (String.append label " "))) row text = Ok out ->
  String.length out = (String.length text + 2 * length row)%nat /\
  Forall (fun move => -2 <= move < 2) row.
Proof.
  revert text. induction row as [|move row IH]; intros text; cbn [for_each].
  - intros [= <-]. split; [cbn; lia|constructor].
  - destruct (py_index moveLabels move) as [label|] eqn:E; [|done]. cbn.
    intros H. apply IH in H as [Hlen Hall].
    apply py_index_pair in E.
    rewrite Hlen, !string_length_append. cbn [length].
    split; [|constructor; [lia|done]].
    destruct E as [[_ ->] | [_ ->]]; cbn; lia.
Qed.

(** X17.  A row of a history is written as two characters a turn, and only
    if every cell is an index into [moveLabels]: a move code, or -1 or -2,
    which Python reads from the end of the list. *)
Theorem write_moves_row (row : list Z) (text : string) :
  write_moves row = Ok text ->
  String.length text = (2 * length row)%nat /\
  Forall (fun move => -2 <= move < 2) row.
Proof. unfold write_moves. intros H. by apply write_moves_loop in H. Qed.

(** ** The turn-chance table, entry by entry *)

Lemma falls_lookup (l : list PrimFloat.float) (i : nat) (a : PrimFloat.float) :
  Binary64.falls l = true -> l !! i = Some a ->
  PrimFloat.ltb (Binary64.of_int 0) a = true /\
  forall b, l !! S i = Some b -> PrimFloat.ltb b a = true.
Proof.
  revert i. induction l as [|x l IH]; intros i H Ha; [done|].
  cbn [Binary64.falls] in H.
  apply andb_prop in H as [H Hl]. apply andb_prop in H as [Hx Hnext].
  destruct i as [|i].
  - injection Ha as <-. split; [done|]. intros b Hb.
    destruct l as [|y l]; [done|]. by injection Hb as <-.
  - by apply (IH i).
Qed.

Lemma tables_fall_1198 (kind : Binary64.summation) :
  Binary64.tables_fall kind 1198 = true.
Proof. destruct kind; vm_compute; reflexivity. Qed.

(** X18.  In the table the program computes, for every turn count the
    default recursion limit allows and with either summation of the builtin
    [sum], every entry is positive and smaller than the entry before it: the
    later a turn, the smaller the chance that play stops there. *)
Theorem turnChances_decreasing (kind : Binary64.summation) (n i : nat)
    (a b : PrimFloat.float) :
  (n <= 1198)%nat ->
  Binary64.turnChances kind n !! i = Some a ->
  Binary64.turnChances kind n !! S i = Some b ->
  PrimFloat.ltb (Binary64.of_int 0) a = true /\
  PrimFloat.ltb (Binary64.of_int 0) b = true /\
  PrimFloat.ltb b a = true.
Proof.
  intros Hn Ha Hb.
  assert (Hlen : (200 <= n)%nat).
  { apply lookup_lt_Some in Ha. rewrite turnChances_binary64_length in Ha. lia. }
  pose proof (tables_fall_1198 kind) as H. unfold Binary64.tables_fall in H.
  apply for_turn_counts_true with (n := n) in H; [|lia].
  destruct (falls_lookup _ _ _ H Ha) as [Ha0 Hab].
  destruct (falls_lookup _ _ _ H Hb) as [Hb0 _].
  split; [done|]. split; [done|]. by apply Hab.
Qed.

(** ** The folders of the top level *)

Lemma list_remove_missing (x : string) (l : list string) :
  x ∉ l -> list_remove x l = Raise (ValueError "list.remove(x): x not in list").
Proof.
  induction l as [|y l IH]; intros Hx; cbn [list_remove]; [done|].
  apply not_elem_of_cons in Hx as [Hne Hx].
  destruct (String.eqb_spec y x) as [->|_]; [done|]. by rewrite IH.
Qed.

Lemma list_remove_present (x : string) (l : list string) :
  x ∈ l -> NoDup l -> list_remove x l = Ok (filter (fun y => y <> x) l).
Proof.
  induction l as [|y l IH]; intros Hx Hnd; cbn [list_remove].
  - by apply elem_of_nil in Hx.
  - apply NoDup_cons in Hnd as [Hy Hnd].
    destruct (String.eqb_spec y x) as [->|Hne].
    + rewrite filter_cons_False by (intros H; by apply H). f_equal.
      symmetry. clear IH Hx Hnd. induction l as [|z l IHl]; [done|].
      apply not_elem_of_cons in Hy as [Hz Hy].
      rewrite filter_cons_True by done. f_equal. by apply IHl.
    + apply elem_of_cons in Hx as [->|Hx]; [done|].
      rewrite IH by done. by rewrite filter_cons_True by done.
Qed.

(** X19.  With [--skip-slow] the folder named slow is taken off the list of
    folders, and the program cannot start where there is no such folder:
    [list.remove] raises ValueError. *)
Theorem STRATEGY_FOLDERS_slow :
  let folders := filter (fun p => os_path_isdir p) (os_listdir ".") in
  use_slow args = false -> NoDup (os_listdir ".") ->
  match STRATEGY_FOLDERS with
  | Ok l => ("slow"%string ∈ folders) /\ l = filter (fun p => p <> "slow"%string) folders
  | Raise e => ("slow"%string ∉ folders) /\ e = ValueError "list.remove(x): x not in list"
  end.
Proof.
  intros folders Hslow Hnd. unfold STRATEGY_FOLDERS. rewrite Hslow. fold folders.
  destruct (decide (("slow"%string) ∈ folders)) as [Hin | Hout].
  - rewrite list_remove_present; [done|done|]. by apply NoDup_filter.
  - by rewrite list_remove_missing.
Qed.

(** ** The exact scores against the average of a round *)

Lemma for_each_app_result {S I} (body : S -> I -> result S) (l k : list I) (s : S) :
  for_each body (l ++ k) s = s' ← for_each body l s; for_each body k s'.
Proof.
  revert s. induction l as [|i l IH]; intros s; cbn [app for_each]; [done|].
  destruct (body s i) as [s1|e]; cbn; [apply IH|done].
Qed.

Lemma turnChances_least : turnChances 200 = [1%Qc].
Proof.
  unfold turnChances, turnChances0, chancesSum, turnChances0, range, py_sum.
  cbn [Nat.sub seq map fold_left turnChance]. f_equal.
  apply Qc_is_canon. reflexivity.
Qed.

Lemma runDeterministic_totals_least (h : grid) :
  DETERMINISTIC_TURNS = 200%nat -> width h = 200%nat ->
  runDeterministic_totals h = tallyRoundScores h.
Proof.
  intros Hd Hw. unfold runDeterministic_totals, tallyRoundScores.
  rewrite Hd, Hw. unfold range.
  change (200 - 0)%nat with (199 + 1)%nat. rewrite seq_app, for_each_app_result.
  change (199 - 0)%nat with 199%nat. change (200 - 199)%nat with 1%nat.
  destruct (for_each (add_points h) (seq 0 199) (0, 0)) as [sc|e]; [|done].
  cbn [mbind result_bind seq Nat.add for_each mret result_ret].
  unfold add_weighted. rewrite Hd, turnChances_least.
  destruct (add_points h sc 199) as [sc'|e]; [|done].
  change (py_index [1%Qc] (Z.of_nat 199 - 199)) with (Ok 1%Qc : result Qc).
  cbn. change (Z.of_nat 199 + 1) with (Z.of_nat 200).
  f_equal. f_equal; ring.
Qed.

Lemma store_width (g g' : grid) (p t : nat) (v : Z) :
  store g p t v = Ok g' -> width g' = width g.
Proof.
  unfold store, width. destruct p as [|[|p]]; [| |done].
  - destruct (row_store (row0 g) t v) as [r|] eqn:E; [|done].
    apply row_store_Ok in E as [-> _]. intros [= <-]. cbn. by rewrite length_insert.
  - destruct (row_store (row1 g) t v) as [r|] eqn:E; [|done]. by intros [= <-].
Qed.

Lemma runDeterministic_turn_width (mA mB : module M W) (st st' : det_state)
    (turn : nat) (s s' : state W) :
  runDeterministic_turn mA mB st turn s = (Ok (Some st'), s') ->
  width (d_history st') = width (d_history st).
Proof.
  unfold runDeterministic_turn.
  rewrite (bind_ok _ _ _ _ _ (call_eq _ _ _ _)). cbn [world cache events].
  destruct (strategy mA _ _ _) as [[a memA] w1]. cbn [fst snd].
  rewrite (bind_ok _ _ _ _ _ (call_eq _ _ _ _)). cbn [world cache events].
  destruct (strategy mB _ _ _) as [[b memB] w2]. cbn [fst snd].
  destruct (store (d_history st) 0 turn _) as [h1|] eqn:E1; [|done].
  rewrite bind_lift_ok.
  destruct (store h1 1 turn _) as [h2|] eqn:E2; [|done].
  rewrite bind_lift_ok.
  rewrite (bind_ok _ _ _ _ _ (call_eq _ _ _ _)). cbn [world cache events].
  destruct (strategy mA _ _ _) as [[a2 memA2] w3]. cbn [fst snd].
  rewrite (bind_ok _ _ _ _ _ (call_eq _ _ _ _)). cbn [world cache events].
  destruct (strategy mB _ _ _) as [[b2 memB2] w4]. cbn [fst snd].
  case_bool_decide; [done|]. case_bool_decide; [done|].
  destruct (cell h2 1 turn) as [vb|]; [|done]. rewrite bind_lift_ok.
  destruct (store (d_historyFlipped st) 0 turn vb) as [hf1|]; [|done].
  rewrite bind_lift_ok.
  destruct (cell h2 0 turn) as [va|]; [|done]. rewrite bind_lift_ok.
  destruct (store hf1 1 turn va) as [hf2|]; [|done]. rewrite bind_lift_ok.
  intros [= <- _]. cbn [d_history].
  apply store_width in E1, E2. congruence.
Qed.

Lemma runDeterministic_turns_width (mA mB : module M W) (turns : list nat)
    (st st' : det_state) (s s' : state W) :
  runDeterministic_turns mA mB turns st s = (Ok (Some st'), s') ->
  width (d_history st') = width (d_history st).
Proof.
  revert st s. induction turns as [|turn turns IH]; intros st s;
    cbn [runDeterministic_turns].
  - by intros [= <- _].
  - destruct (runDeterministic_turn mA mB st turn s) as [[[st1|]|e] s1] eqn:E.
    + rewrite (bind_ok _ _ _ _ _ E). intros H. apply IH in H.
      apply runDeterministic_turn_width in E. congruence.
    + by rewrite (bind_ok _ _ _ _ _ E).
    + by rewrite (bind_raise _ _ _ _ _ E).
Qed.

(** What [runDeterministic] returns when it returns totals: an array of
    DETERMINISTIC_TURNS columns and the result of the scoring loops on it. *)
Lemma runDeterministic_returns (mA mB : module M W) (s s' : state W)
    (totals : Qc * Qc) (h : grid) :
  runDeterministic mA mB s = (Ok (DetTotals totals h), s') ->
  width h = DETERMINISTIC_TURNS /\ runDeterministic_totals h = Ok totals.
Proof.
  unfold runDeterministic. rewrite (bind_ok _ _ _ _ _ (log_eq _ _)).
  destruct (runDeterministic_turns mA mB (range 0 DETERMINISTIC_TURNS)
              (DetState (np_zeros DETERMINISTIC_TURNS) (np_zeros DETERMINISTIC_TURNS)
                 None None None None)
              (State (world s) (cache s) (EvRunDeterministic :: events s)))
    as [[[st|]|e] s1] eqn:E.
  - rewrite (bind_ok _ _ _ _ _ E).
    apply runDeterministic_turns_width in E. cbn [d_history] in E.
    destruct (runDeterministic_totals (d_history st)) as [tot|e] eqn:Et; [|done].
    rewrite bind_lift_ok. intros [= <- <- _]. split; [|done].
    rewrite E. unfold width, np_zeros. cbn. by rewrite length_replicate.
  - by rewrite (bind_ok _ _ _ _ _ E).
  - by rewrite (bind_raise _ _ _ _ _ E).
Qed.

(** X20.  At the least turn count the program admits, 200, the exact scores
    of [runDeterministic] are the plain averages of its 200 turns: what
    [tallyRoundScores] gives for the history it returns. *)
Theorem runDeterministic_least_turns (moduleA moduleB : module M W) (s s' : state W)
    (totals : Qc * Qc) (history : grid) :
  DETERMINISTIC_TURNS = 200%nat ->
  runDeterministic moduleA moduleB s = (Ok (DetTotals totals history), s') ->
  tallyRoundScores history = Ok totals.
Proof.
  intros Hd E. apply runDeterministic_returns in E as [Hw Ht].
  rewrite <- (runDeterministic_totals_least history Hd); [done|]. by rewrite Hw.
Qed.

(** ** The scores in binary64 *)

(** X21.  The scores of the exact-expectation path are weighted averages of
    per-turn averages, yet in binary64 they leave the range of the payoffs:
    at 212 turns a strategy that always defects against one that always
    cooperates is given more than 5 points a turn, with either summation of
    the builtin [sum]. *)
Theorem runDeterministic_above_payoffs (kind : Binary64.summation)
    (moduleA moduleB : module M W) (s : state W) :
  DETERMINISTIC_TURNS = 212%nat ->
  (forall h mem w, strategyMove (strategy moduleA h mem w).1.1 = 0) ->
  (forall h mem w, strategyMove (strategy moduleB h mem w).1.1 = 1) ->
  exists h x y,
    (runDeterministic moduleA moduleB s).1
      = Ok (DetTotals (Qc_of_Z 5, Qc_of_Z 0) h) /\
    Binary64.runDeterministic_totals kind DETERMINISTIC_TURNS h = Ok (x, y) /\
    PrimFloat.ltb (Binary64.of_int 5) x = true /\
    PrimFloat.eqb y (Binary64.of_int 0) = true.
Proof.
  intros Hd HA HB. do 3 eexists. split.
  - by rewrite (runDeterministic_constant moduleA moduleB 0 1 s
                  ltac:(by left) ltac:(by right) ltac:(lia) HA HB).
  - rewrite Hd. destruct kind; split; try (vm_compute; reflexivity);
      split; vm_compute; reflexivity.
Qed.

(** ** The names of the strategies *)

Lemma substring_all (s : string) : String.substring 0 (String.length s) s = s.
Proof. induction s as [|x s IH]; cbn; [done|]. by rewrite IH. Qed.

Lemma substring_append_l (a b : string) :
  String.substring 0 (String.length a) (String.append a b) = a.
Proof.
  induction a as [|x a IH].
  - rewrite append_nil. by destruct b.
  - rewrite append_cons. cbn [String.length String.substring]. by rewrite IH.
Qed.

Lemma substring_append_r (a b : string) :
  String.substring (String.length a) (String.length b) (String.append a b) = b.
Proof.
  induction a as [|x a IH].
  - rewrite append_nil. apply substring_all.
  - rewrite append_cons. cbn [String.length String.substring]. exact IH.
Qed.

Lemma substring_split (s : string) (n : nat) :
  (n <= String.length s)%nat ->
  s = String.append (String.substring 0 n s)
        (String.substring n (String.length s - n) s).
Proof.
  revert n. induction s as [|x s IH]; intros n Hn.
  - cbn in Hn. by replace n with 0%nat by lia.
  - destruct n as [|n].
    + change (String.substring 0 0 (String x s)) with ""%string.
      rewrite append_nil, Nat.sub_0_r. symmetry. apply substring_all.
    + cbn [String.length] in Hn. cbn [String.substring String.length Nat.sub].
      rewrite append_cons. f_equal. apply IH. lia.
Qed.

Lemma endswith_py (file : string) :
  endswith file ".py" = true <-> exists name, file = String.append name ".py".
Proof.
  unfold endswith. cbv zeta. change (String.length ".py") with 3%nat. split.
  - intros [Hlen Heq]%andb_prop. apply Nat.leb_le in Hlen.
    apply String.eqb_eq in Heq.
    exists (String.substring 0 (String.length file - 3) file).
    rewrite (substring_split file (String.length file - 3)) at 1 by lia.
    replace (String.length file - (String.length file - 3))%nat with 3%nat by lia.
    by rewrite Heq.
  - intros [name ->]. rewrite string_length_append.
    change (String.length ".py") with 3%nat.
    apply andb_true_intro. split; [apply Nat.leb_le; lia|].
    replace (String.length name + 3 - 3)%nat with (String.length name) by lia.
    apply String.eqb_eq. exact (substring_append_r name ".py").
Qed.

Lemma drop_last3_py (name : string) :
  drop_last3 (String.append name ".py") = name.
Proof.
  unfold drop_last3. rewrite string_length_append.
  change (String.length ".py") with 3%nat.
  replace (String.length name + 3 - 3)%nat with (String.length name) by lia.
  apply substring_append_l.
Qed.

(** X22.  The strategies of a tournament are the files of the folders whose
    name ends in .py, each named folder.file without the .py, and, when
    [--strategies] names more than one, only those named there. *)
Theorem STRATEGY_LIST_names (inFolders : list string) (strategy : string) :
  strategy ∈ STRATEGY_LIST inFolders <->
  (exists inFolder name,
      inFolder ∈ inFolders /\
      String.append name ".py" ∈ os_listdir inFolder /\
      strategy = String.append inFolder (String.append "." name)) /\
  (forall chosen, strategies args = Some chosen -> (1 < length chosen)%nat ->
                  strategy ∈ chosen).
Proof.
  assert (Hfound :
            strategy ∈ (inFolder ← inFolders;
                        file ← filter (fun file => endswith file ".py")
                                 (os_listdir inFolder);
                        [String.append inFolder (String.append "." (drop_last3 file))])
            <-> exists inFolder name,
                inFolder ∈ inFolders /\
                String.append name ".py" ∈ os_listdir inFolder /\
                strategy = String.append inFolder (String.append "." name)).
  { rewrite list_elem_of_bind. split.
    - intros (inFolder & (file & ->%list_elem_of_singleton
                          & [Hpy Hfile]%list_elem_of_filter)%list_elem_of_bind & Hin).
      apply Is_true_true, endswith_py in Hpy as [name ->].
      exists inFolder, name. by rewrite drop_last3_py.
    - intros (inFolder & name & Hin & Hfile & ->).
      exists inFolder. split; [|done]. apply list_elem_of_bind.
      exists (String.append name ".py"). rewrite drop_last3_py.
      split; [by apply list_elem_of_singleton|].
      apply list_elem_of_filter. split; [|done].
      apply Is_true_true, endswith_py. by exists name. }
  unfold STRATEGY_LIST. cbv zeta.
  destruct (strategies args) as [chosen|].
  - case_bool_decide as Hlen.
    + rewrite list_elem_of_filter, Hfound. split.
      * intros [Hc Hf]. split; [done|]. by intros ? [= <-] _.
      * intros [Hf Hc]. split; [|done]. by apply Hc.
    + rewrite Hfound. split; [|by intros [? _]].
      intros Hf. split; [done|]. intros ? [= <-] ?. lia.
  - rewrite Hfound. split; [|by intros [? _]]. intros Hf. by split.
Qed.

(** ** The bookkeeping of a tournament *)

Lemma keyed_size (names : list string) (d : gmap string Qc) :
  NoDup names -> keyed names d -> size d = length names.
Proof.
  intros Hnd Hk. rewrite <- (size_dom (D := gset string) d).
  rewrite <- (size_list_to_set (C := gset string) names Hnd). f_equal.
  apply set_eq. intros name. rewrite elem_of_dom, elem_of_list_to_set. apply Hk.
Qed.

Lemma zeros_dict_keyed (names : list string) : keyed names (zeros_dict names).
Proof.
  unfold zeros_dict, keyed.
  assert (H : forall (d : gmap string Qc) name,
             is_Some (foldl (fun (d : gmap string Qc) k => <[k := 0%Qc]> d) d names !! name)
             <-> is_Some (d !! name) \/ name ∈ names).
  { induction names as [|k names IH]; intros d name; cbn [foldl].
    - rewrite elem_of_nil. split; [by left|]. by intros [? | []].
    - rewrite IH, lookup_insert_is_Some', elem_of_cons. split.
      + intros [[-> | Hd] | Hn]; auto.
      + intros [Hd | [-> | Hn]]; auto. }
  intros name. rewrite H, lookup_empty. split; [|by right].
  intros [[? [=]] | Hn]. done.
Qed.

Lemma dict_add_keyed (names : list string) (d : gmap string Qc) (k : string) (v : Qc) :
  keyed names d -> k ∈ names ->
  exists d', dict_add d k v = Ok d' /\ keyed names d'.
Proof.
  intros Hk Hin. unfold dict_add.
  pose proof (proj2 (Hk k) Hin) as [x Hx]. rewrite Hx.
  eexists. split; [reflexivity|]. intros name.
  rewrite lookup_insert_is_Some', <- (Hk name). split; [|by right].
  intros [<- | H]; [by exists x|done].
Qed.

Lemma collect_keyed (names : list string) (t : tally) (pair : pairing)
    (res : pair_result) :
  keyed names (strategyTimes t) -> keyed names (scoreKeeper t) ->
  pair.1 ∈ names -> pair.2 ∈ names ->
  exists t', collect t pair res = Ok t' /\
             keyed names (strategyTimes t') /\ keyed names (scoreKeeper t').
Proof.
  intros Ht Hs H1 H2. unfold collect.
  destruct res as [[cached e] pairTime]. destruct pair as [nameA nameB].
  cbn [fst snd] in H1, H2.
  destruct (dict_add_keyed names _ nameA pairTime Ht H1) as (t1 & -> & Ht1).
  destruct (dict_add_keyed names _ nameB pairTime Ht1 H2) as (t2 & E2 & Ht2).
  destruct (dict_add_keyed names _ nameA (e_avgScoreA e) Hs H1) as (k1 & -> & Hk1).
  destruct (dict_add_keyed names _ nameB (e_avgScoreB e) Hk1 H2) as (k2 & E4 & Hk2).
  cbn. rewrite E2. cbn. rewrite E4. cbn. eexists. split; [reflexivity|]. by split.
Qed.

Lemma pool_step_eq (t : tally) (pair : pairing) (s : state W) :
  let s0 := State (world s) (cache s) (EvDispatch pair :: events s) in
  pool_step t pair s
  = match runRounds pair s0 with
    | (Ok res, s1) => (collect t pair res, s1)
    | (Raise e, s1) => (Raise e, s1)
    end.
Proof.
  cbv zeta. unfold pool_step. rewrite (bind_ok _ _ _ _ _ (log_eq _ _)).
  destruct (runRounds pair _) as [[res|e] s1] eqn:E.
  - by rewrite (bind_ok _ _ _ _ _ E).
  - by rewrite (bind_raise _ _ _ _ _ E).
Qed.

Lemma pool_loop_failure (names : list string) (l : list pairing) (t : tally)
    (s : state W) :
  keyed names (strategyTimes t) -> keyed names (scoreKeeper t) ->
  Forall (fun pair : pairing => pair.1 ∈ names /\ pair.2 ∈ names) l ->
  match (for_each pool_step l t s).1 with
  | Ok t' => keyed names (scoreKeeper t')
  | Raise e => exists pair s0, pair ∈ l /\ (runRounds pair s0).1 = Raise e
  end.
Proof.
  intros Ht Hs Hl. revert t s Ht Hs.
  induction Hl as [|pair l [H1 H2] Hl IH]; intros t s Ht Hs; cbn [for_each].
  - done.
  - pose proof (pool_step_eq t pair s) as Estep. cbv zeta in Estep.
    set (s0 := State (world s) (cache s) (EvDispatch pair :: events s)) in Estep.
    destruct (runRounds pair s0) as [[res|e] s1] eqn:E.
    + destruct (collect_keyed names t pair res Ht Hs H1 H2) as (t1 & Ec & Ht1 & Hs1).
      rewrite Ec in Estep. rewrite (bind_ok _ _ _ _ _ Estep).
      specialize (IH t1 s1 Ht1 Hs1).
      destruct (for_each pool_step l t1 s1) as [[t'|e] s2]; cbn [fst] in IH |- *; [done|].
      destruct IH as (p & s' & Hp & Hr). exists p, s'. split; [by right|done].
    + rewrite (bind_raise _ _ _ _ _ Estep). cbn [fst].
      exists pair, s0. split; [by left|]. by rewrite E.
Qed.

Lemma mapM_total {A B} (f : A -> result B) (l : list A) :
  Forall (fun x => exists y, f x = Ok y) l -> exists ys, mapM f l = Ok ys.
Proof.
  induction 1 as [|x l [y Hy] _ [ys IH]]; cbn; [by eexists|].
  rewrite Hy. cbn. rewrite IH. cbn. by eexists.
Qed.

Lemma fill_scores_total_loop (names : list string) (keeper : gmap string Qc)
    (n a : nat) (v0 : list Qc) :
  (forall name, name ∈ names -> is_Some (keeper !! name)) ->
  (a + n <= length names)%nat -> (a + n <= length v0)%nat ->
  exists v,
    for_each
      (fun scoresNumpy i =>
         name ← item names i;
         score ← match keeper !! name with
                 | Some v => Ok v
                 | None => Raise KeyError
                 end;
         if bool_decide (i < length scoresNumpy)%nat
         then Ok (<[i := score]> scoresNumpy)
         else Raise IndexError)
      (seq a n) v0 = Ok v.
Proof.
  intros Hk. revert a v0. induction n as [|n IH]; intros a v0 Hn Hv; cbn [seq for_each].
  - by eexists.
  - destruct (lookup_lt_is_Some_2 names a ltac:(lia)) as [name Hname].
    assert (Hitem : item names a = Ok name) by (unfold item; by rewrite Hname).
    cbv beta. rewrite Hitem. cbn.
    destruct (Hk name (list_elem_of_lookup_2 _ _ _ Hname)) as [score ->]. cbn.
    rewrite bool_decide_eq_true_2 by lia. cbn.
    apply IH; [lia|]. rewrite length_insert. lia.
Qed.

Lemma py_index_from_end_ok (l : list nat) (k : nat) :
  (k < length l)%nat -> exists i, py_index l (- 1 - Z.of_nat k) = Ok i /\ i ∈ l.
Proof.
  intros Hk. unfold py_index.
  replace (- 1 - Z.of_nat k <? 0) with true by (symmetry; apply Z.ltb_lt; lia).
  rewrite (proj2 (andb_true_iff _ _)) by (split; [apply Z.leb_le | apply Z.ltb_lt]; lia).
  destruct (lookup_lt_is_Some_2 l (Z.to_nat (- 1 - Z.of_nat k + Z.of_nat (length l)))
              ltac:(lia)) as [i Hi].
  rewrite Hi. exists i. split; [done|]. by apply list_elem_of_lookup_2 in Hi.
Qed.

Lemma rank_strategies_total (names : list string) (keeper : gmap string Qc) :
  NoDup names -> keyed names keeper ->
  exists r, rank_strategies names keeper = Ok r.
Proof.
  intros Hnd Hk. pose proof (keyed_size names keeper Hnd Hk) as Hsize.
  unfold rank_strategies.
  destruct (fill_scores_total_loop names keeper (length names) 0
              (replicate (size keeper) 0%Qc) (fun name H => proj2 (Hk name) H)
              ltac:(lia) ltac:(rewrite length_replicate; lia)) as [v Hv].
  assert (Hfill : fill_scores names keeper = Ok v).
  { unfold fill_scores, range. by rewrite Nat.sub_0_r. }
  rewrite Hfill. cbn [mbind result_bind]. cbv zeta.
  apply fill_scores_ok in Hfill as (Hlen & _ & _).
  destruct (argsort_sorted v) as [_ Hperm].
  destruct (mapM_total (scoreLine names (argsort Qc_ltb 0%Qc v) v)
              (range 0 (length names))) as [lines Hlines].
  - apply Forall_forall. intros rank Hrank. unfold range in Hrank.
    apply elem_of_seq in Hrank. unfold scoreLine.
    destruct (py_index_from_end_ok (argsort Qc_ltb 0%Qc v) rank) as (i & -> & Hi).
    { rewrite Hperm, length_seq. lia. }
    rewrite Hperm in Hi. apply elem_of_seq in Hi. cbn.
    unfold item.
    destruct (lookup_lt_is_Some_2 v i ltac:(lia)) as [score ->]. cbn.
    destruct (lookup_lt_is_Some_2 names i ltac:(lia)) as [name ->]. cbn.
    by eexists.
  - rewrite Hlines. cbn. by eexists.
Qed.

(** ** The ranking of a tournament, whatever the sort *)

Lemma rank_strategies_insertion (names : list string) (keeper : gmap string Qc) :
  rank_strategies names keeper
  = rank_strategies_with (argsort Qc_ltb 0%Qc) names keeper.
Proof. reflexivity. Qed.

Lemma runFullPairingTournament_insertion (inFolders : list string) :
  runFullPairingTournament inFolders
  = runFullPairingTournament_with (argsort Qc_ltb 0%Qc) inFolders.
Proof. reflexivity. Qed.

Lemma StronglySorted_weaken {A} (R Q : A -> A -> Prop) (l : list A) :
  (forall a b, R a b -> Q a b) -> StronglySorted R l -> StronglySorted Q l.
Proof.
  intros HRQ. induction 1 as [|x l _ IH Hx]; constructor; [done|].
  eapply Forall_impl; [exact Hx|]. intros b. apply HRQ.
Qed.

Lemma argsort_ascending : ascending (argsort Qc_ltb 0%Qc).
Proof.
  intros v. destruct (argsort_sorted v) as [Hs Hp]. split; [done|].
  eapply StronglySorted_weaken; [|exact Hs]. intros a b. apply sorts_before_le.
Qed.

Lemma cumulative_snoc (results : list (pairing * cache_entry)) (pair : pairing)
    (e : cache_entry) (name : string) :
  cumulative (results ++ [(pair, e)]) name
  = (cumulative results name + share pair e name)%Qc.
Proof. unfold cumulative. by rewrite fold_left_app. Qed.

Lemma collect_results (t t' : tally) (pair : pairing) (cached : bool)
    (e : cache_entry) (pairTime : Qc) :
  collect t pair (cached, e, pairTime) = Ok t' ->
  allResults t' = allResults t ++ [(pair, e)].
Proof.
  unfold collect. destruct pair as [nameA nameB].
  destruct (dict_add (strategyTimes t) nameA pairTime) as [t1|]; [|done]. cbn.
  destruct (dict_add t1 nameB pairTime) as [t2|]; [|done]. cbn.
  destruct (dict_add (scoreKeeper t) nameA _) as [k1|]; [|done]. cbn.
  destruct (dict_add k1 nameB _) as [k2|]; [|done]. cbn.
  by intros [= <-].
Qed.

Lemma zeros_dict_lookup (names : list string) (name : string) (x : Qc) :
  zeros_dict names !! name = Some x -> x = 0%Qc.
Proof.
  unfold zeros_dict.
  assert (H : forall d : gmap string Qc,
             (forall y, d !! name = Some y -> y = 0%Qc) ->
             foldl (fun (d : gmap string Qc) k => <[k := 0%Qc]> d) d names !! name = Some x ->
             x = 0%Qc).
  { induction names as [|k names IH]; intros d Hd; cbn [foldl]; [apply Hd|].
    apply IH. intros y. destruct (decide (k = name)) as [->|Hne].
    - rewrite lookup_insert_eq. by intros [= <-].
    - rewrite lookup_insert_ne by done. apply Hd. }
  apply H. intros y. by rewrite lookup_empty.
Qed.

Lemma pool_loop_scores (l : list pairing) (t t' : tally) (s s' : state W) :
  keeps_scores t ->
  for_each pool_step l t s = (Ok t', s') ->
  keeps_scores t'.
Proof.
  revert t s. induction l as [|pair l IH]; intros t s Ht; cbn [for_each].
  - by intros [= <- _].
  - pose proof (pool_step_eq t pair s) as Estep. cbv zeta in Estep.
    destruct (runRounds pair _) as [[[[cached e] pairTime]|e] s1].
    + destruct (collect t pair (cached, e, pairTime)) as [t1|e1] eqn:Ec.
      * rewrite (bind_ok _ _ _ _ _ Estep). apply IH.
        intros name x Hx.
        rewrite (collect_scoreKeeper _ _ _ _ _ _ name Ec) in Hx.
        rewrite (collect_results _ _ _ _ _ _ Ec), cumulative_snoc.
        destruct (scoreKeeper t !! name) as [y|] eqn:Ey; [|done].
        injection Hx as <-. by rewrite (Ht name y Ey).
      * by rewrite (bind_raise _ _ _ _ _ Estep).
    + by rewrite (bind_raise _ _ _ _ _ Estep).
Qed.

Lemma runFullPairingTournament_with_returns (np_argsort : list Qc -> list nat)
    (inFolders : list string) (s s' : state W) (t : tally) (r : ranking) :
  runFullPairingTournament_with np_argsort inFolders s = (Ok (t, r), s') ->
  exists s2,
    for_each pool_step (pairings inFolders)
      (Tally 0 (zeros_dict (STRATEGY_LIST inFolders)) [] []
         (zeros_dict (STRATEGY_LIST inFolders))) s2 = (Ok t, s') /\
    rank_strategies_with np_argsort (STRATEGY_LIST inFolders) (scoreKeeper t) = Ok r.
Proof.
  unfold runFullPairingTournament_with.
  set (s1 := if delete_cache args
             then State (world s) ∅ (EvCacheDelete :: events s) else s).
  assert (E1 : (if delete_cache args then cache_remove else mret tt) s = (Ok tt, s1))
    by (unfold s1; by destruct (delete_cache args)).
  set (s2 := if use_cache args
             then State (world s1) (cache s1) (EvCacheSetup :: events s1) else s1).
  assert (E2 : (if use_cache args then cache_setup else mret tt) s1 = (Ok tt, s2))
    by (unfold s2; by destruct (use_cache args)).
  rewrite (bind_ok _ _ _ _ _ E1), (bind_ok _ _ _ _ _ E2). cbv zeta.
  case_bool_decide as Hlen; [done|].
  fold (pairings inFolders). intros H. exists s2.
  destruct (for_each pool_step _ _ s2) as [[t1|e] s3] eqn:E.
  - rewrite (bind_ok _ _ _ _ _ E) in H.
    destruct (rank_strategies_with _ _ _) as [r1|e] eqn:Er.
    + rewrite bind_lift_ok in H. by injection H as <- <- <-.
    + by rewrite bind_lift_raise in H.
  - by rewrite (bind_raise _ _ _ _ _ E) in H.
Qed.

Lemma keyed_size_le (names : list string) (d : gmap string Qc) :
  keyed names d -> (size d <= length names)%nat.
Proof.
  intros Hk. rewrite <- (size_dom (D := gset string) d).
  assert (Hd : dom d = list_to_set names).
  { apply set_eq. intros name. rewrite elem_of_dom, elem_of_list_to_set. apply Hk. }
  rewrite Hd. clear. induction names as [|x l IH]; cbn [list_to_set length].
  - by rewrite size_empty.
  - rewrite size_union_alt, size_singleton.
    pose proof (subseteq_size (C := gset string) (list_to_set l ∖ {[x]})
                  (list_to_set l) (subseteq_difference_l _ _ _ (reflexivity _))).
    lia.
Qed.

Lemma seq_lookups (names : list string) (d : string) :
  map (fun ix => nth ix names d) (seq 0 (length names)) = names.
Proof.
  apply list_eq. intros i. rewrite list_lookup_fmap.
  destruct (names !! i) as [name|] eqn:E.
  - rewrite lookup_seq_lt by (by eapply lookup_lt_Some).
    cbn. f_equal. by apply nth_lookup_Some.
  - apply lookup_ge_None in E. by rewrite lookup_seq_ge.
Qed.

(** The summary that any ascending sort leaves, on a dict that holds the
    names of the list and nothing else. *)
Lemma rank_strategies_with_summary (np_argsort : list Qc -> list nat)
    (names : list string) (keeper : gmap string Qc) (r : ranking) :
  ascending np_argsort -> keyed names keeper ->
  rank_strategies_with np_argsort names keeper = Ok r ->
  map line_name (summary r) ≡ₚ names /\
  (forall k line,
      summary r !! k = Some line ->
      exists name score,
        name ∈ names /\ keeper !! name = Some score /\
        line = (S k, name, score,
                (score / Qc_of_Z (Z.of_nat (length names) - 1))%Qc)) /\
  (forall p q lp lq,
      (p < q)%nat -> summary r !! p = Some lp -> summary r !! q = Some lq ->
      (line_score lq <= line_score lp)%Qc).
Proof.
  intros Hsort Hkeyed. unfold rank_strategies_with.
  destruct (fill_scores names keeper) as [v|] eqn:Ev; cbn; [|done].
  destruct (mapM _ _) as [lines|] eqn:El; cbn; [|done].
  intros [= <-]. cbn [rankings summary].
  apply fill_scores_ok in Ev as (Hlv & Hnv & Hv).
  apply mapM_Ok in El.
  destruct (Hsort v) as [Hperm Hsorted].
  set (rk := np_argsort v) in *.
  assert (Hlen : length v = length names).
  { pose proof (keyed_size_le names keeper Hkeyed). lia. }
  assert (Hlrk : length rk = length names) by (by rewrite Hperm, length_seq).
  assert (Hline : forall k line,
             lines !! k = Some line ->
             exists ix name score,
               reverse rk !! k = Some ix /\
               names !! ix = Some name /\ v !! ix = Some score /\
               keeper !! name = Some score /\
               line = (S k, name, score,
                       (score / Qc_of_Z (Z.of_nat (length names) - 1))%Qc)).
  { intros k line Hk.
    destruct (Forall2_lookup_r _ _ _ _ _ El Hk) as (k' & Hk' & E).
    unfold range in Hk'. apply lookup_seq in Hk' as [-> Hlt]. cbn in E.
    unfold scoreLine in E.
    destruct (py_index rk _) as [ix|] eqn:Eix; cbn in E; [|done].
    apply py_index_from_end in Eix.
    unfold item in E.
    destruct (v !! ix) as [score|] eqn:Es; cbn in E; [|done].
    destruct (names !! ix) as [name|] eqn:En; cbn in E; [|done].
    injection E as <-.
    destruct (Hv ix name En) as (score' & Hk1 & Hk2).
    exists ix, name, score. replace (k + 1)%nat with (S k) by lia.
    repeat split; try done. congruence. }
  assert (Hll : length lines = length names).
  { apply Forall2_length in El. unfold range in El. rewrite length_seq in El. lia. }
  split; [|split].
  - assert (E : map line_name lines = map (fun ix => nth ix names ""%string) (reverse rk)).
    { apply list_eq. intros k. rewrite !list_lookup_fmap.
      destruct (lines !! k) as [line|] eqn:Hk.
      - destruct (Hline k line Hk) as (ix & name & score & Hix & Hn & _ & _ & ->).
        rewrite Hix. cbn. f_equal. symmetry. by apply nth_lookup_Some.
      - apply lookup_ge_None in Hk.
        rewrite lookup_ge_None_2 by (rewrite length_reverse; lia). done. }
    rewrite E, reverse_Permutation, Hperm, Hlen. by rewrite seq_lookups.
  - intros k line Hk.
    destruct (Hline k line Hk) as (ix & name & score & _ & Hn & _ & Hs & ->).
    exists name, score. split; [by eapply list_elem_of_lookup_2|]. by split.
  - intros p q lp lq Hpq Hp Hq.
    destruct (Hline p lp Hp) as (ip & np & sp & Hip & _ & Hvp & _ & ->).
    destruct (Hline q lq Hq) as (iq & nq & sq & Hiq & _ & Hvq & _ & ->).
    unfold line_score. cbn [fst snd].
    apply reverse_lookup_Some in Hip as [Hip Hp'].
    apply reverse_lookup_Some in Hiq as [Hiq Hq'].
    assert (Hlt : (length rk - S q < length rk - S p)%nat) by lia.
    pose proof (StronglySorted_lookup _ _ _ _ _ _ Hsorted Hlt Hiq Hip) as Hb.
    cbv beta in Hb.
    by rewrite (nth_lookup_Some _ _ _ _ Hvp), (nth_lookup_Some _ _ _ _ Hvq) in Hb.
Qed.

Lemma pairings_names (inFolders : list string) :
  Forall (fun pair : pairing =>
            pair.1 ∈ STRATEGY_LIST inFolders /\ pair.2 ∈ STRATEGY_LIST inFolders)
    (pairings inFolders).
Proof.
  apply Forall_forall. intros [x y] Hin.
  assert (Hc : (x, y) ∈ combinations (STRATEGY_LIST inFolders)).
  { revert Hin. unfold pairings.
    destruct (strategies args) as [[|only [|]]|]; try done.
    by intros [_ ?]%list_elem_of_filter. }
  apply combinations_spec in Hc as (i & j & _ & Hi & Hj).
  split; by eapply list_elem_of_lookup_2.
Qed.

(** C4: whatever sort [np.argsort] runs, the summary of a tournament that
    ends lists every strategy once, each with its cumulative score (what the
    results of its pairings add up to, one result for every pairing of the
    tournament), in descending order of that score.  Nothing is said of the
    order of two strategies with equal scores. *)
Theorem ranking_order (np_argsort : list Qc -> list nat) (inFolders : list string)
    (s s' : state W) (t : tally) (r : ranking) :
  ascending np_argsort ->
  runFullPairingTournament_with np_argsort inFolders s = (Ok (t, r), s') ->
  let names := STRATEGY_LIST inFolders in
  (allResults t).*1 = pairings inFolders /\
  map line_name (summary r) ≡ₚ names /\
  (forall k line,
      summary r !! k = Some line ->
      exists name,
        name ∈ names /\
        line = (S k, name, cumulative (allResults t) name,
                (cumulative (allResults t) name
                 / Qc_of_Z (Z.of_nat (length names) - 1))%Qc)) /\
  (forall p q lp lq,
      (p < q)%nat -> summary r !! p = Some lp -> summary r !! q = Some lq ->
      (cumulative (allResults t) (line_name lq)
       <= cumulative (allResults t) (line_name lp))%Qc).
Proof.
  intros Hsort E. cbv zeta.
  apply runFullPairingTournament_with_returns in E as (s2 & Eloop & Erank).
  set (t0 := Tally 0 (zeros_dict (STRATEGY_LIST inFolders)) [] []
               (zeros_dict (STRATEGY_LIST inFolders))) in Eloop.
  pose proof (pool_loop_dispatched (pairings inFolders) t0 s2) as (handed & _ & _ & Hres).
  rewrite Eloop in Hres. destruct (Hres t eq_refl) as [_ Hall]. cbn in Hall.
  pose proof (pool_loop_failure (STRATEGY_LIST inFolders) (pairings inFolders) t0 s2
                (zeros_dict_keyed _) (zeros_dict_keyed _) (pairings_names inFolders))
    as Hkeyed.
  rewrite Eloop in Hkeyed. cbn [fst] in Hkeyed.
  assert (Hscores : keeps_scores t).
  { eapply pool_loop_scores; [|exact Eloop].
    intros name x Hx. cbn in Hx. apply zeros_dict_lookup in Hx as ->. done. }
  destruct (rank_strategies_with_summary _ _ _ _ Hsort Hkeyed Erank)
    as (Hperm & Hlines & Hdesc).
  split; [done|]. split; [done|]. split.
  - intros k line Hk. destruct (Hlines k line Hk) as (name & score & Hin & Hs & ->).
    exists name. split; [done|]. by rewrite (Hscores name score Hs).
  - intros p q lp lq Hpq Hp Hq. specialize (Hdesc p q lp lq Hpq Hp Hq).
    destruct (Hlines p lp Hp) as (np & sp & _ & Hsp & ->).
    destruct (Hlines q lq Hq) as (nq & sq & _ & Hsq & ->).
    unfold line_name, line_score in *. cbn [fst snd] in *.
    by rewrite <- (Hscores np sp Hsp), <- (Hscores nq sq Hsq).
Qed.

(** X23.  With distinct strategy names the bookkeeping of a tournament finds
    what it looks up.  [strategyTimes] and [scoreKeeper] hold the names of
    the strategies as their keys and no others, from the loop that sets them
    to 0 on, so the four [+=] of the loop over the results raise no KeyError
    for a pairing of the tournament; and once that loop has ended, the
    statements that fill [scoresNumpy], sort it and format the summary index
    within bounds and leave one line for every strategy.  (The files the
    function opens and writes are not part of the statement.) *)
Theorem tournament_bookkeeping (inFolders : list string) :
  NoDup (STRATEGY_LIST inFolders) ->
  let names := STRATEGY_LIST inFolders in
  let t0 := Tally 0 (zeros_dict names) [] [] (zeros_dict names) in
  keyed names (strategyTimes t0) /\ keyed names (scoreKeeper t0) /\
  (forall t pair res,
      keyed names (strategyTimes t) -> keyed names (scoreKeeper t) ->
      pair ∈ pairings inFolders ->
      exists t', collect t pair res = Ok t' /\
                 keyed names (strategyTimes t') /\ keyed names (scoreKeeper t')) /\
  (forall s t s',
      for_each pool_step (pairings inFolders) t0 s = (Ok t, s') ->
      keyed names (scoreKeeper t) /\
      exists r, rank_strategies names (scoreKeeper t) = Ok r /\
                length (summary r) = length names).
Proof.
  intros Hnd. cbv zeta. cbn [strategyTimes scoreKeeper].
  split; [apply zeros_dict_keyed|]. split; [apply zeros_dict_keyed|]. split.
  - intros t pair res Ht Hs Hin.
    pose proof (pairings_names inFolders) as Hall.
    rewrite Forall_forall in Hall. destruct (Hall pair Hin) as [H1 H2].
    by apply collect_keyed.
  - intros s t s' Eloop.
    pose proof (pool_loop_failure (STRATEGY_LIST inFolders) (pairings inFolders)
                  (Tally 0 (zeros_dict (STRATEGY_LIST inFolders)) [] []
                     (zeros_dict (STRATEGY_LIST inFolders))) s
                  (zeros_dict_keyed _) (zeros_dict_keyed _) (pairings_names inFolders))
      as Hkeyed.
    rewrite Eloop in Hkeyed. cbn [fst] in Hkeyed. split; [done|].
    destruct (rank_strategies_total _ _ Hnd Hkeyed) as [r Hr].
    exists r. split; [done|]. rewrite rank_strategies_insertion in Hr.
    destruct (rank_strategies_with_summary _ _ _ _ argsort_ascending Hkeyed Hr)
      as (Hperm & _).
    apply Permutation_length in Hperm. by rewrite length_map in Hperm.
Qed.

(** ** The ranks of the viewer against the summary *)

Lemma argsort_insert_Permutation {A} (lt : A -> A -> bool) (v : list A) (d : A)
    (i : nat) (l : list nat) :
  argsort_insert lt v d i l ≡ₚ i :: l.
Proof.
  induction l as [|j l IH]; cbn [argsort_insert]; [done|].
  destruct (lt _ _); [done|]. rewrite IH. apply Permutation_swap.
Qed.

Lemma argsort_insert_sorted_nat (v : list nat) (i : nat) (l : list nat) :
  StronglySorted (fun a b => (nth a v 0 <= nth b v 0)%nat) l ->
  StronglySorted (fun a b => (nth a v 0 <= nth b v 0)%nat)
    (argsort_insert Nat.ltb v 0%nat i l).
Proof.
  induction l as [|j l IH]; intros Hs; cbn [argsort_insert].
  - repeat constructor.
  - apply StronglySorted_inv in Hs as [Hs Hj].
    destruct (Nat.ltb_spec (nth i v 0%nat) (nth j v 0%nat)) as [Hlt | Hge].
    + constructor; [by constructor|].
      constructor; [lia|].
      eapply Forall_impl; [exact Hj|]. intros x Hx. cbn in Hx |- *. lia.
    + constructor; [by apply IH|].
      rewrite argsort_insert_Permutation. by constructor.
Qed.

Lemma argsort_sorted_nat (v : list nat) :
  StronglySorted (fun a b => (nth a v 0 <= nth b v 0)%nat) (argsort Nat.ltb 0%nat v) /\
  argsort Nat.ltb 0%nat v ≡ₚ seq 0 (length v).
Proof.
  unfold argsort, range. rewrite Nat.sub_0_r.
  induction (length v) as [|n [IHs IHp]].
  - split; [constructor | done].
  - rewrite seq_S, fold_left_app. cbn [fold_left Nat.add].
    split; [by apply argsort_insert_sorted_nat|].
    by rewrite argsort_insert_Permutation, IHp, Permutation_app_comm.
Qed.

Lemma seq_sorted (n a : nat) : StronglySorted le (seq a n).
Proof.
  revert a. induction n as [|n IH]; intros a; cbn [seq]; constructor; [apply IH|].
  apply Forall_forall. intros x Hx%elem_of_seq. lia.
Qed.

Lemma fmap_nth_seq (v : list nat) :
  (fun j => nth j v 0%nat) <$> seq 0 (length v) = v.
Proof.
  apply list_eq. intros k. rewrite list_lookup_fmap.
  destruct (decide (k < length v)%nat) as [Hk | Hk].
  - rewrite lookup_seq_lt by done. cbn.
    destruct (lookup_lt_is_Some_2 v k Hk) as [x Hx].
    by rewrite Hx, (nth_lookup_Some _ _ _ _ Hx).
  - rewrite lookup_seq_ge by lia. cbn. symmetry. apply lookup_ge_None. lia.
Qed.

(** [np.argsort] of a permutation of 0 .. n-1 is its inverse. *)
Lemma argsort_inverse (v : list nat) (m i : nat) :
  v ≡ₚ seq 0 (length v) ->
  argsort Nat.ltb 0%nat v !! m = Some i -> v !! i = Some m.
Proof.
  intros Hv Hm. destruct (argsort_sorted_nat v) as [Hs Hp].
  assert (Hkeys : (fun j => nth j v 0%nat) <$> argsort Nat.ltb 0%nat v
                  = seq 0 (length v)).
  { apply (StronglySorted_unique le).
    - by apply (StronglySorted_fmap _ (fun a b => (nth a v 0 <= nth b v 0)%nat)).
    - apply seq_sorted.
    - by rewrite Hp, fmap_nth_seq. }
  assert (Hi : (i < length v)%nat).
  { apply list_elem_of_lookup_2 in Hm. rewrite Hp in Hm.
    apply elem_of_seq in Hm. lia. }
  assert (Hk : ((fun j => nth j v 0%nat) <$> argsort Nat.ltb 0%nat v) !! m
               = Some (nth i v 0%nat)) by (by rewrite list_lookup_fmap, Hm).
  rewrite Hkeys in Hk. apply lookup_seq in Hk as [Hk _]. cbn in Hk.
  destruct (lookup_lt_is_Some_2 v i Hi) as [x Hx].
  rewrite (nth_lookup_Some _ _ _ _ Hx) in Hk. by rewrite Hx, Hk.
Qed.

(** X24.  The rank the viewer is given for a strategy ([invRankings], counted
    from 0) is the place of that strategy in the summary: line
    [invRankings[i] + 1] of the summary is the line of strategy [i]. *)
Theorem invRankings_summary (names : list string) (keeper : gmap string Qc)
    (r : ranking) (i k : nat) :
  rank_strategies names keeper = Ok r ->
  invRankings r !! i = Some k ->
  reverse (rankings r) !! k = Some i /\
  forall line name,
    summary r !! k = Some line -> names !! i = Some name ->
    line.1.1.1 = S k /\ line.1.1.2 = name.
Proof.
  unfold rank_strategies.
  destruct (fill_scores names keeper) as [v|] eqn:Ev; [|done]. cbn [mbind result_bind].
  cbv zeta. set (rk := argsort Qc_ltb 0%Qc v).
  destruct (mapM _ _) as [lines|] eqn:El; [|done]. cbn [mbind result_bind].
  intros [= <-]. cbn [invRankings rankings summary].
  destruct (argsort_sorted v) as [_ Hperm]. fold rk in Hperm.
  assert (Hlen : length rk = length v) by (by rewrite Hperm, length_seq).
  rewrite list_lookup_fmap. destruct (argsort Nat.ltb 0%nat rk !! i) as [m|] eqn:Em; [|done].
  cbn. intros [= <-].
  pose proof Em as Hinv. apply argsort_inverse in Hinv; [|by rewrite Hlen].
  pose proof (lookup_lt_Some _ _ _ Hinv) as Hm.
  assert (Hrev : reverse rk !! (length rk - m - 1)%nat = Some i).
  { apply reverse_lookup_Some. split; [|lia]. rewrite <- Hinv. f_equal. lia. }
  split; [done|]. intros line name Hline Hname.
  apply mapM_Ok in El.
  destruct (Forall2_lookup_r _ _ _ _ _ El Hline) as (rank & Hrank & Hsl).
  unfold range in Hrank. apply lookup_seq in Hrank as [-> _]. cbn in Hsl.
  unfold scoreLine in Hsl.
  destruct (py_index rk _) as [i'|] eqn:Ei; [|done]. cbn in Hsl.
  apply py_index_from_end in Ei. rewrite Hrev in Ei. injection Ei as <-.
  destruct (item v i) as [score|]; [|done]. cbn in Hsl.
  unfold item in Hsl. rewrite Hname in Hsl. cbn in Hsl.
  injection Hsl as <-. cbn. split; [lia|done].
Qed.

(** ** The stochastic path of runRounds *)

Lemma tallyRoundScores_valid (h : grid) :
  valid_grid h -> (0 < width h)%nat ->
  exists a b,
    tallyRoundScores h = Ok (a, b) /\
    (Qc_of_Z 0 <= a)%Qc /\ (a <= Qc_of_Z 5)%Qc /\
    (Qc_of_Z 0 <= b)%Qc /\ (b <= Qc_of_Z 5)%Qc /\
    (Qc_of_Z 2 <= a + b)%Qc /\ (a + b <= Qc_of_Z 6)%Qc.
Proof.
  intros Hv Hw. unfold tallyRoundScores, range.
  destruct (add_points_loop_ok h (width h - 0) 0 (0, 0) Hv ltac:(lia)) as [sc E].
  rewrite E. cbn [mbind result_bind]. rewrite bool_decide_eq_false_2 by lia.
  apply add_points_loop_bounds in E. cbn zeta in E. cbn [fst snd] in E.
  rewrite length_seq, Nat.sub_0_r in E.
  assert (Hn : 0 < Z.of_nat (width h)) by lia.
  destruct (Qc_div_bounds 0 5 sc.1 _ Hn ltac:(lia)) as [A1 A2].
  destruct (Qc_div_bounds 0 5 sc.2 _ Hn ltac:(lia)) as [B1 B2].
  destruct (Qc_div_bounds 2 6 (sc.1 + sc.2) _ Hn ltac:(lia)) as [C1 C2].
  eexists _, _. split; [reflexivity|]. do 4 (split; [done|]).
  replace (Qc_of_Z sc.1 / Qc_of_Z (Z.of_nat (width h))
           + Qc_of_Z sc.2 / Qc_of_Z (Z.of_nat (width h)))%Qc
    with (Qc_of_Z (sc.1 + sc.2) / Qc_of_Z (Z.of_nat (width h)))%Qc; [done|].
  rewrite Z2Qc_inj_add. field. by apply Qc_of_Z_nonzero.
Qed.

Lemma py_sum_snoc (l : list Qc) (x : Qc) : py_sum (l ++ [x]) = (py_sum l + x)%Qc.
Proof. rewrite py_sum_app. unfold py_sum at 2. cbn. ring. Qed.

Lemma Qc_of_nat_S (n : nat) :
  Qc_of_Z (Z.of_nat (S n)) = (Qc_of_Z (Z.of_nat n) + 1)%Qc.
Proof. by rewrite Nat2Z.inj_succ, <- Z.add_1_r, Z2Qc_inj_add, Z2Qc_inj_1. Qed.

Lemma weighted_step (lo hi q c C t : Qc) :
  (lo <= q)%Qc -> (q <= hi)%Qc -> (0 <= c)%Qc ->
  (lo * C <= t)%Qc -> (t <= hi * C)%Qc ->
  (lo * (C + c) <= t + q * c)%Qc /\ (t + q * c <= hi * (C + c))%Qc.
Proof.
  intros H1 H2 Hc H3 H4. rewrite !Qcmult_plus_distr_r.
  split; apply Qcplus_le_compat; try done; by apply Qcmult_le_mono_nonneg_r.
Qed.

Section Stochastic.
Hypothesis random_unit : forall w, (0 <= (random_random w).1 < 1)%R.

Lemma sample_round_within (mA mB : module M W) (acc : samples) (i n : nat)
    (s : state W) :
  returns_moves mA -> returns_moves mB ->
  samples_within n acc ->
  i = 0%nat \/ first_played acc ->
  exists acc' s',
    sample_round mA mB acc i s = (Ok acc', s') /\
    samples_within (S n) acc' /\ first_played acc'.
Proof.
  intros HA HB (LA & LB & A1 & A2 & B1 & B2 & C1 & C2) Hfirst. unfold sample_round.
  destruct (runRound_ok random_unit mA mB s HA HB) as (h & s' & E & Hv & Hw & _).
  rewrite (bind_ok _ _ _ _ _ E).
  destruct (tallyRoundScores_valid h Hv ltac:(lia))
    as (a & b & -> & Ha1 & Ha2 & Hb1 & Hb2 & Hc1 & Hc2).
  rewrite bind_lift_ok. eexists _, _. split; [reflexivity|]. split.
  - unfold samples_within. cbn [allScoresA allScoresB]. cbv zeta.
    rewrite !length_app, !py_sum_snoc, Qc_of_nat_S. cbn [length].
    assert (H01 : (0 <= 1)%Qc) by done.
    destruct (weighted_step _ _ _ 1%Qc _ _ Ha1 Ha2 H01 A1 A2) as [Ha3 Ha4].
    destruct (weighted_step _ _ _ 1%Qc _ _ Hb1 Hb2 H01 B1 B2) as [Hb3 Hb4].
    destruct (weighted_step _ _ _ 1%Qc _ _ Hc1 Hc2 H01 C1 C2) as [Hs1 Hs2].
    rewrite !Qcmult_1_r in Ha3, Ha4, Hb3, Hb4, Hs1, Hs2.
    split; [lia|]. split; [lia|]. do 4 (split; [done|]).
    replace (py_sum (allScoresA acc) + a + (py_sum (allScoresB acc) + b))%Qc
      with (py_sum (allScoresA acc) + py_sum (allScoresB acc) + (a + b))%Qc by ring.
    done.
  - unfold first_played. cbn [firstRoundHistory]. case_bool_decide as Hi.
    + exists h. split; [done|]. by split.
    + destruct Hfirst as [? | Hf]; [done|]. exact Hf.
Qed.

Lemma sample_rounds_within (mA mB : module M W) (n a k : nat) (acc : samples)
    (s : state W) :
  returns_moves mA -> returns_moves mB ->
  samples_within k acc ->
  a = 0%nat \/ first_played acc ->
  exists acc' s',
    for_each (sample_round mA mB) (seq a n) acc s = (Ok acc', s') /\
    samples_within (k + n) acc' /\ (0 < n -> first_played acc')%nat.
Proof.
  intros HA HB. revert a k acc s.
  induction n as [|n IH]; intros a k acc s Hin Hfirst.
  - exists acc, s. split; [done|]. rewrite Nat.add_0_r. split; [done|]. lia.
  - destruct (sample_round_within mA mB acc a k s HA HB Hin Hfirst)
      as (acc1 & s1 & E & Hin1 & Hf1).
    destruct (IH (S a) (S k) acc1 s1 Hin1 (or_intror Hf1)) as (acc' & s' & E' & Hin' & Hf').
    exists acc', s'. cbn [seq for_each]. rewrite (bind_ok _ _ _ _ _ E).
    split; [done|]. replace (k + S n)%nat with (S k + n)%nat by lia.
    split; [done|]. intros _. destruct n as [|n]; [|apply Hf'; lia].
    cbn [seq for_each] in E'. injection E' as <- _. done.
Qed.

(** X25.  The stochastic path, as a whole.  For a pairing that fails the
    determinism check, with strategies that return moves, draws in [0, 1) and
    at least one run asked for, [runRounds] returns: each average lies
    between 0 and 5 and the two together between 2 and 6, the history
    reported is that of a round that was played, of at least 200 turns, and
    with a single run both deviations are 0. *)
Theorem runRounds_stochastic (pair : pairing) (s : state W) :
  let moduleA := import_module pair.1 in
  let moduleB := import_module pair.2 in
  returns_moves moduleA -> returns_moves moduleB ->
  (199 <= DETERMINISTIC_TURNS)%nat ->
  use_cache args = false \/ cache s !! pair = None ->
  (exists t, (t < DETERMINISTIC_TURNS)%nat /\
     ~ probes_agree (moves_at moduleA moduleB (time_time (world s)).2 t)) ->
  1 <= NUM_RUNS ->
  exists e t,
    (runRounds pair s).1 = Ok (false, e, t) /\
    (0 <= e_avgScoreA e)%Qc /\ (e_avgScoreA e <= Qc_of_Z 5)%Qc /\
    (0 <= e_avgScoreB e)%Qc /\ (e_avgScoreB e <= Qc_of_Z 5)%Qc /\
    (Qc_of_Z 2 <= e_avgScoreA e + e_avgScoreB e)%Qc /\
    (e_avgScoreA e + e_avgScoreB e <= Qc_of_Z 6)%Qc /\
    valid_grid (e_firstRoundHistory e) /\ (200 <= width (e_firstRoundHistory e))%nat /\
    (NUM_RUNS = 1 -> e_stdevA e = 0%Qc /\ e_stdevB e = 0%Qc).
Proof.
  intros moduleA moduleB HA HB Hd Hmiss Hdis Hn.
  rewrite runRounds_unfold.
  set (s0 := if use_cache args
             then State (world s) (cache s) (EvCacheGet pair :: events s) else s).
  assert (E0 : (if use_cache args then cache_get pair else mret None) s = (Ok None, s0)).
  { unfold s0. destruct (use_cache args).
    - rewrite cache_get_eq. destruct Hmiss as [Hoff | Hnone]; [done|]. by rewrite Hnone.
    - done. }
  assert (Hw0 : world s0 = world s) by (unfold s0; by destruct (use_cache args)).
  rewrite (bind_ok _ _ _ _ _ E0). unfold runRounds_compute.
  rewrite (bind_ok _ _ _ _ _ (clock_eq _)).
  rewrite (bind_ok _ _ _ _ _ (load_eq _ _)), (bind_ok _ _ _ _ _ (load_eq _ _)).
  cbn [world cache events]. rewrite Hw0. fold moduleA moduleB.
  match goal with
  | |- context [mbind _ (runDeterministic _ _) ?s1] =>
      destruct (runDeterministic_play moduleA moduleB s1 HA HB Hd)
      as (s2 & _ & [(Hall & _) | (_ & E2)])
  end.
  { destruct Hdis as (t & Ht & Hneg). destruct Hneg. by apply Hall. }
  rewrite (bind_ok _ _ _ _ _ E2).
  destruct (sample_rounds_within moduleA moduleB (Z.to_nat NUM_RUNS) 0 0
              (Samples [] [] None) s2 HA HB)
    as (acc & s3 & E3 & (LA & LB & A1 & A2 & B1 & B2 & C1 & C2) & Hfirst).
  { unfold samples_within. cbv zeta. cbn [allScoresA allScoresB length].
    repeat split; try done; vm_compute; discriminate. }
  { by left. }
  unfold range. rewrite Nat.sub_0_r, (bind_ok _ _ _ _ _ E3).
  destruct (Hfirst ltac:(lia)) as (h & Eh & Hv & Hw).
  cbn [Nat.add] in LA, LB, A1, A2, B1, B2, C1, C2.
  set (N := Qc_of_Z (Z.of_nat (Z.to_nat NUM_RUNS))) in A1, A2, B1, B2, C1, C2.
  assert (HN : (0 < N)%Qc) by (apply Qc_of_Z_pos; lia).
  assert (HNz : N <> 0%Qc) by (apply Qc_of_Z_nonzero; lia).
  assert (EA : statistics_mean (allScoresA acc) = Ok (py_sum (allScoresA acc) / N)%Qc).
  { unfold statistics_mean. destruct (allScoresA acc) as [|x l] eqn:El.
    - cbn in LA. lia.
    - unfold N. by rewrite <- LA. }
  assert (EB : statistics_mean (allScoresB acc) = Ok (py_sum (allScoresB acc) / N)%Qc).
  { unfold statistics_mean. destruct (allScoresB acc) as [|x l] eqn:El.
    - cbn in LB. lia.
    - unfold N. by rewrite <- LB. }
  unfold runRounds_finish.
  rewrite EA, bind_lift_ok, EB, bind_lift_ok, (bind_ok _ _ _ _ _ (clock_eq _)), Eh.
  cbv zeta.
  eexists _, _. split; [by destruct (use_cache args)|].
  cbn [e_avgScoreA e_avgScoreB e_stdevA e_stdevB e_firstRoundHistory].
  assert (Hdiv : forall lo x, (Qc_of_Z lo * N <= x)%Qc -> (Qc_of_Z lo <= x / N)%Qc).
  { intros lo x Hx. apply (Qcmult_le_mono_pos_r _ _ _ HN). by rewrite test_field. }
  assert (Hdiv' : forall hi x, (x <= Qc_of_Z hi * N)%Qc -> (x / N <= Qc_of_Z hi)%Qc).
  { intros hi x Hx. apply (Qcmult_le_mono_pos_r _ _ _ HN). by rewrite test_field. }
  split; [rewrite <- Z2Qc_inj_0; by apply Hdiv|]. split; [by apply Hdiv'|].
  split; [rewrite <- Z2Qc_inj_0; by apply Hdiv|]. split; [by apply Hdiv'|].
  replace (py_sum (allScoresA acc) / N + py_sum (allScoresB acc) / N)%Qc
    with ((py_sum (allScoresA acc) + py_sum (allScoresB acc)) / N)%Qc by (by field).
  split; [by apply Hdiv|]. split; [by apply Hdiv'|].
  split; [done|]. split; [done|].
  intros H1. rewrite LA, LB, H1. by split.
Qed.
End Stochastic.

(** X26.  The top level checks the turn count, then looks for the folders:
    with at least 200 turns, [--skip-slow] and no folder named slow, the
    program stops on the ValueError of [list.remove] before it has touched
    the cache or handed out a pairing. *)
Theorem main_needs_slow_folder (s : state W) :
  200 <= deterministic_turns args ->
  use_slow args = false ->
  ("slow"%string ∉ filter (fun p => os_path_isdir p) (os_listdir ".")) ->
  main s = (Raise (ValueError "list.remove(x): x not in list"), s).
Proof.
  intros Hd Hslow Hout. unfold main.
  replace (deterministic_turns args <? 200) with false
    by (symmetry; apply Z.ltb_ge; lia).
  unfold STRATEGY_FOLDERS. rewrite Hslow, (list_remove_missing _ _ Hout).
  apply bind_lift_raise.
Qed.

End Engine.

(** * The properties on the small tournament *)

(** The whole program on the two example strategies: both are classified
    deterministic, alwaysDefect is listed before alwaysCooperate, and the
    log records the pairing handed out, the modules loaded and the result
    cached. *)
Example main_example :
  let run := main example_args example_random example_time example_import
               example_stdev example_listdir example_isdir example_report
               example_state in
  (exists t r, run.1 = Ok (t, r) /\
     map (fun line : score_line => line.1.1.2) (summary r)
     = ["exampleStrats.alwaysDefect"; "exampleStrats.alwaysCooperate"]%string /\
     invRankings r = [1; 0]%nat /\ hits t = 0%nat) /\
  List.filter (fun ev => negb (is_call ev)) (events run.2)
  = [EvCacheClose; EvCacheInsert example_pair; EvRunDeterministic;
     EvImport example_pair.2; EvImport example_pair.1; EvCacheGet example_pair;
     EvDispatch example_pair; EvCacheSetup].
Proof.
  cbv zeta. split.
  - do 2 eexists. split; [vm_compute; exact eq_refl|]. vm_compute. done.
  - vm_compute. reflexivity.
Qed.

Lemma runDeterministic_expectation_witness :
  exists totals h s',
    runDeterministic example_args alwaysCooperate alwaysDefect example_state
    = (Ok (DetTotals totals h), s') /\
    totals = (expected_average example_args h 0, expected_average example_args h 1).
Proof.
  assert (E : exists totals h s',
             runDeterministic example_args alwaysCooperate alwaysDefect example_state
             = (Ok (DetTotals totals h), s'))
    by (do 3 eexists; vm_compute; exact eq_refl).
  destruct E as (totals & h & s' & E). exists totals, h, s'.
  split; [exact E|].
  exact (proj2 (proj2 (runDeterministic_expectation _ _ _ _ _ _ _ E))).
Defined.

Lemma runDeterministic_unanimous_witness :
  (200 <= DETERMINISTIC_TURNS example_args_default)%nat /\
  (exists h,
     (runDeterministic example_args_default alwaysCooperate alwaysCooperate
        example_state).1 = Ok (DetTotals (Qc_of_Z 3, Qc_of_Z 3) h) /\
     exists x,
       Binary64.runDeterministic_totals Binary64.Compensated 500 h = Ok (x, x) /\
       Binary64.within (Binary64.pow2_neg 45) x (Binary64.of_int 3) = true) /\
  (exists h,
     (runDeterministic example_args_default alwaysDefect alwaysDefect
        example_state).1 = Ok (DetTotals (Qc_of_Z 1, Qc_of_Z 1) h) /\
     exists x,
       Binary64.runDeterministic_totals Binary64.Compensated 500 h = Ok (x, x) /\
       Binary64.within (Binary64.pow2_neg 48) x (Binary64.of_int 1) = true).
Proof.
  assert (Hd : (200 <= DETERMINISTIC_TURNS example_args_default)%nat)
    by (vm_compute; lia).
  assert (Hmax : (DETERMINISTIC_TURNS example_args_default <= 1198)%nat)
    by (vm_compute; lia).
  split; [exact Hd|]. split.
  - destruct (proj1 (runDeterministic_unanimous example_args_default
                       Binary64.Compensated alwaysCooperate alwaysCooperate
                       example_state Hd)
                (fun _ _ _ => eq_refl) (fun _ _ _ => eq_refl)) as (h & E & F).
    exists h. split; [exact E | exact (F Hmax)].
  - destruct (proj2 (runDeterministic_unanimous example_args_default
                       Binary64.Compensated alwaysDefect alwaysDefect
                       example_state Hd)
                (fun _ _ _ => eq_refl) (fun _ _ _ => eq_refl)) as (h & E & F).
    exists h. split; [exact E | exact (F Hmax)].
Defined.

(** C2 as stated fails in the program's own arithmetic: at the default 500
    turns two strategies that always cooperate get the same double each, and
    it is less than 3; two that always defect get a double less than 1.  This
    is so with either summation of the builtin [sum]. *)
Lemma runDeterministic_binary64_counterexample :
  let cooperation := Grid (replicate 500 1) (replicate 500 1) in
  let defection := Grid (replicate 500 0) (replicate 500 0) in
  (runDeterministic example_args_default alwaysCooperate alwaysCooperate
     example_state).1 = Ok (DetTotals (Qc_of_Z 3, Qc_of_Z 3) cooperation) /\
  (runDeterministic example_args_default alwaysDefect alwaysDefect
     example_state).1 = Ok (DetTotals (Qc_of_Z 1, Qc_of_Z 1) defection) /\
  forall kind, exists x y,
    Binary64.runDeterministic_totals kind 500 cooperation = Ok (x, x) /\
    PrimFloat.ltb x (Binary64.of_int 3) = true /\
    PrimFloat.eqb x (Binary64.of_int 3) = false /\
    Binary64.runDeterministic_totals kind 500 defection = Ok (y, y) /\
    PrimFloat.ltb y (Binary64.of_int 1) = true /\
    PrimFloat.eqb y (Binary64.of_int 1) = false.
Proof.
  assert (Hd : (200 <= DETERMINISTIC_TURNS example_args_default)%nat)
    by (vm_compute; lia).
  split; [|split].
  - exact (runDeterministic_constant example_args_default alwaysCooperate
             alwaysCooperate 1 1 example_state (or_intror eq_refl) (or_intror eq_refl)
             Hd (fun _ _ _ => eq_refl) (fun _ _ _ => eq_refl)).
  - exact (runDeterministic_constant example_args_default alwaysDefect
             alwaysDefect 0 0 example_state (or_introl eq_refl) (or_introl eq_refl)
             Hd (fun _ _ _ => eq_refl) (fun _ _ _ => eq_refl)).
  - intros kind. destruct kind.
    + do 2 eexists. split; [vm_compute; reflexivity|].
      split; [vm_compute; reflexivity|]. split; [vm_compute; reflexivity|].
      split; [vm_compute; reflexivity|]. split; vm_compute; reflexivity.
    + do 2 eexists. split; [vm_compute; reflexivity|].
      split; [vm_compute; reflexivity|]. split; [vm_compute; reflexivity|].
      split; [vm_compute; reflexivity|]. split; vm_compute; reflexivity.
Qed.

Lemma alternator_returns_moves : returns_moves alternator.
Proof.
  intros h mem w. unfold is_move. cbn.
  pose proof (Z.mod_pos_bound (Z.of_nat w) 2 ltac:(lia)). lia.
Qed.

Lemma runDeterministic_verdict_witness :
  let pair := ("exampleStrats.alwaysCooperate", "exampleStrats.alternator")%string in
  (runDeterministic example_args (example_import pair.1) (example_import pair.2)
     example_state).1 = Ok DetFalse /\
  (exists t, (t < DETERMINISTIC_TURNS example_args)%nat /\
     (probe_A (moves_at (example_import pair.1) (example_import pair.2) 0%nat t)
        <> official_A (moves_at (example_import pair.1) (example_import pair.2) 0%nat t) \/
      probe_B (moves_at (example_import pair.1) (example_import pair.2) 0%nat t)
        <> official_B (moves_at (example_import pair.1) (example_import pair.2) 0%nat t))) /\
  Z.of_nat (rounds_run (events (runRounds example_args example_random example_time
                                  example_import example_stdev example_report pair
                                  example_state).2)) = 3.
Proof.
  intros pair.
  destruct (runDeterministic_verdict example_args example_random example_time
              example_import example_stdev example_report pair)
    as (Hfalse & _ & Hrounds).
  - intros h mem w. right. reflexivity.
  - exact alternator_returns_moves.
  - intros w. cbn. lra.
  - vm_compute. lia.
  - vm_compute. discriminate.
  - assert (E : (runDeterministic example_args (example_import pair.1)
                   (example_import pair.2) example_state).1 = Ok DetFalse)
      by (vm_compute; exact eq_refl).
    split; [exact E|]. split; [exact (proj1 (Hfalse example_state) E)|].
    rewrite (Hrounds example_state (State 1%nat ∅ [])).
    + reflexivity.
    + right. reflexivity.
    + reflexivity.
    + vm_compute. exact eq_refl.
Defined.



Lemma runRound_length_witness :
  exists (st : @round_state unit) s',
    runRound example_random alwaysCooperate alwaysDefect example_state
    = (Ok (history st), s') /\
    200 <= LENGTH_OF_GAME (example_random 0%nat).1 /\
    length (row0 (history st)) = Z.to_nat (LENGTH_OF_GAME (example_random 0%nat).1) /\
    length (row1 (historyFlipped st)) = Z.to_nat (LENGTH_OF_GAME (example_random 0%nat).1).
Proof.
  destruct (runRound_length example_random alwaysCooperate alwaysDefect example_state)
    as (_ & st & s' & calls & _ & E & _ & _ & Hmin & H0 & _ & _ & H1).
  - intros w. cbn. lra.
  - intros h mem w. right. reflexivity.
  - intros h mem w. left. reflexivity.
  - exists st, s'. split; [exact E|]. split; [exact Hmin|]. split; [exact H0 | exact H1].
Defined.

Lemma main_fails_fast_witness :
  exists new,
    (main example_args_missing example_random example_time example_import example_stdev
       example_listdir example_isdir example_report example_state).1
    = Raise (ValueError "Not enough strategies!") /\
    events (main example_args_missing example_random example_time example_import
              example_stdev example_listdir example_isdir example_report example_state).2
    = new ++ [] /\
    Forall (fun ev => is_work ev = false) new.
Proof.
  destruct (main_fails_fast example_args_missing example_random example_time
              example_import example_stdev example_listdir example_isdir example_report
              example_state)
    as (e & new & E & [He | He] & _ & Hev & Hnew & _).
  - right. exists ["exampleStrats"]%string. split; [reflexivity|]. vm_compute. lia.
  - rewrite He in E. vm_compute in E. discriminate E.
  - exists new. rewrite He in E. split; [exact E|]. split; [exact Hev | exact Hnew].
Defined.

Lemma runRounds_cached_witness :
  (runRounds example_args example_random example_time example_import example_stdev
     example_report example_pair example_cached_state).1
  = Ok (true, example_entry, 0%Qc) /\
  events (runRounds example_args example_random example_time example_import example_stdev
            example_report example_pair example_cached_state).2
  = [EvCacheClose; EvCacheGet example_pair].
Proof.
  destruct (runRounds_cached example_args example_random example_time example_import
              example_stdev example_report example_pair example_entry example_cached_state)
    as (E & Hev & _).
  - reflexivity.
  - apply lookup_singleton_eq.
  - split; [exact E | exact Hev].
Defined.

Lemma ranking_order_witness :
  ascending (argsort Qc_ltb 0%Qc) /\
  exists t r s',
    runFullPairingTournament_with example_args example_random example_time
      example_import example_stdev example_listdir example_report
      (argsort Qc_ltb 0%Qc) ["exampleStrats"]%string example_state
    = (Ok (t, r), s') /\
    (allResults t).*1 = pairings example_args example_listdir ["exampleStrats"]%string /\
    map line_name (summary r)
      ≡ₚ STRATEGY_LIST example_args example_listdir ["exampleStrats"]%string.
Proof.
  split; [exact argsort_ascending|].
  assert (E : exists t r s',
             runFullPairingTournament_with example_args example_random example_time
               example_import example_stdev example_listdir example_report
               (argsort Qc_ltb 0%Qc) ["exampleStrats"]%string example_state
             = (Ok (t, r), s'))
    by (do 3 eexists; vm_compute; exact eq_refl).
  destruct E as (t & r & s' & E). exists t, r, s'. split; [exact E|].
  destruct (ranking_order example_args example_random example_time example_import
              example_stdev example_listdir example_report _ _ _ _ _ _
              argsort_ascending E) as (Hres & Hperm & _).
  split; [exact Hres | exact Hperm].
Defined.

(** C4 as stated fails on two strategies with equal cumulative scores: a
    sort that keeps equal keys in index order is an ascending sort, and with
    it the strategy that comes first in the enumeration is listed second. *)
Lemma ranking_ties_counterexample :
  let names := STRATEGY_LIST example_args twins_listdir ["twins"]%string in
  ~ (forall np_argsort, ascending np_argsort ->
       forall t r s',
         runFullPairingTournament_with example_args example_random example_time
           twins_import example_stdev twins_listdir example_report
           np_argsort ["twins"]%string example_state
         = (Ok (t, r), s') ->
         forall p q lp lq,
           (p < q)%nat ->
           summary r !! p = Some lp -> summary r !! q = Some lq ->
           (line_score lq <= line_score lp)%Qc /\
           (line_score lp = line_score lq ->
            exists ip iq,
              names !! ip = Some (line_name lp) /\ names !! iq = Some (line_name lq) /\
              (ip < iq)%nat)).
Proof.
  intros names H.
  assert (E : exists t r s',
             runFullPairingTournament_with example_args example_random example_time
               twins_import example_stdev twins_listdir example_report
               (argsort Qc_ltb 0%Qc) ["twins"]%string example_state
             = (Ok (t, r), s') /\
             exists lp lq,
               summary r !! 0%nat = Some lp /\ summary r !! 1%nat = Some lq /\
               line_score lp = line_score lq /\
               line_name lp = "twins.second"%string /\
               line_name lq = "twins.first"%string).
  { do 3 eexists. split; [vm_compute; exact eq_refl|].
    do 2 eexists. split; [exact eq_refl|]. split; [exact eq_refl|].
    split; [exact eq_refl|]. split; exact eq_refl. }
  destruct E as (t & r & s' & E & lp & lq & Hp & Hq & Hs & Hnp & Hnq).
  assert (Hpq : (0 < 1)%nat) by (clear; lia).
  destruct (H _ argsort_ascending t r s' E 0%nat 1%nat lp lq Hpq Hp Hq) as [_ Htie].
  destruct (Htie Hs) as (ip & iq & Hip & Hiq & Hlt).
  rewrite Hnp in Hip. rewrite Hnq in Hiq. clear - Hip Hiq Hlt.
  destruct ip as [|[|ip]]; vm_compute in Hip; try discriminate Hip.
  destruct iq as [|[|iq]]; vm_compute in Hiq; try discriminate Hiq. lia.
Qed.

(** ** More of the engine on the small tournament *)

Lemma alwaysCooperate_pure : pure_strategy alwaysCooperate.
Proof. intros h mem w w'. reflexivity. Qed.

Lemma alwaysDefect_pure : pure_strategy alwaysDefect.
Proof. intros h mem w w'. reflexivity. Qed.

Lemma alwaysCooperate_returns_moves : returns_moves alwaysCooperate.
Proof. intros h mem w. right. reflexivity. Qed.

Lemma alwaysDefect_returns_moves : returns_moves alwaysDefect.
Proof. intros h mem w. left. reflexivity. Qed.

Lemma runRounds_cached_flag_witness :
  use_cache example_args = true /\
  is_Some (cache example_cached_state !! example_pair).
Proof.
  assert (E : (runRounds example_args example_random example_time example_import
                 example_stdev example_report example_pair example_cached_state).1
              = Ok (true, example_entry, 0%Qc))
    by (vm_compute; exact eq_refl).
  exact (proj1 (proj1 (runRounds_cached_flag _ _ _ _ _ _ _ _ _ _ _ E)) eq_refl).
Defined.

Lemma runRounds_twice_witness :
  exists e t s',
    runRounds example_args example_random example_time example_import example_stdev
      example_report example_pair example_state = (Ok (false, e, t), s') /\
    runRounds example_args example_random example_time example_import example_stdev
      example_report example_pair s'
    = (Ok (true, e, 0%Qc),
       State (world s') (cache s') (EvCacheClose :: EvCacheGet example_pair :: events s')).
Proof.
  assert (E : exists e t s',
             runRounds example_args example_random example_time example_import
               example_stdev example_report example_pair example_state
             = (Ok (false, e, t), s'))
    by (do 3 eexists; vm_compute; exact eq_refl).
  destruct E as (e & t & s' & E). exists e, t, s'. split; [exact E|].
  exact (runRounds_twice example_args _ _ _ _ _ _ _ _ _ _ eq_refl E).
Defined.

Lemma runRounds_no_cache_witness :
  cache (runRounds example_args_no_cache example_random example_time example_import
           example_stdev example_report example_pair example_cached_state).2
  = cache example_cached_state.
Proof.
  exact (proj1 (proj2 (runRounds_no_cache example_args_no_cache example_random
                         example_time example_import example_stdev example_report
                         example_pair example_cached_state eq_refl))).
Defined.

Lemma tallyRoundScores_bounds_witness :
  exists scoreA scoreB,
    tallyRoundScores (Grid [1; 0; 1] [1; 1; 0]) = Ok (scoreA, scoreB) /\
    (Qc_of_Z 2 <= scoreA + scoreB)%Qc /\ (scoreA + scoreB <= Qc_of_Z 6)%Qc.
Proof.
  assert (E : exists scoreA scoreB,
             tallyRoundScores (Grid [1; 0; 1] [1; 1; 0]) = Ok (scoreA, scoreB))
    by (do 2 eexists; vm_compute; exact eq_refl).
  destruct E as (a & b & E). exists a, b. split; [exact E|].
  exact (proj2 (proj2 (proj2 (proj2 (tallyRoundScores_bounds _ _ _ E))))).
Defined.

Lemma tallyRoundScores_flip_witness :
  tallyRoundScores (flip (Grid [1; 0; 1] [1; 1; 0]))
  = match tallyRoundScores (Grid [1; 0; 1] [1; 1; 0]) with
    | Ok (scoreA, scoreB) => Ok (scoreB, scoreA)
    | Raise e => Raise e
    end.
Proof. exact (tallyRoundScores_flip (Grid [1; 0; 1] [1; 1; 0]) eq_refl). Defined.

Lemma runRound_flipped_witness :
  exists (st : @round_state unit) s',
    runRound_play example_random alwaysCooperate alwaysDefect example_state = (Ok st, s') /\
    historyFlipped st = flip (history st).
Proof.
  destruct (runRound_play_ok example_random (fun w => ltac:(cbn; lra))
              alwaysCooperate alwaysDefect example_state
              alwaysCooperate_returns_moves alwaysDefect_returns_moves)
    as (st & s' & E & _).
  exists st, s'. split; [exact E|]. exact (runRound_flipped _ _ _ _ _ _ E).
Defined.

Lemma pure_strategies_deterministic_witness :
  exists totals history,
    (runDeterministic example_args alwaysCooperate alwaysDefect example_state).1
    = Ok (DetTotals totals history).
Proof.
  apply (pure_strategies_deterministic example_args alwaysCooperate alwaysDefect
           example_state alwaysCooperate_pure alwaysDefect_pure
           alwaysCooperate_returns_moves alwaysDefect_returns_moves).
  vm_compute. lia.
Defined.

Lemma runRounds_deterministic_witness :
  exists e t,
    (runRounds example_args example_random example_time example_import example_stdev
       example_report example_pair example_state).1 = Ok (false, e, t) /\
    e_stdevA e = 0%Qc /\ e_stdevB e = 0%Qc /\
    rounds_run (events (runRounds example_args example_random example_time
                          example_import example_stdev example_report example_pair
                          example_state).2) = 0%nat.
Proof.
  destruct (runRounds_deterministic example_args example_random example_time
              example_import example_stdev example_report example_pair example_state)
    as (e & t & E & _ & _ & Ha & Hb & _ & Hr).
  - exact alwaysCooperate_returns_moves.
  - exact alwaysDefect_returns_moves.
  - vm_compute. lia.
  - right. reflexivity.
  - intros t _. unfold moves_at.
    destruct (play_pure alwaysCooperate alwaysDefect (example_time 0%nat).2 t
                alwaysCooperate_pure alwaysDefect_pure) as [Ea Eb].
    exact (proj1 (play_turn_pure alwaysCooperate alwaysDefect _
                    alwaysCooperate_pure alwaysDefect_pure Ea Eb)).
  - exists e, t. split; [exact E|]. split; [exact Ha|]. split; [exact Hb | exact Hr].
Defined.

Lemma runRounds_no_samples_witness :
  let pair := ("exampleStrats.alwaysCooperate", "exampleStrats.alternator")%string in
  (runRounds example_args_no_runs example_random example_time example_import
     example_stdev example_report pair example_state).1 = Raise StatisticsError.
Proof.
  intros pair.
  apply (runRounds_no_samples example_args_no_runs example_random example_time
           example_import example_stdev example_report pair example_state).
  - exact alwaysCooperate_returns_moves.
  - exact alternator_returns_moves.
  - vm_compute. lia.
  - right. reflexivity.
  - exists 0%nat. split; [vm_compute; lia|]. intros [_ Hb]. vm_compute in Hb.
    discriminate Hb.
  - vm_compute. discriminate.
Defined.

Lemma tournament_plays_every_pairing_witness :
  exists t r s',
    runFullPairingTournament example_args example_random example_time example_import
      example_stdev example_listdir example_report ["exampleStrats"]%string example_state
    = (Ok (t, r), s') /\
    (allResults t).*1 = pairings example_args example_listdir ["exampleStrats"]%string.
Proof.
  assert (E : exists t r s',
             runFullPairingTournament example_args example_random example_time
               example_import example_stdev example_listdir example_report
               ["exampleStrats"]%string example_state = (Ok (t, r), s'))
    by (do 3 eexists; vm_compute; exact eq_refl).
  destruct E as (t & r & s' & E). exists t, r, s'. split; [exact E|].
  exact (proj1 (proj2 (tournament_plays_every_pairing _ _ _ _ _ _ _ _ _ _ _ _ E))).
Defined.

Lemma example_names_NoDup (a : Args) :
  strategies a = None ->
  NoDup (STRATEGY_LIST a example_listdir ["exampleStrats"]%string).
Proof.
  intros Hs. unfold STRATEGY_LIST. rewrite Hs. cbn.
  apply NoDup_cons. split; [|apply NoDup_singleton].
  intros Hin%list_elem_of_singleton. discriminate Hin.
Qed.

Lemma tournament_hits_witness :
  exists t r s',
    runFullPairingTournament example_args example_random example_time example_import
      example_stdev example_listdir example_report ["exampleStrats"]%string
      example_cached_state
    = (Ok (t, r), s') /\
    hits t = 1%nat.
Proof.
  assert (E : exists t r s',
             runFullPairingTournament example_args example_random example_time
               example_import example_stdev example_listdir example_report
               ["exampleStrats"]%string example_cached_state = (Ok (t, r), s'))
    by (do 3 eexists; vm_compute; exact eq_refl).
  destruct E as (t & r & s' & E). exists t, r, s'. split; [exact E|].
  rewrite (tournament_hits _ _ _ _ _ _ _ _ _ _ _ _
             (example_names_NoDup example_args eq_refl) E).
  vm_compute. reflexivity.
Defined.

Lemma progressBar_length_witness :
  String.length (progressBar 50 (Q2Qc (3 # 7))) = 52%nat.
Proof.
  apply (progressBar_length 50 (Q2Qc (3 # 7))).
  - lia.
  - vm_compute. discriminate.
  - vm_compute. discriminate.
Defined.

Lemma write_moves_row_witness :
  exists text,
    write_moves [1; 0; -1] = Ok text /\ String.length text = 6%nat.
Proof.
  assert (E : exists text, write_moves [1; 0; -1] = Ok text)
    by (eexists; vm_compute; exact eq_refl).
  destruct E as (text & E). exists text. split; [exact E|].
  exact (proj1 (write_moves_row _ _ E)).
Defined.

Lemma turnChances_decreasing_witness :
  (500 <= 1198)%nat /\
  exists a b,
    Binary64.turnChances Binary64.LeftToRight 500 !! 1%nat = Some a /\
    Binary64.turnChances Binary64.LeftToRight 500 !! 2%nat = Some b /\
    PrimFloat.ltb (Binary64.of_int 0) b = true /\ PrimFloat.ltb b a = true.
Proof.
  assert (Hn : (500 <= 1198)%nat) by lia.
  split; [exact Hn|].
  assert (E : exists a b,
             Binary64.turnChances Binary64.LeftToRight 500 !! 1%nat = Some a /\
             Binary64.turnChances Binary64.LeftToRight 500 !! 2%nat = Some b)
    by (do 2 eexists; split; vm_compute; exact eq_refl).
  destruct E as (a & b & Ea & Eb). exists a, b. split; [exact Ea|]. split; [exact Eb|].
  exact (proj2 (turnChances_decreasing _ _ _ _ _ Hn Ea Eb)).
Defined.

Lemma STRATEGY_FOLDERS_slow_witness :
  STRATEGY_FOLDERS example_args_fast example_listdir example_isdir
  = Raise (ValueError "list.remove(x): x not in list").
Proof.
  pose proof (STRATEGY_FOLDERS_slow example_args_fast example_listdir example_isdir
                eq_refl) as H.
  cbv zeta in H.
  assert (Hnd : NoDup (example_listdir ".")).
  { cbn. apply NoDup_cons. split; [|apply NoDup_singleton].
    intros Hin%list_elem_of_singleton. discriminate Hin. }
  specialize (H Hnd).
  destruct (STRATEGY_FOLDERS example_args_fast example_listdir example_isdir) as [l|e].
  - destruct H as [Hin _]. vm_compute in Hin.
    apply list_elem_of_singleton in Hin. discriminate Hin.
  - destruct H as [_ ->]. reflexivity.
Defined.

Lemma runDeterministic_least_turns_witness :
  exists totals history s',
    runDeterministic example_args alwaysCooperate alwaysDefect example_state
    = (Ok (DetTotals totals history), s') /\
    tallyRoundScores history = Ok totals.
Proof.
  assert (E : exists totals history s',
             runDeterministic example_args alwaysCooperate alwaysDefect example_state
             = (Ok (DetTotals totals history), s'))
    by (do 3 eexists; vm_compute; exact eq_refl).
  destruct E as (totals & h & s' & E). exists totals, h, s'. split; [exact E|].
  exact (runDeterministic_least_turns example_args _ _ _ _ _ _ eq_refl E).
Defined.

Lemma runDeterministic_above_payoffs_witness :
  DETERMINISTIC_TURNS example_args_212 = 212%nat /\
  exists h x y,
    (runDeterministic example_args_212 alwaysDefect alwaysCooperate example_state).1
      = Ok (DetTotals (Qc_of_Z 5, Qc_of_Z 0) h) /\
    Binary64.runDeterministic_totals Binary64.LeftToRight
      (DETERMINISTIC_TURNS example_args_212) h = Ok (x, y) /\
    PrimFloat.ltb (Binary64.of_int 5) x = true /\
    PrimFloat.eqb y (Binary64.of_int 0) = true.
Proof.
  split; [reflexivity|].
  exact (runDeterministic_above_payoffs example_args_212 Binary64.LeftToRight
           alwaysDefect alwaysCooperate example_state eq_refl
           (fun _ _ _ => eq_refl) (fun _ _ _ => eq_refl)).
Defined.

Lemma tournament_bookkeeping_witness :
  NoDup (STRATEGY_LIST example_args example_listdir ["exampleStrats"]%string) /\
  exists t r s',
    for_each
      (pool_step example_args example_random example_time example_import
         example_stdev example_report)
      (pairings example_args example_listdir ["exampleStrats"]%string)
      (Tally 0
         (zeros_dict (STRATEGY_LIST example_args example_listdir ["exampleStrats"]%string))
         [] []
         (zeros_dict (STRATEGY_LIST example_args example_listdir ["exampleStrats"]%string)))
      example_state = (Ok t, s') /\
    rank_strategies (STRATEGY_LIST example_args example_listdir ["exampleStrats"]%string)
      (scoreKeeper t) = Ok r /\
    length (summary r) = 2%nat.
Proof.
  assert (Hnd : NoDup (STRATEGY_LIST example_args example_listdir
                         ["exampleStrats"]%string)).
  { vm_compute. apply NoDup_cons. split; [|apply NoDup_singleton].
    intros Hin%list_elem_of_singleton. discriminate Hin. }
  split; [exact Hnd|].
  assert (E : exists t s',
             for_each
               (pool_step example_args example_random example_time example_import
                  example_stdev example_report)
               (pairings example_args example_listdir ["exampleStrats"]%string)
               (Tally 0
                  (zeros_dict (STRATEGY_LIST example_args example_listdir
                                 ["exampleStrats"]%string))
                  [] []
                  (zeros_dict (STRATEGY_LIST example_args example_listdir
                                 ["exampleStrats"]%string)))
               example_state = (Ok t, s'))
    by (do 2 eexists; vm_compute; exact eq_refl).
  destruct E as (t & s' & E).
  destruct (tournament_bookkeeping example_args example_random example_time
              example_import example_stdev example_listdir example_report
              ["exampleStrats"]%string Hnd) as (_ & _ & _ & Hloop).
  destruct (Hloop example_state t s' E) as (_ & r & Hr & Hlen).
  exists t, r, s'. split; [exact E|]. split; [exact Hr | exact Hlen].
Defined.

Lemma invRankings_summary_witness :
  exists r,
    rank_strategies ["s.a"; "s.b"; "s.c"]%string
      (list_to_map [("s.a", Qc_of_Z 3); ("s.b", Qc_of_Z 5); ("s.c", Qc_of_Z 3)]%string)
    = Ok r /\
    invRankings r !! 1%nat = Some 0%nat /\
    reverse (rankings r) !! 0%nat = Some 1%nat.
Proof.
  assert (E : exists r,
             rank_strategies ["s.a"; "s.b"; "s.c"]%string
               (list_to_map [("s.a", Qc_of_Z 3); ("s.b", Qc_of_Z 5); ("s.c", Qc_of_Z 3)]%string)
             = Ok r /\ invRankings r !! 1%nat = Some 0%nat).
  { eexists. split; [vm_compute; exact eq_refl|]. exact eq_refl. }
  destruct E as (r & E & Hi). exists r. split; [exact E|]. split; [exact Hi|].
  exact (proj1 (invRankings_summary _ _ _ _ _ E Hi)).
Defined.

Lemma runRounds_stochastic_witness :
  let pair := ("exampleStrats.alwaysCooperate", "exampleStrats.alternator")%string in
  exists e t,
    (runRounds example_args example_random example_time example_import example_stdev
       example_report pair example_state).1 = Ok (false, e, t) /\
    (200 <= width (e_firstRoundHistory e))%nat.
Proof.
  intros pair.
  destruct (runRounds_stochastic example_args example_random example_time
              example_import example_stdev example_report
              (fun w => ltac:(cbn; lra)) pair example_state)
    as (e & t & E & _ & _ & _ & _ & _ & _ & _ & Hw & _).
  - exact alwaysCooperate_returns_moves.
  - exact alternator_returns_moves.
  - vm_compute. lia.
  - right. reflexivity.
  - exists 0%nat. split; [vm_compute; lia|]. intros [_ Hb]. vm_compute in Hb.
    discriminate Hb.
  - vm_compute. discriminate.
  - exists e, t. split; [exact E | exact Hw].
Defined.

Lemma main_needs_slow_folder_witness :
  main example_args_fast example_random example_time example_import example_stdev
    example_listdir example_isdir example_report example_state
  = (Raise (ValueError "list.remove(x): x not in list"), example_state).
Proof.
  apply (main_needs_slow_folder example_args_fast example_random example_time
           example_import example_stdev example_listdir example_isdir example_report
           example_state).
  - vm_compute. discriminate.
  - reflexivity.
  - vm_compute. intros Hin%list_elem_of_singleton. discriminate Hin.
Defined.
